(** * message-agent: a shallow embedding of the host's core and its properties

    The development follows the TypeScript sources of the message-agent host:
    the heartbeat payload, the rule verifier, the segmented history store, the
    task store with its startup recovery, the recovery notifier, the skill
    handler and the agent service (message handling and the tool-use loop).

    Conventions of the embedding.
    - A JavaScript string is the list of its UTF-16 code units ([list N]);
      [.length] is [length].  String literals of the sources are written
      with [Js.lit].
    - JavaScript numbers that the code uses as counters and sizes are [Z];
      loop bounds that count iterations are [nat].
    - JSON serialisation is not modelled: a file written with
      [JSON.stringify] holds the value itself, and a file that [JSON.parse]
      rejects is the constructor [Unparseable].
    - The outside world (LLM backends, MCP servers, channels, the clock) is
      a deterministic oracle over an abstract state, so that a theorem over
      all oracles covers every behaviour of the collaborators.
    - File-system calls that the code does not guard succeed. *)

From Stdlib Require Import ZArith NArith QArith List Ascii String Bool Lia.
From stdpp Require Import base option list gmap.

Open Scope Z_scope.

(** ** JavaScript strings *)

Module Js.

Abbreviation jsstring := (list N).

(** A source literal, one code unit per character (ASCII literals only). *)
Definition lit (s : string) : jsstring :=
  map N_of_ascii (list_ascii_of_string s).

(** [a === b] on strings. *)
Definition str_eqb (a b : jsstring) : bool := bool_decide (a = b).

(** ECMAScript [WhiteSpace] and [LineTerminator] code units: what
    [String.prototype.trim] strips and what the class [\s] matches. *)
Definition is_space (c : N) : bool :=
  (let n := c in
   (n =? 9) || (n =? 10) || (n =? 11) || (n =? 12) || (n =? 13) ||
   (n =? 32) || (n =? 160) || (n =? 5760) ||
   ((8192 <=? n) && (n <=? 8202)) ||
   (n =? 8232) || (n =? 8233) || (n =? 8239) || (n =? 8287) ||
   (n =? 12288) || (n =? 65279))%N.

Fixpoint trimStart (s : jsstring) : jsstring :=
  match s with
  | [] => []
  | c :: r => if is_space c then trimStart r else s
  end.

Definition trimEnd (s : jsstring) : jsstring := rev (trimStart (rev s)).

(** The longest prefix without white space: what [\S+] takes. *)
Fixpoint takeNonSpace (s : jsstring) : jsstring :=
  match s with
  | [] => []
  | c :: r => if is_space c then [] else c :: takeNonSpace r
  end.

Definition trim (s : jsstring) : jsstring := trimEnd (trimStart s).

(** [s.startsWith(p)]. *)
Fixpoint startsWith (p s : jsstring) : bool :=
  match p, s with
  | [], _ => true
  | _ :: _, [] => false
  | a :: p', b :: s' => (a =? b)%N && startsWith p' s'
  end.

(** [s.endsWith(p)]. *)
Definition endsWith (p s : jsstring) : bool := startsWith (rev p) (rev s).

(** [s.indexOf(c)] for a single code unit: [None] is the source's [-1]. *)
Fixpoint indexOf (c : N) (s : jsstring) : option nat :=
  match s with
  | [] => None
  | d :: r => if (d =? c)%N then Some O else S <$> indexOf c r
  end.

(** Truthiness of a string value: the empty string is falsy. *)
Definition truthy (s : jsstring) : bool :=
  match s with [] => false | _ :: _ => true end.

(** Truthiness of an optional string ([undefined] is falsy). *)
Definition truthy_opt (o : option jsstring) : bool :=
  match o with Some s => truthy s | None => false end.

(** [a || b] on strings. *)
Definition or_else (a b : jsstring) : jsstring := if truthy a then a else b.

(** *** [String.prototype.replace] with a global literal pattern

    [GetSubstitution] for a pattern without capture groups: in the
    replacement text, [$$] stands for a dollar sign, [$&] for the match,
    [$`] for the text before the match and [$'] for the text after it; any
    other dollar sign is kept. *)
Definition dollar : N := 36%N.

Fixpoint getSubstitution (matched before after template : jsstring) : jsstring :=
  match template with
  | [] => []
  | c :: t =>
      if (c =? dollar)%N then
        match t with
        | d :: t' =>
            if (d =? 36)%N then dollar :: getSubstitution matched before after t'
            else if (d =? 38)%N then matched ++ getSubstitution matched before after t'
            else if (d =? 96)%N then before ++ getSubstitution matched before after t'
            else if (d =? 39)%N then after ++ getSubstitution matched before after t'
            else c :: getSubstitution matched before after t
        | [] => [c]
        end
      else c :: getSubstitution matched before after t
  end.

(** The scan of [s.replace(/pat/g, template)] for a literal, non-empty
    pattern: [before] is the part of the subject already passed (in reverse),
    [fuel] bounds the remaining length of the subject. *)
Fixpoint replaceAll_from (fuel : nat) (pat template before_rev s : jsstring)
  : jsstring :=
  match fuel with
  | O => s
  | S fuel' =>
      match s with
      | [] => []
      | c :: r =>
          if startsWith pat s then
            let after := drop (length pat) s in
            getSubstitution pat (rev before_rev) after template
              ++ replaceAll_from fuel' pat template
                   (rev (take (length pat) s) ++ before_rev) after
          else c :: replaceAll_from fuel' pat template (c :: before_rev) r
      end
  end.

Definition replaceAll (pat template s : jsstring) : jsstring :=
  match pat with
  | [] => s
  | _ :: _ => replaceAll_from (S (length s)) pat template [] s
  end.

Example trim_strips_both_ends : trim (lit "  hi there  ") = lit "hi there".
Proof. reflexivity. Qed.

Example replaceAll_every_occurrence :
  replaceAll (lit "$ARGUMENTS") (lit "x") (lit "a $ARGUMENTS b $ARGUMENTS")
  = lit "a x b x".
Proof. reflexivity. Qed.

Example replaceAll_expands_dollar_patterns :
  replaceAll (lit "$ARGUMENTS") (lit "[$&|$$|$1]") (lit "a $ARGUMENTS")
  = lit "a [$ARGUMENTS|$|$1]".
Proof. reflexivity. Qed.

End Js.

Import Js.

(** ** Heartbeat payload (health/heartbeat.ts) *)

Module Heartbeat.

(** An element of the list the channel-status provider returns. *)
Record ChannelStatusEntry := {
  cs_id : jsstring;
  cs_type : jsstring;
  cs_status : jsstring;
  cs_error : option jsstring;
}.

Inductive HeartbeatStatus := ok | degraded | error.

Record HeartbeatPayload := {
  pid : Z;
  timestamp : Z;
  uptimeSeconds : Z;
  status : HeartbeatStatus;
  channels : list ChannelStatusEntry;
  memoryMB : Z;
}.

(** What [buildPayload] reads from the process: [process.pid], [Date.now()],
    the floor of [process.uptime()] and the heap use rounded to MiB. *)
Record ProcessInfo := {
  proc_pid : Z;
  proc_now : Z;
  proc_uptime : Z;
  proc_heapMB : Z;
}.

Definition connected : jsstring := lit "connected".
Definition connecting : jsstring := lit "connecting".
Definition disconnected : jsstring := lit "disconnected".
Definition error_status : jsstring := lit "error".

Definition buildPayload (p : ProcessInfo) (chans : list ChannelStatusEntry)
  : HeartbeatPayload :=
  let allConnected :=
    (0 <? Z.of_nat (length chans))
    && forallb (fun c => str_eqb (cs_status c) connected) chans in
  let anyError := existsb (fun c => str_eqb (cs_status c) error_status) chans in
  let st :=
    if anyError then error
    else if negb allConnected && (0 <? Z.of_nat (length chans)) then degraded
    else ok in
  {| pid := proc_pid p;
     timestamp := proc_now p;
     uptimeSeconds := proc_uptime p;
     status := st;
     channels := chans;
     memoryMB := proc_heapMB p |}.

(** The HTTP status the health endpoint answers with. *)
Definition httpStatus (payload : HeartbeatPayload) : Z :=
  match status payload with ok => 200 | _ => 503 end.

(** The rule as the specification words it: [error] if some channel is in
    error, else [degraded] if some channel that is not connecting is not
    connected, else [ok]. *)
Definition status_as_specified (chans : list ChannelStatusEntry)
  : HeartbeatStatus :=
  if existsb (fun c => str_eqb (cs_status c) error_status) chans then error
  else if existsb (fun c => negb (str_eqb (cs_status c) connecting)
                           && negb (str_eqb (cs_status c) connected)) chans
       then degraded
  else ok.

Lemma str_eqb_true (a b : jsstring) : str_eqb a b = true <-> a = b.
Proof. unfold str_eqb. apply bool_decide_eq_true. Qed.

Lemma str_eqb_false (a b : jsstring) : str_eqb a b = false <-> a <> b.
Proof. unfold str_eqb. apply bool_decide_eq_false. Qed.

Lemma anyError_spec (chans : list ChannelStatusEntry) :
  existsb (fun c => str_eqb (cs_status c) error_status) chans = true
  <-> Exists (fun c => cs_status c = error_status) chans.
Proof.
  induction chans as [|c r IH]; simpl.
  - split; [discriminate | intros H; inversion H].
  - rewrite orb_true_iff, IH, str_eqb_true, Exists_cons. reflexivity.
Qed.

Lemma allConnected_spec (chans : list ChannelStatusEntry) :
  forallb (fun c => str_eqb (cs_status c) connected) chans = true
  <-> Forall (fun c => cs_status c = connected) chans.
Proof.
  induction chans as [|c r IH]; simpl.
  - split; [constructor | reflexivity].
  - rewrite andb_true_iff, IH, str_eqb_true, Forall_cons. reflexivity.
Qed.

(** A channel that is still connecting, and none in error: the rule as
    specified says [ok], the payload says [degraded]. *)
Lemma connecting_channel_is_degraded :
  let chans := [ {| cs_id := lit "web"; cs_type := lit "web";
                    cs_status := connecting; cs_error := None |} ] in
  Forall (fun c => cs_status c = connected \/ cs_status c = connecting) chans
  /\ Forall (fun c => cs_status c <> error_status) chans
  /\ status_as_specified chans = ok
  /\ status (buildPayload {| proc_pid := 1; proc_now := 0;
                             proc_uptime := 0; proc_heapMB := 0 |} chans)
     = degraded.
Proof.
  cbv zeta. repeat split.
  - constructor; [right; reflexivity | constructor].
  - constructor; [|constructor]. simpl. vm_compute. discriminate.
Qed.

(** C2 (amended): the payload's status is [error] when some channel is in
    error; otherwise [degraded] when some channel is not connected (a
    connecting channel counts); otherwise, that is when every channel is
    connected or there is no channel, [ok]. *)
Theorem buildPayload_status (p : ProcessInfo) (chans : list ChannelStatusEntry) :
  (Exists (fun c => cs_status c = error_status) chans ->
     status (buildPayload p chans) = error)
  /\ (~ Exists (fun c => cs_status c = error_status) chans ->
      Exists (fun c => cs_status c <> connected) chans ->
      status (buildPayload p chans) = degraded)
  /\ (Forall (fun c => cs_status c = connected) chans ->
      status (buildPayload p chans) = ok).
Proof.
  unfold buildPayload; simpl.
  destruct (existsb _ chans) eqn:Herr.
  - apply anyError_spec in Herr. repeat split.
    + intros Hne _; contradiction.
    + intros Hall. exfalso.
      apply Exists_exists in Herr as (c & Hin & Hc).
      rewrite Forall_forall in Hall. specialize (Hall c Hin).
      rewrite Hc in Hall. vm_compute in Hall. discriminate.
  - assert (Hno : ~ Exists (fun c => cs_status c = error_status) chans).
    { intros H. apply anyError_spec in H. congruence. }
    repeat split.
    + intros H; contradiction.
    + intros _ Hex.
      destruct (forallb _ chans) eqn:Hall.
      * apply allConnected_spec in Hall.
        apply Exists_exists in Hex as (c & Hin & Hc).
        rewrite Forall_forall in Hall. elim Hc. auto.
      * rewrite andb_false_r. simpl.
        destruct chans; [inversion Hex | reflexivity].
    + intros Hall. apply allConnected_spec in Hall. rewrite Hall.
      rewrite andb_true_r.
      destruct (0 <? Z.of_nat (length chans)); reflexivity.
Qed.

End Heartbeat.

(** ** Rule verifier: the completeness rule (agent/verification/rules) *)

Module Rules.

Inductive VerificationRating := GOOD | NEEDS_FIX | REDO.

Record VerificationResult := {
  passed : bool;
  rating : VerificationRating;
  feedback : jsstring;
  confidence : Q;
}.

(** The helper [fail(rule, feedback, rating = 'NEEDS_FIX')]. *)
Definition fail (rule feedback : jsstring) (r : option VerificationRating)
  : VerificationResult :=
  {| passed := false;
     rating := match r with Some x => x | None => NEEDS_FIX end;
     feedback := feedback;
     confidence := 1%Q |}.

(** The fragment of regular expressions the rules use: literal characters,
    sequence and alternation. *)
Inductive regex :=
| RChar (c : N)
| RSeq (a b : regex)
| RAlt (a b : regex)
| REps.

Definition rstr (s : string) : regex :=
  fold_right (fun c r => RSeq (RChar c) r) REps (lit s).

(** [Canonicalize] of the [i] flag, restricted to what decides a comparison
    with an ASCII pattern character: ASCII letters compare by their upper
    case, and no other code unit is ever mapped into ASCII. *)
Definition canonicalize (c : N) : N :=
  if ((97 <=? c) && (c <=? 122))%N then (c - 32)%N else c.

Definition char_matches (ignoreCase : bool) (p c : N) : bool :=
  if ignoreCase then (canonicalize p =? canonicalize c)%N else (p =? c)%N.

(** All the ways [r] matches a prefix of [s], as the remainders left, in
    the order a backtracking matcher tries them. *)
Fixpoint rmatch (ignoreCase : bool) (r : regex) (s : jsstring)
  : list jsstring :=
  match r with
  | RChar p =>
      match s with
      | c :: s' => if char_matches ignoreCase p c then [s'] else []
      | [] => []
      end
  | RSeq a b => flat_map (rmatch ignoreCase b) (rmatch ignoreCase a s)
  | RAlt a b => rmatch ignoreCase a s ++ rmatch ignoreCase b s
  | REps => [s]
  end.

(** [/^r/i.test(s)]. *)
Definition test_prefix_i (r : regex) (s : jsstring) : bool :=
  match rmatch true r s with [] => false | _ :: _ => true end.

(** [/^I('m| am) (sorry|afraid|unable)/i] and
    [/^I can('t|not) (help|assist|do)/i]. *)
Definition refusalPatterns : list regex :=
  [ RSeq (rstr "I")
      (RSeq (RAlt (rstr "'m") (rstr " am"))
         (RSeq (rstr " ")
            (RAlt (rstr "sorry") (RAlt (rstr "afraid") (rstr "unable")))));
    RSeq (rstr "I can")
      (RSeq (RAlt (rstr "'t") (rstr "not"))
         (RSeq (rstr " ")
            (RAlt (rstr "help") (RAlt (rstr "assist") (rstr "do"))))) ].

(** The character class of the terminator pattern: full stop, exclamation
    mark, question mark, line feed, backtick, double quote, closing
    parenthesis, closing bracket. *)
Definition terminators : list N := [46; 33; 63; 10; 96; 34; 41; 93]%N.

(** [s.match] of the terminator pattern is not null: the class is followed
    by a dollar, which without the [m] flag matches at the end of the input
    only. *)
Definition matches_terminator (s : jsstring) : bool :=
  match last s with
  | Some c => existsb (fun t => (t =? c)%N) terminators
  | None => false
  end.

Definition empty_feedback : jsstring := lit "Response is empty".
Definition refusal_feedback : jsstring := lit "Response appears to be a refusal".
Definition truncated_feedback : jsstring :=
  lit "Response appears truncated mid-sentence".
Definition rule_name : jsstring := lit "completeness".

(** [completenessRule.check]; [None] is the source's [null] (the rule
    passes). *)
Definition completenessRule_check (_request response : jsstring)
  : option VerificationResult :=
  if negb (truthy response) || (Z.of_nat (length (trim response)) =? 0) then
    Some (fail rule_name empty_feedback (Some REDO))
  else if existsb (fun pattern => test_prefix_i pattern (trim response))
            refusalPatterns then
    Some (fail rule_name refusal_feedback None)
  else if (100 <? Z.of_nat (length response))
          && negb (matches_terminator (trimEnd response)) then
    Some (fail rule_name truncated_feedback None)
  else None.





Example refusal_is_flagged :
  completenessRule_check [] (lit "  i AM afraid I cannot do that.")
  = Some (fail rule_name refusal_feedback None).
Proof. reflexivity. Qed.

Example blank_is_redo :
  completenessRule_check [] (lit "   ")
  = Some (fail rule_name empty_feedback (Some REDO)).
Proof. reflexivity. Qed.

Example long_with_full_stop_passes :
  completenessRule_check [] (repeat 97%N 100 ++ lit ".  ") = None.
Proof. reflexivity. Qed.

Example exactly_100_passes :
  completenessRule_check [] (repeat 97%N 100) = None.
Proof. reflexivity. Qed.





End Rules.

(** ** Files and channels *)

Module Io.

(** The content of a JSON file: what [JSON.parse] returns, or its failure. *)
Inductive JsonFile (A : Type) :=
| Unparseable
| Parsed (a : A).
Arguments Unparseable {A}.
Arguments Parsed {A} a.

(** [OutgoingMessage] (types/message.ts), without attachments. *)
Record OutgoingMessage := {
  text : jsstring;
  replyToMessageId : option jsstring;
}.


End Io.

Import Io.

(** ** LLM-layer data (llm/llm-provider.ts) *)

Module Llm.

Inductive Role := system | user | assistant | tool.

Record ChatMessage := {
  role : Role;
  content : jsstring;
  toolCallId : option jsstring;
}.

(** A tool definition; the JSON schema of its input is kept as text. *)
Record ToolDefinition := {
  td_name : jsstring;
  td_description : jsstring;
  td_inputSchema : jsstring;
}.

(** The [name] of a tool call as it reaches the tool loop: a string, or a
    value that is not one (a provider that reads the tool call off the text
    of an answer passes the field as it finds it, [undefined] when it is
    missing).  Calling [startsWith] on such a value throws a [TypeError];
    the second constructor carries its text. *)
Inductive ToolName :=
| Name (name : jsstring)
| NotAString (typeError : jsstring).

(** A tool call; of the [arguments] object the code reads the field
    [arguments] only (a string when present), the rest goes to the MCP
    server as it is ([tc_payload]). *)
Record ToolCall := {
  tc_id : jsstring;
  tc_name : ToolName;
  tc_arguments : option jsstring;
  tc_payload : jsstring;
}.

Record ChatCompletionResult := {
  cr_content : jsstring;
  cr_toolCalls : option (list ToolCall);
}.

End Llm.

Import Llm.

(** ** Segmented history store (history/file-history-store.ts) *)

Module History.

Record MessageMetadata := {
  md_senderId : option jsstring;
  md_platformMessageId : option jsstring;
  md_taskId : option jsstring;
}.

Record HistoryEntry := {
  seq : Z;
  ts : jsstring;
  e_role : Role;
  e_content : jsstring;
  e_toolCallId : option jsstring;
  e_senderId : option jsstring;
  e_platformMessageId : option jsstring;
  e_taskId : option jsstring;
}.

Record SegmentMeta := {
  file : jsstring;
  firstSeq : Z;
  lastSeq : Z;
  count : Z;
  sizeBytes : Z;
  startedAt : jsstring;
  endedAt : jsstring;
}.

Record SegmentIndex := {
  nextSeq : Z;
  segments : list SegmentMeta;
}.

(** A line of a segment file, as [readSegmentFile] sees it. *)
Inductive Line :=
| LineEntry (e : HistoryEntry)
| LineCorrupt
| LineBlank.

(** A conversation directory: [_index.json] (absent before the first write)
    and the segment files by name. *)
Record ConvDir := {
  indexFile : option (JsonFile SegmentIndex);
  segmentFiles : gmap jsstring (list Line);
}.

Definition emptyDir : ConvDir := {| indexFile := None; segmentFiles := ∅ |}.

(** The constructor's parameters. *)
Record Config := {
  maxMessages : Z;
  maxSegmentSizeBytes : Z;
  maxSegments : Z;
}.

Definition defaultConfig : Config :=
  {| maxMessages := 100; maxSegmentSizeBytes := 524288; maxSegments := 20 |}.

(** The two readings of the clock in [addMessage]: [new Date().toISOString()]
    and [formatTimestampFilename()], the same instant to the second with
    dashes for colons. *)
Record Clock := {
  now_iso : jsstring;
  now_stamp : jsstring;
}.

(** What [addMessage] did: it wrote the index after evicting these segments
    (recorded for the statements below; the source returns nothing), or it
    threw before the index was written. *)
Inductive Outcome :=
| Written (evicted : list SegmentMeta)
| Thrown.

Definition readIndex (d : ConvDir) : SegmentIndex :=
  match indexFile d with
  | Some (Parsed index) => index
  | Some Unparseable => {| nextSeq := 1; segments := [] |}
  | None => {| nextSeq := 1; segments := [] |}
  end.

Definition entryToChatMessage (entry : HistoryEntry) : ChatMessage :=
  {| role := e_role entry;
     content := e_content entry;
     toolCallId := if truthy_opt (e_toolCallId entry)
                   then e_toolCallId entry else None |}.

(** Corrupt and blank lines are skipped. *)
Definition readSegmentFile (lines : list Line) : list HistoryEntry :=
  omap (fun l => match l with LineEntry e => Some e | _ => None end) lines.

(** [a.slice(-max)]. *)
Definition slice_from_end {A} (max : Z) (a : list A) : list A :=
  let len := Z.of_nat (length a) in
  let from := if 0 <? max then Z.max (len - max) 0 else Z.min (- max) len in
  drop (Z.to_nat from) a.

(** The loop of [getMessages], over the segments newest first. *)
Fixpoint collect (max : Z) (newestFirst : list SegmentMeta)
    (files : gmap jsstring (list Line)) (collected : list HistoryEntry)
  : list HistoryEntry :=
  match newestFirst with
  | [] => collected
  | seg :: older =>
      if Z.of_nat (length collected) <? max then
        match files !! file seg with
        | None => collect max older files collected
        | Some lines =>
            collect max older files (readSegmentFile lines ++ collected)
        end
      else collected
  end.

Definition getMessages_dir (cfg : Config) (limit : option Z) (d : ConvDir)
  : list ChatMessage :=
  let index := readIndex d in
  match segments index with
  | [] => []
  | _ :: _ =>
      let max := default (maxMessages cfg) limit in
      let collected := collect max (rev (segments index)) (segmentFiles d) [] in
      map entryToChatMessage (slice_from_end max collected)
  end.

(** The pruning loop: while there are more than [maxSegments] segments, shift
    the oldest and unlink its file.  With a negative bound the loop shifts an
    empty array, and reading [file] of the [undefined] it gets throws: the
    first component is then [None].  The last component lists the segments
    dropped. *)
Fixpoint pruneOldest (maxSegs : Z) (segs : list SegmentMeta)
    (files : gmap jsstring (list Line))
  : option (list SegmentMeta) * gmap jsstring (list Line) * list SegmentMeta :=
  match segs with
  | [] => if maxSegs <? 0 then (None, files, []) else (Some [], files, [])
  | oldest :: rest =>
      if maxSegs <? Z.of_nat (length segs) then
        let '(kept, files', dropped) :=
          pruneOldest maxSegs rest (delete (file oldest) files) in
        (kept, files', oldest :: dropped)
      else (Some segs, files, [])
  end.

Section WithByteLength.

(** [Buffer.byteLength] of the serialised line of an entry. *)
Variable byteLength : HistoryEntry -> Z.

(** [appendJsonLine]: the file is created when missing. *)
Definition appendJsonLine (path : jsstring) (entry : HistoryEntry)
    (files : gmap jsstring (list Line)) : gmap jsstring (list Line) * Z :=
  (<[path := default [] (files !! path) ++ [LineEntry entry]]> files,
   byteLength entry).

Definition makeEntry (index : SegmentIndex) (clk : Clock)
    (message : ChatMessage) (metadata : option MessageMetadata) : HistoryEntry :=
  {| seq := nextSeq index;
     ts := now_iso clk;
     e_role := role message;
     e_content := content message;
     e_toolCallId := toolCallId message;
     e_senderId := metadata ≫= md_senderId;
     e_platformMessageId := metadata ≫= md_platformMessageId;
     e_taskId := metadata ≫= md_taskId |}.

Definition freshSegment (clk : Clock) (entry : HistoryEntry) : SegmentMeta :=
  {| file := now_stamp clk ++ lit ".jsonl";
     firstSeq := seq entry;
     lastSeq := seq entry;
     count := 0;
     sizeBytes := 0;
     startedAt := ts entry;
     endedAt := ts entry |}.

(** The segment the entry goes to, and the segments before it: the last
    segment of the index, or a fresh one pushed after it when there is none
    or the last one is full. *)
Definition currentSegment (cfg : Config) (clk : Clock) (index : SegmentIndex)
    (entry : HistoryEntry) : list SegmentMeta * SegmentMeta :=
  match last (segments index) with
  | Some currentSeg =>
      if maxSegmentSizeBytes cfg <=? sizeBytes currentSeg
      then (segments index, freshSegment clk entry)
      else (removelast (segments index), currentSeg)
  | None => (segments index, freshSegment clk entry)
  end.

Definition addMessage_dir (cfg : Config) (clk : Clock) (message : ChatMessage)
    (metadata : option MessageMetadata) (d : ConvDir) : ConvDir * Outcome :=
  let index := readIndex d in
  let entry := makeEntry index clk message metadata in
  let '(before, currentSeg) := currentSegment cfg clk index entry in
  let '(files1, bytesWritten) :=
    appendJsonLine (file currentSeg) entry (segmentFiles d) in
  let updated :=
    {| file := file currentSeg;
       firstSeq := firstSeq currentSeg;
       lastSeq := seq entry;
       count := count currentSeg + 1;
       sizeBytes := sizeBytes currentSeg + bytesWritten;
       startedAt := startedAt currentSeg;
       endedAt := ts entry |} in
  let next := nextSeq index + 1 in
  match pruneOldest (maxSegments cfg) (before ++ [updated]) files1 with
  | (Some kept, files2, dropped) =>
      ({| indexFile := Some (Parsed {| nextSeq := next; segments := kept |});
          segmentFiles := files2 |}, Written dropped)
  | (None, files2, _) =>
      ({| indexFile := indexFile d; segmentFiles := files2 |}, Thrown)
  end.

(** [clear]: unlink every segment file of the index, write an empty index. *)
Definition clear_dir (d : ConvDir) : ConvDir :=
  {| indexFile := Some (Parsed {| nextSeq := 1; segments := [] |});
     segmentFiles :=
       foldr (fun seg files => delete (file seg) files) (segmentFiles d)
         (segments (readIndex d)) |}.

(** *** The store: one directory per conversation *)

Definition dirOf (st : gmap (jsstring * jsstring) ConvDir)
    (channelId conversationId : jsstring) : ConvDir :=
  default emptyDir (st !! (channelId, conversationId)).

Definition addMessage (cfg : Config) (clk : Clock)
    (channelId conversationId : jsstring) (message : ChatMessage)
    (metadata : option MessageMetadata)
    (st : gmap (jsstring * jsstring) ConvDir)
  : gmap (jsstring * jsstring) ConvDir * Outcome :=
  let '(d, out) :=
    addMessage_dir cfg clk message metadata (dirOf st channelId conversationId) in
  (<[(channelId, conversationId) := d]> st, out).

Definition getMessages (cfg : Config) (channelId conversationId : jsstring)
    (limit : option Z) (st : gmap (jsstring * jsstring) ConvDir)
  : list ChatMessage :=
  match st !! (channelId, conversationId) with
  | None => []
  | Some d => getMessages_dir cfg limit d
  end.

Definition clear (channelId conversationId : jsstring)
    (st : gmap (jsstring * jsstring) ConvDir)
  : gmap (jsstring * jsstring) ConvDir :=
  match st !! (channelId, conversationId) with
  | None => st
  | Some d => <[(channelId, conversationId) := clear_dir d]> st
  end.

(** *** Sequences of [addMessage] calls *)

Record Call := {
  call_channelId : jsstring;
  call_conversationId : jsstring;
  call_clock : Clock;
  call_message : ChatMessage;
  call_metadata : option MessageMetadata;
}.

Definition doCall (cfg : Config) (c : Call)
    (st : gmap (jsstring * jsstring) ConvDir) :=
  addMessage cfg (call_clock c) (call_channelId c) (call_conversationId c)
    (call_message c) (call_metadata c) st.

Fixpoint runCalls (cfg : Config) (calls : list Call)
    (st : gmap (jsstring * jsstring) ConvDir)
  : gmap (jsstring * jsstring) ConvDir :=
  match calls with
  | [] => st
  | c :: rest => runCalls cfg rest (doCall cfg c st).1
  end.

(** The number of entries held by segments evicted from the index. *)
Definition entriesOf (segs : list SegmentMeta) : Z :=
  foldr (fun s acc => count s + acc) 0 segs.

Definition evictedBy (out : Outcome) : Z :=
  match out with Written dropped => entriesOf dropped | Thrown => 0 end.

(** The entries evicted from the index of one conversation in the course
    of a sequence of calls. *)
Fixpoint evictedEntries (cfg : Config) (channelId conversationId : jsstring)
    (calls : list Call) (st : gmap (jsstring * jsstring) ConvDir) : Z :=
  match calls with
  | [] => 0
  | c :: rest =>
      let '(st', out) := doCall cfg c st in
      (if bool_decide ((call_channelId c, call_conversationId c)
                       = (channelId, conversationId))
       then evictedBy out else 0)
      + evictedEntries cfg channelId conversationId rest st'
  end.

(** *** The index invariant

    [chained a segs n]: the segments cover the sequence numbers from [a] up
    to [n - 1] without gap or overlap, each with its own count. *)
Fixpoint chained (a : Z) (segs : list SegmentMeta) (n : Z) : Prop :=
  match segs with
  | [] => a = n
  | s :: rest =>
      firstSeq s = a /\ firstSeq s <= lastSeq s
      /\ count s = lastSeq s - firstSeq s + 1
      /\ chained (lastSeq s + 1) rest n
  end.





Lemma chained_entries (a n : Z) (segs : list SegmentMeta) :
  chained a segs n -> n = a + entriesOf segs /\ 0 <= entriesOf segs.
Proof.
  revert a. induction segs as [|u r IH]; intros a Hc; simpl in *.
  - lia.
  - destruct Hc as (Hf & Hle & Hcnt & Hr). destruct (IH _ Hr). lia.
Qed.











(** *** Reading back what was just written *)

(** The file the entry of a call is appended to. *)
Definition targetFile (cfg : Config) (clk : Clock) (message : ChatMessage)
    (metadata : option MessageMetadata) (d : ConvDir) : jsstring :=
  file (currentSegment cfg clk (readIndex d)
          (makeEntry (readIndex d) clk message metadata)).2.

(** What a reader gets back for a message: the role, the content, and the
    tool-call id unless it is missing or the empty string. *)
Definition readBack (message : ChatMessage) : ChatMessage :=
  {| role := role message;
     content := content message;
     toolCallId := if truthy_opt (toolCallId message)
                   then toolCallId message else None |}.

Lemma pruneOldest_keeps_last (m : Z) (segs : list SegmentMeta) (x : SegmentMeta)
    (files : gmap jsstring (list Line)) :
  1 <= m ->
  exists kept files' dropped,
    pruneOldest m (segs ++ [x]) files = (Some (kept ++ [x]), files', dropped)
    /\ (forall path, path ∉ map file dropped -> files' !! path = files !! path).
Proof.
  intros Hm. revert files. induction segs as [|u r IH]; intros files.
  - exists [], files, []. split; [| reflexivity].
    simpl. replace (m <? Z.of_nat 1) with false; [reflexivity |].
    symmetry. apply Z.ltb_ge. lia.
  - cbn [app pruneOldest].
    destruct (m <? Z.of_nat (length (u :: r ++ [x]))).
    + destruct (IH (delete (file u) files)) as (kept & files' & dropped & Hp & Hf).
      rewrite Hp. exists kept, files', (u :: dropped). split; [reflexivity |].
      intros path Hnot. cbn [map] in Hnot.
      apply not_elem_of_cons in Hnot as [Hne Hnot].
      rewrite (Hf path Hnot). apply lookup_delete_ne. congruence.
    + exists (u :: r), files, []. split; reflexivity.
Qed.

Lemma collect_full (max : Z) (segs : list SegmentMeta)
    (files : gmap jsstring (list Line)) (collected : list HistoryEntry) :
  max <= Z.of_nat (length collected) ->
  collect max segs files collected = collected.
Proof.
  intros H. destruct segs as [|seg older]; [reflexivity |].
  simpl. replace (Z.of_nat (length collected) <? max) with false; [reflexivity |].
  symmetry. apply Z.ltb_ge. exact H.
Qed.

Lemma readSegmentFile_snoc (lines : list Line) (e : HistoryEntry) :
  readSegmentFile (lines ++ [LineEntry e]) = readSegmentFile lines ++ [e].
Proof. unfold readSegmentFile. rewrite omap_app. reflexivity. Qed.

Lemma slice_last_one {A} (xs : list A) (x : A) :
  slice_from_end 1 (xs ++ [x]) = [x].
Proof.
  unfold slice_from_end. change (0 <? 1) with true. cbv iota.
  rewrite length_app. simpl length.
  replace (Z.to_nat (Z.max (Z.of_nat (length xs + 1) - 1) 0)) with (length xs)
    by lia.
  rewrite drop_app_length. reflexivity.
Qed.

Lemma addMessage_dir_readBack (cfg : Config) (clk : Clock)
    (message : ChatMessage) (metadata : option MessageMetadata) (d : ConvDir) :
  1 <= maxSegments cfg ->
  exists d' dropped,
    addMessage_dir cfg clk message metadata d = (d', Written dropped)
    /\ (targetFile cfg clk message metadata d ∉ map file dropped ->
        getMessages_dir cfg (Some 1) d' = [readBack message]).
Proof.
  intros Hm. unfold addMessage_dir, targetFile.
  destruct (currentSegment cfg clk (readIndex d)
              (makeEntry (readIndex d) clk message metadata))
    as [before currentSeg] eqn:Hcur.
  cbn [appendJsonLine snd].
  set (entry := makeEntry (readIndex d) clk message metadata).
  set (lines := default [] (segmentFiles d !! file currentSeg)).
  set (updated := {| file := file currentSeg; firstSeq := firstSeq currentSeg;
                     lastSeq := seq entry; count := count currentSeg + 1;
                     sizeBytes := sizeBytes currentSeg + byteLength entry;
                     startedAt := startedAt currentSeg; endedAt := ts entry |}).
  destruct (pruneOldest_keeps_last (maxSegments cfg) before updated
              (<[file currentSeg := lines ++ [LineEntry entry]]> (segmentFiles d))
              Hm)
    as (kept & files' & dropped & Hp & Hf).
  rewrite Hp. eexists _, dropped. split; [reflexivity |].
  intros Hnot. specialize (Hf _ Hnot). rewrite lookup_insert_eq in Hf.
  unfold getMessages_dir.
  change (default (maxMessages cfg) (Some 1)) with 1.
  cbn [readIndex indexFile segments segmentFiles].
  destruct (kept ++ [updated]) as [|s0 r0] eqn:Hk.
  { destruct kept; discriminate. }
  rewrite <- Hk. rewrite rev_app_distr. cbn [rev app collect length].
  change (Z.of_nat 0 <? 1) with true. cbv iota. cbn [file updated]. rewrite Hf.
  rewrite app_nil_r, readSegmentFile_snoc.
  rewrite collect_full by (rewrite length_app; simpl; lia).
  rewrite slice_last_one. reflexivity.
Qed.

(** The file names of the segments a call evicts. *)
Definition evictedFiles (cfg : Config) (clk : Clock) (message : ChatMessage)
    (metadata : option MessageMetadata) (d : ConvDir) : list jsstring :=
  match (addMessage_dir cfg clk message metadata d).2 with
  | Written dropped => map file dropped
  | Thrown => []
  end.

End WithByteLength.

Definition userMessage (text : string) : ChatMessage :=
  {| role := user; content := lit text; toolCallId := None |}.

(** A call on the conversation [c1] of the channel [web]. *)
Definition callAt (stamp : string) (message : ChatMessage) : Call :=
  {| call_channelId := lit "web"; call_conversationId := lit "c1";
     call_clock := {| now_iso := lit stamp; now_stamp := lit stamp |};
     call_message := message; call_metadata := None |}.


(** In that run one entry, the first, was evicted. *)
Example eviction_counts_one_entry :
  evictedEntries (fun _ => 64)
    {| maxMessages := 100; maxSegmentSizeBytes := 1; maxSegments := 1 |}
    (lit "web") (lit "c1")
    [ callAt "2026-01-01T00-00-01Z" (userMessage "hi");
      callAt "2026-01-01T00-00-02Z" (userMessage "there") ] ∅ = 1.
Proof. vm_compute. reflexivity. Qed.


(** Three ways not to read a message back: a store that keeps no segment;
    a roll-over within the second that named the evicted segment, whose
    file is then unlinked with the new entry in it; and a tool-call id that
    is the empty string. *)
Lemma addMessage_getMessages_lost :
  let one := callAt "2026-01-01T00-00-01Z" in
  let run := fun cfg calls =>
    getMessages cfg (lit "web") (lit "c1") (Some 1)
      (runCalls (fun _ => 64) cfg calls ∅) in
  run {| maxMessages := 100; maxSegmentSizeBytes := 524288; maxSegments := 0 |}
      [one (userMessage "hi")] = []
  /\ run {| maxMessages := 100; maxSegmentSizeBytes := 1; maxSegments := 1 |}
       [one (userMessage "hi"); one (userMessage "there")] = []
  /\ run defaultConfig
       [one {| role := tool; content := lit "5"; toolCallId := Some [] |}]
     = [ {| role := tool; content := lit "5"; toolCallId := None |} ].
Proof. vm_compute. repeat split. Qed.

(** C8 (amended): when the store keeps at least one segment and the call
    evicts no segment with the file name of the segment it writes to,
    [addMessage] followed by [getMessages] with limit 1 returns exactly one
    message, with the role and the content of the message added and with its
    tool-call id when that is a non-empty string. *)
Theorem addMessage_getMessages_one (byteLength : HistoryEntry -> Z)
    (cfg : Config) (clk : Clock) (channelId conversationId : jsstring)
    (message : ChatMessage) (metadata : option MessageMetadata)
    (st : gmap (jsstring * jsstring) ConvDir) :
  1 <= maxSegments cfg ->
  targetFile cfg clk message metadata
    (dirOf st channelId conversationId)
  ∉ evictedFiles byteLength cfg clk message metadata
      (dirOf st channelId conversationId) ->
  getMessages cfg channelId conversationId (Some 1)
    (addMessage byteLength cfg clk channelId conversationId message metadata st).1
  = [readBack message].
Proof.
  intros Hm Hfile. unfold addMessage, evictedFiles in *.
  destruct (addMessage_dir_readBack byteLength cfg clk message metadata
              (dirOf st channelId conversationId) Hm)
    as (d' & dropped & Hadd & Hread).
  rewrite Hadd in *. cbn [fst snd] in *.
  unfold getMessages. rewrite lookup_insert_eq. exact (Hread Hfile).
Qed.

(** The theorem at the first message of a conversation, default
    configuration. *)
Lemma addMessage_getMessages_one_witness :
  let clk := {| now_iso := lit "2026-01-01T00:00:01.000Z";
                now_stamp := lit "2026-01-01T00-00-01Z" |} in
  1 <= maxSegments defaultConfig
  /\ (targetFile defaultConfig clk (userMessage "hi") None
        (dirOf ∅ (lit "web") (lit "c1"))
      ∉ evictedFiles (fun _ => 64) defaultConfig clk (userMessage "hi") None
          (dirOf ∅ (lit "web") (lit "c1")))
  /\ getMessages defaultConfig (lit "web") (lit "c1") (Some 1)
       (addMessage (fun _ => 64) defaultConfig clk (lit "web") (lit "c1")
          (userMessage "hi") None ∅).1
     = [readBack (userMessage "hi")].
Proof.
  cbv zeta.
  assert (H1 : 1 <= maxSegments defaultConfig) by (simpl; lia).
  assert (H2 : targetFile defaultConfig
                 {| now_iso := lit "2026-01-01T00:00:01.000Z";
                    now_stamp := lit "2026-01-01T00-00-01Z" |}
                 (userMessage "hi") None (dirOf ∅ (lit "web") (lit "c1"))
               ∉ evictedFiles (fun _ => 64) defaultConfig
                   {| now_iso := lit "2026-01-01T00:00:01.000Z";
                      now_stamp := lit "2026-01-01T00-00-01Z" |}
                   (userMessage "hi") None (dirOf ∅ (lit "web") (lit "c1"))).
  { vm_compute. apply not_elem_of_nil. }
  split; [exact H1 | split; [exact H2 |]].
  exact (addMessage_getMessages_one (fun _ => 64) defaultConfig _
           (lit "web") (lit "c1") (userMessage "hi") None ∅ H1 H2).
Defined.

End History.

(** ** Task store and startup recovery (storage/task-persistence.ts,
    storage/task-recovery.ts) *)

Module Tasks.

Inductive TaskPhase :=
| received | history_written | llm_calling | verifying | responding
| completed | failed.

Record OriginalMessage := {
  om_text : jsstring;
  om_senderId : jsstring;
  om_senderName : option jsstring;
  om_platformMessageId : option jsstring;
  om_timestamp : Z;
}.

Record PersistedTask := {
  id : jsstring;
  channelId : jsstring;
  conversationId : jsstring;
  originalMessage : OriginalMessage;
  phase : TaskPhase;
  startedAt : jsstring;
  updatedAt : jsstring;
  error : option jsstring;
  pendingResponse : option jsstring;
}.

(** The two subtrees of the task directory: [active/<file>] and
    [completed/<YYYY-MM-DD>/<file>]. *)
Record TaskStore := {
  active : gmap jsstring (JsonFile PersistedTask);
  completedDir : gmap (jsstring * jsstring) (JsonFile PersistedTask);
}.

(** The data of a [task_failed] journal entry written by recovery. *)
Record RecoveryJournalEntry := {
  j_taskId : jsstring;
  j_channelId : jsstring;
  j_conversationId : jsstring;
  j_phase : TaskPhase;
  j_action : jsstring;
}.

(** How the services are set up: whether persistence is enabled, whether a
    journal is passed to the recovery service, and the channels registered
    with the channel manager. *)
Record Setup := {
  enabled : bool;
  withJournal : bool;
  registered : gset jsstring;
}.

Definition fileOf (taskId : jsstring) : jsstring := taskId ++ lit ".json".

Definition resendText : jsstring :=
  lit "Your message was interrupted during processing. Please resend it.".

(** The disclaimer put before an unverified response; the dash is U+2014. *)
Definition unverifiedPrefix : jsstring :=
  lit "[Recovered after interruption " ++ [8212%N]
  ++ lit " response may not have been fully verified]" ++ [10%N; 10%N].

Section WithWorld.

(** The channels: an oracle over its own state; [Some err] is a send that
    throws, [err] being the text of the error. *)
Variable Net : Type.
Variable sendMessage :
  Net -> jsstring -> jsstring -> OutgoingMessage -> Net * option jsstring.

(** The clock: the text of [new Date().toISOString()] at each reading. *)
Variable isoAt : nat -> jsstring.

Variable setup : Setup.

Record World := {
  store : TaskStore;
  net : Net;
  tick : nat;
  journalLog : list RecoveryJournalEntry;
}.

Definition readClock (w : World) : jsstring * World :=
  (isoAt (tick w),
   {| store := store w; net := net w; tick := S (tick w);
      journalLog := journalLog w |}).

Definition withStore (w : World) (s : TaskStore) : World :=
  {| store := s; net := net w; tick := tick w; journalLog := journalLog w |}.

(** [TaskPersistence.complete]. *)
Definition complete (taskId : jsstring) (w : World) : World :=
  if negb (enabled setup) then w
  else
    match active (store w) !! fileOf taskId with
    | None => w
    | Some Unparseable => w
    | Some (Parsed task) =>
        let '(updated, w1) := readClock w in
        let '(today, w2) := readClock w1 in
        let task' :=
          {| id := id task; channelId := channelId task;
             conversationId := conversationId task;
             originalMessage := originalMessage task; phase := phase task;
             startedAt := startedAt task; updatedAt := updated;
             error := error task; pendingResponse := pendingResponse task |} in
        withStore w2
          {| active := delete (fileOf taskId) (active (store w2));
             completedDir :=
               <[(take 10 today, fileOf taskId) := Parsed task']>
                 (completedDir (store w2)) |}
    end.

(** [TaskPersistence.fail]. *)
Definition fail (taskId : jsstring) (err : jsstring) (w : World) : World :=
  if negb (enabled setup) then w
  else
    match active (store w) !! fileOf taskId with
    | None => w
    | Some Unparseable => w
    | Some (Parsed task) =>
        let '(updated, w1) := readClock w in
        let task' :=
          {| id := id task; channelId := channelId task;
             conversationId := conversationId task;
             originalMessage := originalMessage task; phase := failed;
             startedAt := startedAt task; updatedAt := updated;
             error := Some err; pendingResponse := pendingResponse task |} in
        complete taskId
          (withStore w1
             {| active := <[fileOf taskId := Parsed task']> (active (store w1));
                completedDir := completedDir (store w1) |})
    end.

(** [TaskPersistence.listActive]: the parseable [.json] files of [active/],
    in directory order. *)
Definition listActive (w : World) : list PersistedTask :=
  if negb (enabled setup) then []
  else
    omap (fun entry : jsstring * JsonFile PersistedTask =>
            if endsWith (lit ".json") entry.1
            then match entry.2 with Parsed task => Some task | Unparseable => None end
            else None)
         (map_to_list (active (store w))).

(** [channel.sendMessage] inside the [try] of [recoverTask]: the error text
    when it throws. *)
Definition trySend (task : PersistedTask) (body : jsstring) (w : World)
  : World * option jsstring :=
  let '(n, r) :=
    sendMessage (net w) (channelId task) (conversationId task)
      {| text := body;
         replyToMessageId := om_platformMessageId (originalMessage task) |} in
  ({| store := store w; net := n; tick := tick w; journalLog := journalLog w |},
   r).

Definition journal (task : PersistedTask) (action : string) (w : World) : World :=
  if withJournal setup then
    {| store := store w; net := net w; tick := tick w;
       journalLog :=
         journalLog w ++
           [ {| j_taskId := id task; j_channelId := channelId task;
                j_conversationId := conversationId task;
                j_phase := phase task; j_action := lit action |} ] |}
  else w.

(** The body of the [try] in [recoverTask] up to, not including, the call of
    [complete]: the world after it, and the error when a send threw. *)
Definition notify (task : PersistedTask) (w : World) : World * option jsstring :=
  let channel := bool_decide (channelId task ∈ registered setup) in
  let pending := truthy_opt (pendingResponse task) in
  let response := default [] (pendingResponse task) in
  match phase task with
  | received | history_written | llm_calling =>
      let '(w1, r) := if channel then trySend task resendText w else (w, None) in
      match r with
      | Some err => (w1, Some err)
      | None => (journal task "notify_resend" w1, None)
      end
  | verifying =>
      let '(w1, r) :=
        if pending && channel
        then trySend task (unverifiedPrefix ++ response) w
        else if channel then trySend task resendText w
        else (w, None) in
      match r with
      | Some err => (w1, Some err)
      | None =>
          (journal task (if pending then "sent_unverified" else "notify_resend") w1,
           None)
      end
  | responding =>
      let '(w1, r) :=
        if pending && channel then trySend task response w else (w, None) in
      match r with
      | Some err => (w1, Some err)
      | None =>
          (journal task (if pending then "resent_response" else "no_response") w1,
           None)
      end
  | completed | failed => (w, None)
  end.

Definition recoverTask (task : PersistedTask) (w : World) : World :=
  match notify task w with
  | (w1, None) => complete (id task) w1
  | (w1, Some err) => fail (id task) (lit "Recovery failed: " ++ err) w1
  end.

Definition recover (w : World) : World :=
  let orphanedTasks := listActive w in
  match orphanedTasks with
  | [] => w
  | _ :: _ => foldl (fun w task => recoverTask task w) w orphanedTasks
  end.

(** *** Recovery empties [active/] *)

(** Every file of [active/] is a task file as the store writes them: it
    parses, and it is named after the task's id. *)
Definition TaskFiles (s : TaskStore) : Prop :=
  forall name c, active s !! name = Some c ->
    exists task, c = Parsed task /\ name = fileOf (id task).

Lemma startsWith_app (p r : jsstring) : startsWith p (p ++ r) = true.
Proof.
  induction p as [|c p IH]; [reflexivity |].
  simpl. rewrite N.eqb_refl. exact IH.
Qed.

Lemma endsWith_fileOf (taskId : jsstring) :
  endsWith (lit ".json") (fileOf taskId) = true.
Proof.
  unfold endsWith, fileOf. rewrite rev_app_distr. apply startsWith_app.
Qed.

Lemma notify_store (task : PersistedTask) (w : World) :
  store (notify task w).1 = store w.
Proof.
  unfold notify, trySend, journal.
  repeat match goal with
  | |- context [sendMessage ?a ?b ?c ?d] => destruct (sendMessage a b c d) as [? []]
  | |- context [if ?b then _ else _] => destruct b
  | |- context [match phase ?t with _ => _ end] => destruct (phase t)
  end; reflexivity.
Qed.

(** One task file moved: gone from [active/], present under [completed/]
    for some date, with the id it had. *)
Definition Moved (taskId : jsstring) (s s' : TaskStore) : Prop :=
  active s' = delete (fileOf taskId) (active s)
  /\ exists date task',
       id task' = taskId
       /\ completedDir s' =
            <[(date, fileOf taskId) := Parsed task']> (completedDir s).

Lemma complete_moves (task : PersistedTask) (w : World) :
  enabled setup = true ->
  active (store w) !! fileOf (id task) = Some (Parsed task) ->
  Moved (id task) (store w) (store (complete (id task) w)).
Proof.
  intros Hen Hfile. unfold complete. rewrite Hen, Hfile. simpl.
  split; [reflexivity |]. eexists _, _. split; [| reflexivity]. reflexivity.
Qed.

Lemma fail_moves (task : PersistedTask) (err : jsstring) (w : World) :
  enabled setup = true ->
  active (store w) !! fileOf (id task) = Some (Parsed task) ->
  Moved (id task) (store w) (store (fail (id task) err w)).
Proof.
  intros Hen Hfile. unfold fail, complete. rewrite Hen, Hfile. simpl.
  rewrite lookup_insert_eq. simpl.
  split; [apply delete_insert_eq |].
  eexists _, _. split; [| reflexivity]. reflexivity.
Qed.

Lemma recoverTask_moves (task : PersistedTask) (w : World) :
  enabled setup = true ->
  active (store w) !! fileOf (id task) = Some (Parsed task) ->
  Moved (id task) (store w) (store (recoverTask task w)).
Proof.
  intros Hen Hfile. unfold recoverTask.
  pose proof (notify_store task w) as Hst.
  destruct (notify task w) as [w1 [err|]]; simpl in Hst; rewrite <- Hst in *.
  - apply fail_moves; assumption.
  - apply complete_moves; assumption.
Qed.

(** The loop of [recover] over tasks whose files are distinct and in place. *)
Lemma recoverAll_moves (tasks : list PersistedTask) (w : World) :
  enabled setup = true ->
  NoDup (map (fun t => fileOf (id t)) tasks) ->
  (forall t, t ∈ tasks -> active (store w) !! fileOf (id t) = Some (Parsed t)) ->
  let w' := foldl (fun w task => recoverTask task w) w tasks in
  (forall name,
     active (store w') !! name =
       if bool_decide (name ∈ map (fun t => fileOf (id t)) tasks)
       then None else active (store w) !! name)
  /\ (forall t, t ∈ tasks -> exists date task',
        completedDir (store w') !! (date, fileOf (id t)) = Some (Parsed task')
        /\ id task' = id t)
  /\ (forall k, k.2 ∉ map (fun t => fileOf (id t)) tasks ->
        completedDir (store w') !! k = completedDir (store w) !! k)
  /\ ((forall date t, t ∈ tasks ->
         completedDir (store w) !! (date, fileOf (id t)) = None) ->
      size (completedDir (store w'))
      = (size (completedDir (store w)) + length tasks)%nat).
Proof.
  intros Hen. revert w.
  induction tasks as [|t rest IH]; intros w Hnd Hfiles w'.
  - subst w'. simpl.
    split; [done | split; [intros t Ht; inversion Ht | split; [done | intros _; lia]]].
  - subst w'. cbn [foldl].
    apply NoDup_cons in Hnd as [Hnotin Hnd].
    destruct (recoverTask_moves t w Hen (Hfiles t (list_elem_of_here _ _)))
      as (Hact & date & task' & Hid & Hcomp).
    set (w1 := recoverTask t w) in *.
    assert (Hfiles1 : forall u, u ∈ rest ->
              active (store w1) !! fileOf (id u) = Some (Parsed u)).
    { intros u Hu. rewrite Hact, lookup_delete_ne.
      - apply Hfiles. apply list_elem_of_further. exact Hu.
      - intros Heq. apply Hnotin. rewrite Heq.
        apply list_elem_of_fmap. exists u. split; [reflexivity | exact Hu]. }
    destruct (IH w1 Hnd Hfiles1) as (IHa & IHc & IHk & IHs).
    split; [| split; [| split]].
    + intros name. rewrite IHa. cbn [map].
      destruct (decide (name = fileOf (id t))) as [-> | Hne].
      * rewrite (bool_decide_eq_true_2 (_ ∈ _ :: _)) by apply list_elem_of_here.
        case_bool_decide; [reflexivity |].
        rewrite Hact. apply lookup_delete_eq.
      * rewrite Hact, lookup_delete_ne by congruence.
        case_bool_decide as H1; case_bool_decide as H2; try reflexivity.
        -- elim H2. apply list_elem_of_further. exact H1.
        -- apply elem_of_cons in H2 as [H2 | H2]; contradiction.
    + intros u Hu. apply elem_of_cons in Hu as [-> | Hu].
      * exists date, task'. split; [| exact Hid].
        rewrite IHk by exact Hnotin. rewrite Hcomp. apply lookup_insert_eq.
      * apply IHc. exact Hu.
    + intros k Hk. cbn [map] in Hk. apply not_elem_of_cons in Hk as [Hk1 Hk2].
      rewrite IHk by exact Hk2. rewrite Hcomp.
      apply lookup_insert_ne. intros Heq. apply Hk1. rewrite <- Heq. reflexivity.
    + intros Hfresh. rewrite IHs.
      * rewrite Hcomp, map_size_insert_None.
        -- simpl. lia.
        -- apply Hfresh. apply list_elem_of_here.
      * intros d u Hu. rewrite Hcomp, lookup_insert_ne.
        -- apply Hfresh. apply list_elem_of_further. exact Hu.
        -- intros [= _ Heq]. apply Hnotin. rewrite Heq.
           apply list_elem_of_fmap. exists u. split; [reflexivity | exact Hu].
Qed.

(** With task files only, [listActive] reads the whole directory. *)
Lemma listActive_all (w : World) :
  enabled setup = true ->
  TaskFiles (store w) ->
  map (fun t => (fileOf (id t), Parsed t)) (listActive w)
  = map_to_list (active (store w)).
Proof.
  intros Hen Htf. unfold listActive. rewrite Hen. simpl.
  assert (Hall : Forall (fun e : jsstring * JsonFile PersistedTask =>
                   exists task, e.2 = Parsed task /\ e.1 = fileOf (id task))
                 (map_to_list (active (store w)))).
  { apply Forall_forall. intros [name c] Hin.
    apply elem_of_map_to_list in Hin. exact (Htf name c Hin). }
  induction Hall as [|[name c] l (task & Hc & Hn) _ IH]; [reflexivity |].
  simpl in Hc, Hn. subst c name. cbn [omap list_omap fst snd].
  rewrite endsWith_fileOf. cbn [map]. f_equal. exact IH.
Qed.

End WithWorld.

(** C4: with persistence enabled and [n] task files under [active/], after
    recovery [active/] is empty and every task has its file under
    [completed/] (exactly [n] files when [completed/] was empty), whatever
    the sends do. *)
Theorem recover_moves_every_task (Net : Type)
    (sendMessage :
       Net -> jsstring -> jsstring -> OutgoingMessage -> Net * option jsstring)
    (isoAt : nat -> jsstring) (setup : Setup) (w : World Net) :
  enabled setup = true ->
  TaskFiles (store Net w) ->
  let w' := recover Net sendMessage isoAt setup w in
  active (store Net w') = ∅
  /\ (forall name task, active (store Net w) !! name = Some (Parsed task) ->
        exists date task',
          completedDir (store Net w') !! (date, name) = Some (Parsed task')
          /\ id task' = id task)
  /\ (completedDir (store Net w) = ∅ ->
      size (completedDir (store Net w')) = size (active (store Net w))).
Proof.
  intros Hen Htf w'.
  pose proof (listActive_all Net setup w Hen Htf) as Hlist.
  set (tasks := listActive Net setup w) in *.
  assert (Hw' : w' = foldl (fun w task =>
                  recoverTask Net sendMessage isoAt setup task w) w tasks).
  { subst w'. unfold recover. fold tasks. destruct tasks; reflexivity. }
  assert (Hnames : map (fun t => fileOf (id t)) tasks
                   = (map_to_list (active (store Net w))).*1).
  { rewrite <- Hlist. rewrite <- list_fmap_compose. reflexivity. }
  assert (Hnd : NoDup (map (fun t => fileOf (id t)) tasks)).
  { rewrite Hnames. apply NoDup_fst_map_to_list. }
  assert (Hin : forall t, t ∈ tasks ->
            active (store Net w) !! fileOf (id t) = Some (Parsed t)).
  { intros t Ht. apply elem_of_map_to_list. rewrite <- Hlist.
    apply list_elem_of_fmap. exists t. split; [reflexivity | exact Ht]. }
  assert (Hcover : forall name task,
            active (store Net w) !! name = Some (Parsed task) ->
            task ∈ tasks /\ name = fileOf (id task)).
  { intros name task Hl. apply elem_of_map_to_list in Hl.
    rewrite <- Hlist in Hl. apply list_elem_of_fmap in Hl as (t & Heq & Ht).
    injection Heq as -> <-. split; [exact Ht | reflexivity]. }
  destruct (recoverAll_moves Net sendMessage isoAt setup tasks w Hen Hnd Hin)
    as (Ha & Hc & _ & Hs).
  rewrite <- Hw' in Ha, Hc, Hs.
  split; [| split].
  - apply map_empty. intros name. rewrite Ha.
    case_bool_decide as Hn; [reflexivity |].
    destruct (active (store Net w) !! name) as [c|] eqn:Hl; [| reflexivity].
    destruct (Htf name c Hl) as (task & -> & ->).
    elim Hn. apply list_elem_of_fmap. exists task.
    split; [reflexivity | apply (Hcover _ _ Hl)].
  - intros name task Hl. destruct (Hcover name task Hl) as [Ht ->].
    apply Hc. exact Ht.
  - intros Hempty. rewrite Hs.
    + rewrite Hempty, map_size_empty. simpl.
      rewrite <- length_map_to_list, <- Hlist, length_map. reflexivity.
    + intros date t _. rewrite Hempty. apply lookup_empty.
Qed.

(** *** A run of recovery with every send failing *)

Definition sampleTask (taskId : string) (ph : TaskPhase)
    (pending : option jsstring) : PersistedTask :=
  {| id := lit taskId; channelId := lit "web"; conversationId := lit "c1";
     originalMessage :=
       {| om_text := lit "hi"; om_senderId := lit "web-user";
          om_senderName := None; om_platformMessageId := None;
          om_timestamp := 0 |};
     phase := ph;
     startedAt := lit "2026-01-01T00:00:00.000Z";
     updatedAt := lit "2026-01-01T00:00:00.000Z";
     error := None; pendingResponse := pending |}.

Definition sampleSetup : Setup :=
  {| enabled := true; withJournal := true; registered := {[ lit "web" ]} |}.

(** Two orphaned tasks, nothing completed yet. *)
Definition sampleWorld : World unit :=
  {| store :=
       {| active :=
            <[fileOf (lit "t1") := Parsed (sampleTask "t1" verifying (Some (lit "X")))]>
              (<[fileOf (lit "t2") := Parsed (sampleTask "t2" received None)]> ∅);
          completedDir := ∅ |};
     net := tt; tick := O; journalLog := [] |}.

Definition offline (n : unit) (_ _ : jsstring) (_ : OutgoingMessage)
  : unit * option jsstring := (n, Some (lit "Error: offline")).

Definition sampleClock (_ : nat) : jsstring := lit "2026-01-02T08:00:00.000Z".

Lemma sampleWorld_TaskFiles : TaskFiles (store unit sampleWorld).
Proof.
  intros name c. simpl. intros H.
  apply lookup_insert_Some in H as [[<- <-] | [_ H]].
  - eexists. split; reflexivity.
  - apply lookup_insert_Some in H as [[<- <-] | [_ H]].
    + eexists. split; reflexivity.
    + rewrite lookup_empty in H. discriminate.
Qed.

(** The theorem at two orphaned tasks whose notifications all throw. *)
Lemma recover_moves_every_task_witness :
  enabled sampleSetup = true
  /\ TaskFiles (store unit sampleWorld)
  /\ active (store unit
               (recover unit offline sampleClock sampleSetup sampleWorld)) = ∅
  /\ size (completedDir (store unit
               (recover unit offline sampleClock sampleSetup sampleWorld)))
     = size (active (store unit sampleWorld)).
Proof.
  split; [reflexivity |]. split; [exact sampleWorld_TaskFiles |].
  pose proof (recover_moves_every_task unit offline sampleClock sampleSetup
                sampleWorld eq_refl sampleWorld_TaskFiles) as H.
  cbv zeta in H. destruct H as (H1 & _ & H3).
  split; [exact H1 | exact (H3 eq_refl)].
Defined.

(** A file of [active/] that does not parse is skipped by [listActive] and
    stays where it is. *)
Lemma unparseable_file_stays :
  let w := {| store := {| active := {[ lit "t9.json" := Unparseable ]};
                          completedDir := ∅ |};
              net := tt; tick := O; journalLog := [] |} in
  store unit (recover unit offline sampleClock sampleSetup w) = store unit w.
Proof. reflexivity. Qed.

End Tasks.

(** ** Recovery notifier (health/recovery-notifier.ts) *)

Module Recovery.

(** A recovery event as the notifier reads its fields: the timestamp when it
    is a number, and the texts [String(event.reason)] and
    [String(event.restartCount)]. *)
Record RecoveryEvent := {
  timestamp : option Z;
  reason : jsstring;
  restartCount : jsstring;
}.

(** The content of the recovery-event file: reading or parsing fails, the
    text is the JSON [null], or it parses to a value with fields to read. *)
Inductive EventFile :=
| Malformed
| JsonNull
| JsonValue (event : RecoveryEvent).

Inductive Outcome := Returned | Threw.

Section WithWorld.

Variable Net : Type.
Variable sendMessage :
  Net -> jsstring -> jsstring -> OutgoingMessage -> Net * option jsstring.

(** [String(n)] for an integer. *)
Variable numberToString : Z -> jsstring.

(** The constructor's arguments: the channels of the channel manager and
    the notify targets; and the clock at the call: [Date.now()] and
    [new Date().toISOString()]. *)
Variable registered : gset jsstring.
Variable notifyTargets : list jsstring.
Variable nowMs : Z.
Variable nowIso : jsstring.

Record World := {
  eventFile : option EventFile;
  net : Net;
}.

(** [cleanup]: unlink the file; a failure of the unlink is swallowed. *)
Definition cleanup (w : World) : World :=
  {| eventFile := None; net := net w |}.

Definition bullet : jsstring := [8226%N; 32%N].

(** [Math.round((Date.now() - event.timestamp) / 1000)] as text. *)
Definition downtimeText (event : RecoveryEvent) : jsstring :=
  match timestamp event with
  | Some t => numberToString ((nowMs - t + 500) / 1000)
  | None => lit "NaN"
  end.

Definition noticeText (event : RecoveryEvent) : jsstring :=
  lit "**Bot Recovered**" ++ [10%N]
  ++ lit "The bot was automatically restarted by the watchdog." ++ [10%N]
  ++ bullet ++ lit "Reason: " ++ reason event ++ [10%N]
  ++ bullet ++ lit "Restart #" ++ restartCount event
  ++ lit " in current window" ++ [10%N]
  ++ bullet ++ lit "Downtime: ~" ++ downtimeText event ++ lit "s" ++ [10%N]
  ++ bullet ++ lit "Recovered at: " ++ nowIso.

(** The body of the loop over the targets. *)
Definition notifyTarget (message : jsstring) (w : World) (target : jsstring)
  : World :=
  match indexOf 58%N target with
  | None => w
  | Some sepIdx =>
      let channelId := take sepIdx target in
      let conversationId := drop (S sepIdx) target in
      if bool_decide (channelId ∈ registered) then
        let '(n, _) :=
          sendMessage (net w) channelId conversationId
            {| text := message; replyToMessageId := None |} in
        {| eventFile := eventFile w; net := n |}
      else w
  end.

Definition checkAndNotify (w : World) : World * Outcome :=
  if (length notifyTargets =? 0)%nat then (w, Returned)
  else
    match eventFile w with
    | None => (w, Returned)
    | Some Malformed => (cleanup w, Returned)
    | Some JsonNull => (w, Threw)
    | Some (JsonValue event) =>
        (cleanup (foldl (notifyTarget (noticeText event)) w notifyTargets),
         Returned)
    end.

Lemma notifyTarget_keeps_file (message : jsstring) (w : World)
    (target : jsstring) :
  eventFile (notifyTarget message w target) = eventFile w.
Proof.
  unfold notifyTarget. destruct (indexOf 58%N target); [| reflexivity].
  case_bool_decide; [| reflexivity].
  destruct (sendMessage _ _ _ _). reflexivity.
Qed.

End WithWorld.


(** An event file holding the JSON [null]: reading [timestamp] of it throws
    outside the notifier's [try], and the file stays. *)
Lemma null_event_file_throws :
  let w := {| eventFile := Some JsonNull; net := tt |} in
  checkAndNotify unit (fun n _ _ _ => (n, None)) (fun _ => lit "1")
    {[ lit "web" ]} [lit "web:c1"] 2000 (lit "2026-01-01T00:00:02.000Z") w
  = (w, Threw).
Proof. reflexivity. Qed.



End Recovery.

(** ** Skills and the agent service (skills/skill-registry.ts,
    skills/skill-handler.ts, agent/agent-service.ts) *)

Module Agent.

(** [NormalizedMessage] (types/message.ts), without attachments. *)
Record NormalizedMessage := {
  msg_id : jsstring;
  msg_channelId : jsstring;
  msg_conversationId : jsstring;
  msg_senderId : jsstring;
  msg_senderName : option jsstring;
  msg_text : jsstring;
  msg_timestamp : Z;
  msg_platformMessageId : option jsstring;
}.

(** The second argument of [llmService.chat]: absent in the final call of
    the tool loop; inside the loop an object whose [tools] is the catalogue,
    or [undefined] when the catalogue is empty. *)
Record ChatOptions := {
  opt_tools : option (list ToolDefinition);
}.

(** The pipeline a task is submitted with: the closure of a content-based
    skill, holding its instructions, or [runPipeline]. *)
Inductive Runner :=
| SkillRunner (instructions : jsstring)
| PipelineRunner.

(** What the service does to its collaborators, with what they answered
    ([inl] is the text of the error thrown). *)
Inductive Event :=
| EChat (messages : list ChatMessage) (options : option ChatOptions)
    (answer : jsstring + ChatCompletionResult)
| EComplete (systemPrompt userPrompt : jsstring) (answer : jsstring + jsstring)
| EInvokeTool (name payload : jsstring) (answer : jsstring + jsstring)
| ESend (channelId conversationId : jsstring) (message : OutgoingMessage)
    (failure : option jsstring)
| ESubmit (message : NormalizedMessage) (runner : Runner).

Inductive SkillSource := builtin | skillmd.

Record SkillContext := {
  ctx_message : NormalizedMessage;
  ctx_args : jsstring;
  ctx_channelId : jsstring;
  ctx_conversationId : jsstring;
}.

Record SkillResult := {
  res_text : jsstring;
  res_handled : bool;
}.

Record SkillDispatchResult := {
  handled : bool;
  result : option SkillResult;
  skillName : option jsstring;
  args : option jsstring;
  dispatched_instructions : option jsstring;
}.

Definition notHandled : SkillDispatchResult :=
  {| handled := false; result := None; skillName := None; args := None;
     dispatched_instructions := None |}.

Definition ARGUMENTS : jsstring := lit "$ARGUMENTS".

(** The placeholder of the slash path for an empty argument text. *)
Definition noArgumentsProvided : jsstring := lit "(no arguments provided)".

(** *** Replacing the marker by the placeholder leaves no marker *)

(** The pattern occurs in the text at some position. *)
Definition occursIn (pat s : jsstring) : Prop :=
  exists i, startsWith pat (drop i s) = true.

Definition markerTail : jsstring := lit "ARGUMENTS".

Lemma ARGUMENTS_unfold : ARGUMENTS = dollar :: markerTail.
Proof. reflexivity. Qed.

Lemma placeholder_unfold :
  noArgumentsProvided = 40%N :: lit "no arguments provided)".
Proof. reflexivity. Qed.

Lemma placeholder_substitution (matched before after : jsstring) :
  getSubstitution matched before after noArgumentsProvided = noArgumentsProvided.
Proof. reflexivity. Qed.

(** A word without opening parenthesis that heads the output heads the
    input. *)
Lemma replaced_head (u : jsstring) :
  Forall (fun c => c <> 40%N) u ->
  forall fuel before_rev s,
    (length s < fuel)%nat ->
    startsWith u (replaceAll_from fuel ARGUMENTS noArgumentsProvided before_rev s)
    = true ->
    startsWith u s = true.
Proof.
  induction 1 as [|t u Ht _ IH]; intros fuel before_rev s Hlen Hpre;
    [reflexivity |].
  destruct fuel as [|fuel]; [lia |].
  destruct s as [|c r]; [discriminate Hpre |].
  cbn [replaceAll_from] in Hpre.
  destruct (startsWith ARGUMENTS (c :: r)).
  - rewrite placeholder_substitution, placeholder_unfold in Hpre.
    cbn [app startsWith] in Hpre.
    apply andb_prop in Hpre as [Hpre _]. apply N.eqb_eq in Hpre.
    elim Ht. exact Hpre.
  - cbn [startsWith] in Hpre |- *.
    apply andb_prop in Hpre as [H1 H2]. rewrite H1. cbn [andb].
    apply (IH fuel (c :: before_rev) r); [simpl in Hlen; lia | exact H2].
Qed.

Lemma no_marker_across (rep out : jsstring) :
  Forall (fun c => c <> dollar) rep ->
  (forall i, startsWith ARGUMENTS (drop i out) = false) ->
  forall i, startsWith ARGUMENTS (drop i (rep ++ out)) = false.
Proof.
  intros Hrep Hout. induction Hrep as [|a rep Ha _ IH]; intros i;
    [exact (Hout i) |].
  destruct i as [|i]; [| exact (IH i)].
  rewrite ARGUMENTS_unfold. cbn [drop app startsWith].
  apply andb_false_intro1. apply N.eqb_neq.
  intros Heq. apply Ha. symmetry. exact Heq.
Qed.

Lemma replaced_has_no_marker (fuel : nat) (before_rev s : jsstring) (i : nat) :
  (length s < fuel)%nat ->
  startsWith ARGUMENTS
    (drop i (replaceAll_from fuel ARGUMENTS noArgumentsProvided before_rev s))
  = false.
Proof.
  revert before_rev s i.
  induction fuel as [|fuel IH]; intros before_rev s i Hlen; [lia |].
  destruct s as [|c r]; [destruct i; reflexivity |].
  cbn [replaceAll_from].
  destruct (startsWith ARGUMENTS (c :: r)) eqn:Hhere.
  - rewrite placeholder_substitution.
    apply no_marker_across.
    + unfold noArgumentsProvided, dollar.
      repeat (constructor; [discriminate |]). constructor.
    + intros j. apply IH. rewrite length_drop. simpl in *. lia.
  - destruct i as [|i]; [| apply IH; simpl in Hlen; lia].
    rewrite ARGUMENTS_unfold in Hhere |- *. cbn [drop startsWith] in Hhere |- *.
    destruct (dollar =? c)%N eqn:Hc; [| reflexivity].
    cbn [andb] in Hhere |- *.
    destruct (startsWith markerTail
                (replaceAll_from fuel (dollar :: markerTail) noArgumentsProvided
                   (c :: before_rev) r)) eqn:Htail; [| reflexivity].
    rewrite <- ARGUMENTS_unfold in Htail.
    apply replaced_head in Htail.
    + congruence.
    + repeat (constructor; [discriminate |]). constructor.
    + simpl in Hlen. lia.
Qed.

Lemma replaceAll_unfold (template s : jsstring) :
  replaceAll ARGUMENTS template s
  = replaceAll_from (S (length s)) ARGUMENTS template [] s.
Proof. reflexivity. Qed.

Lemma replaceAll_has_no_marker (s : jsstring) :
  ~ occursIn ARGUMENTS (replaceAll ARGUMENTS noArgumentsProvided s).
Proof.
  intros [i Hi]. rewrite replaceAll_unfold in Hi.
  rewrite replaced_has_no_marker in Hi by lia. discriminate.
Qed.

Lemma replaceAll_nonempty (s : jsstring) :
  truthy s = true ->
  truthy (replaceAll ARGUMENTS noArgumentsProvided s) = true.
Proof.
  destruct s as [|c r]; [discriminate |]. intros _.
  rewrite replaceAll_unfold. cbn [replaceAll_from].
  destruct (startsWith ARGUMENTS (c :: r)); [| reflexivity].
  rewrite placeholder_substitution. reflexivity.
Qed.

Section WithOracle.

(** The collaborators, as oracles over one state: the LLM service ([chat],
    [complete]), the MCP client manager, the channels. *)
Variable W : Type.
Variable llm_chat :
  W -> list ChatMessage -> option ChatOptions ->
  W * (jsstring + ChatCompletionResult).
Variable llm_complete : W -> jsstring -> jsstring -> W * (jsstring + jsstring).
Variable mcp_invokeTool : W -> jsstring -> jsstring -> W * (jsstring + jsstring).
Variable channel_send :
  W -> jsstring -> jsstring -> OutgoingMessage -> W * option jsstring.

Record St := {
  world : W;
  trace : list Event;
}.

(** Computations of the service: they thread the state and may throw. *)
Definition M (A : Type) : Type := St -> St * (jsstring + A).

Definition ret {A} (a : A) : M A := fun st => (st, inr a).

Definition bind {A B} (m : M A) (k : A -> M B) : M B :=
  fun st =>
    match m st with
    | (st', inl err) => (st', inl err)
    | (st', inr a) => k a st'
    end.

Notation "'let*' x ':=' m 'in' k" := (bind m (fun x => k))
  (at level 10, x name, m at level 100, k at level 200).

Definition throw {A} (err : jsstring) : M A := fun st => (st, inl err).

(** [try { m } catch (err) { h(String(err)) }]. *)
Definition tryCatch {A} (m : M A) (h : jsstring -> M A) : M A :=
  fun st =>
    match m st with
    | (st', inl err) => h err st'
    | (st', inr a) => (st', inr a)
    end.

Definition record (w : W) (e : Event) (st : St) : St :=
  {| world := w; trace := trace st ++ [e] |}.

Definition chat (messages : list ChatMessage) (options : option ChatOptions)
  : M ChatCompletionResult :=
  fun st =>
    let '(w, answer) := llm_chat (world st) messages options in
    (record w (EChat messages options answer) st, answer).

Definition complete (systemPrompt userPrompt : jsstring) : M jsstring :=
  fun st =>
    let '(w, answer) := llm_complete (world st) systemPrompt userPrompt in
    (record w (EComplete systemPrompt userPrompt answer) st, answer).

Definition invokeTool (name payload : jsstring) : M jsstring :=
  fun st =>
    let '(w, answer) := mcp_invokeTool (world st) name payload in
    (record w (EInvokeTool name payload answer) st, answer).

Definition sendMessage (channelId conversationId : jsstring)
    (message : OutgoingMessage) : M unit :=
  fun st =>
    let '(w, failure) := channel_send (world st) channelId conversationId message in
    (record w (ESend channelId conversationId message failure) st,
     match failure with Some err => inl err | None => inr tt end).

(** [taskManager.submit(message, runner)]: the task runs in the background. *)
Definition submit (message : NormalizedMessage) (runner : Runner) : M unit :=
  fun st => (record (world st) (ESubmit message runner) st, inr tt).

Record SkillDefinition := {
  name : jsstring;
  description : jsstring;
  userInvocable : bool;
  disableModelInvocation : option bool;
  instructions : option jsstring;
  source : SkillSource;
  execute : option (SkillContext -> M SkillResult);
}.

(** The skill registry (a [Map] by name) and the channels of the channel
    manager. *)
Variable registry : gmap jsstring SkillDefinition.
Variable channels : gset jsstring.

(** *** Skill handler *)

(** The pattern of [parseSlashCommand], anchored at both ends, with the
    [s] flag: a slash, the longest run of non-space characters (at least
    one) as the name, then white space, then the rest of the text, trimmed,
    as the arguments. *)
Definition parseSlashCommand (text : jsstring) : option (jsstring * jsstring) :=
  match text with
  | c :: rest =>
      if (c =? 47)%N then
        let cmd := takeNonSpace rest in
        match cmd with
        | [] => None
        | _ :: _ => Some (cmd, trim (trimStart (drop (length cmd) rest)))
        end
      else None
  | [] => None
  end.

Definition dispatch (message : NormalizedMessage) : M SkillDispatchResult :=
  match parseSlashCommand (msg_text message) with
  | None => ret notHandled
  | Some (parsedName, parsedArgs) =>
      match registry !! parsedName with
      | None => ret notHandled
      | Some skill =>
          if negb (userInvocable skill) then ret notHandled
          else
            match execute skill with
            | Some run =>
                let ctx := {| ctx_message := message; ctx_args := parsedArgs;
                              ctx_channelId := msg_channelId message;
                              ctx_conversationId := msg_conversationId message |} in
                let* r := run ctx in
                ret {| handled := true; result := Some r;
                       skillName := Some parsedName; args := None;
                       dispatched_instructions := None |}
            | None =>
                if truthy_opt (instructions skill) then
                  ret {| handled := true; result := None;
                         skillName := Some parsedName; args := Some parsedArgs;
                         dispatched_instructions :=
                           Some (replaceAll ARGUMENTS
                                   (or_else parsedArgs noArgumentsProvided)
                                   (default [] (instructions skill))) |}
                else ret notHandled
            end
      end
  end.

(** *** Agent service *)

(** The closure submitted for a content-based skill ([SkillRunner]), as it
    runs in the background: one completion, then the reply. *)
Definition runSkillTask (skillInstructions : jsstring) (msg : NormalizedMessage)
  : M unit :=
  let* answer := complete skillInstructions (msg_text msg) in
  sendMessage (msg_channelId msg) (msg_conversationId msg)
    {| text := answer; replyToMessageId := msg_platformMessageId msg |}.

Definition handleMessage (message : NormalizedMessage) : M unit :=
  if negb (bool_decide (msg_channelId message ∈ channels)) then ret tt
  else
    let* d := dispatch message in
    if handled d then
      match result d with
      | Some r =>
          sendMessage (msg_channelId message) (msg_conversationId message)
            {| text := res_text r;
               replyToMessageId := msg_platformMessageId message |}
      | None =>
          if truthy_opt (dispatched_instructions d) then
            submit message
              (SkillRunner (default [] (dispatched_instructions d)))
          else submit message PipelineRunner
      end
    else submit message PipelineRunner.

(** The result recorded for one tool call. *)
Definition toolResultOf (toolCall : ToolCall) : M jsstring :=
  match tc_name toolCall with
  | NotAString typeError => throw typeError
  | Name toolName =>
      if startsWith (lit "skill__") toolName then
        let skillName := drop 7 toolName in
        let skillInstructions := registry !! skillName ≫= instructions in
        if truthy_opt skillInstructions then
          let args := default [] (tc_arguments toolCall) in
          let prompt :=
            replaceAll ARGUMENTS (or_else args (lit "(no arguments)"))
              (default [] skillInstructions) in
          complete prompt args
        else ret (lit "Skill " ++ skillName ++ lit " not found")
      else
        tryCatch (invokeTool toolName (tc_payload toolCall))
          (fun err => ret (lit "Tool error: " ++ err))
  end.

(** The loop over the tool calls of one answer. *)
Fixpoint runToolCalls (toolCalls : list ToolCall)
    (currentMessages : list ChatMessage) : M (list ChatMessage) :=
  match toolCalls with
  | [] => ret currentMessages
  | toolCall :: rest =>
      let* toolResult := toolResultOf toolCall in
      runToolCalls rest
        (currentMessages ++
           [ {| role := tool; content := toolResult;
                toolCallId := Some (tc_id toolCall) |} ])
  end.

(** The [while] loop with [remaining = maxIterations - iterations], and the
    final call after it. *)
Fixpoint toolLoop (remaining : nat) (currentMessages : list ChatMessage)
    (tools : list ToolDefinition) : M jsstring :=
  match remaining with
  | O =>
      let* finalResult := chat currentMessages None in
      ret (cr_content finalResult)
  | S remaining' =>
      let* answer :=
        chat currentMessages
          (Some {| opt_tools :=
                     if (0 <? length tools)%nat then Some tools else None |}) in
      match cr_toolCalls answer with
      | None => ret (cr_content answer)
      | Some [] => ret (cr_content answer)
      | Some (toolCall :: rest) =>
          let* messages :=
            runToolCalls (toolCall :: rest)
              (currentMessages ++
                 [ {| role := assistant;
                      content := or_else (cr_content answer) [];
                      toolCallId := None |} ]) in
          toolLoop remaining' messages tools
      end
  end.

Definition runToolLoop (messages : list ChatMessage)
    (tools : list ToolDefinition) (maxIterations : nat) : M jsstring :=
  toolLoop maxIterations messages tools.

(** *** Counting the calls in a trace *)

Definition tally (f : Event -> nat) (tr : list Event) : nat :=
  foldr (fun e n => (f e + n)%nat) O tr.

(** A [chat] call made inside the loop (it carries an options object). *)
Definition loopChat (e : Event) : nat :=
  match e with EChat _ (Some _) _ => 1%nat | _ => O end.

(** A [chat] call made without options: the final call of the loop. *)
Definition finalChat (e : Event) : nat :=
  match e with EChat _ None _ => 1%nat | _ => O end.

Definition completion (e : Event) : nat :=
  match e with EComplete _ _ _ => 1%nat | _ => O end.

(** Every call of the LLM service: [chat] or [complete]. *)
Definition llmCall (e : Event) : nat :=
  match e with
  | EChat _ _ _ => 1%nat
  | EComplete _ _ _ => 1%nat
  | _ => O
  end.

Definition isSkillCall (toolCall : ToolCall) : bool :=
  match tc_name toolCall with
  | Name toolName => startsWith (lit "skill__") toolName
  | NotAString _ => false
  end.

Definition skillCalls (toolCalls : list ToolCall) : nat :=
  length (List.filter isSkillCall toolCalls).

(** The skill tool calls an answer of the LLM asks for. *)
Definition skillCallsAsked (e : Event) : nat :=
  match e with
  | EChat _ _ (inr answer) => skillCalls (default [] (cr_toolCalls answer))
  | _ => O
  end.

Lemma tally_app (f : Event -> nat) (a b : list Event) :
  tally f (a ++ b) = (tally f a + tally f b)%nat.
Proof. induction a as [|e a IH]; simpl; [reflexivity | rewrite IH; lia]. Qed.

(** What a computation adds to the trace. *)
Definition Adds {A} (m : M A) (st : St) (new : list Event) : Prop :=
  trace (m st).1 = trace st ++ new.

Ltac tallies := simpl; repeat split; lia.

Lemma toolResultOf_adds (toolCall : ToolCall) (st : St) :
  exists new,
    Adds (toolResultOf toolCall) st new
    /\ tally loopChat new = O /\ tally finalChat new = O
    /\ tally skillCallsAsked new = O
    /\ (tally completion new <= if isSkillCall toolCall then 1 else 0)%nat.
Proof.
  unfold Adds, toolResultOf, isSkillCall.
  destruct (tc_name toolCall) as [toolName | typeError].
  - destruct (startsWith (lit "skill__") toolName).
    + destruct (truthy_opt _).
      * unfold complete.
        destruct (llm_complete _ _ _) as [w answer]. eexists [_].
        split; [reflexivity | tallies].
      * exists []. split; [simpl; rewrite app_nil_r; reflexivity | tallies].
    + unfold tryCatch, invokeTool.
      destruct (mcp_invokeTool _ _ _) as [w [err | answer]];
        eexists [_]; (split; [reflexivity | tallies]).
  - exists []. split; [simpl; rewrite app_nil_r; reflexivity | tallies].
Qed.

Lemma runToolCalls_adds (toolCalls : list ToolCall)
    (currentMessages : list ChatMessage) (st : St) :
  exists new,
    Adds (runToolCalls toolCalls currentMessages) st new
    /\ tally loopChat new = O /\ tally finalChat new = O
    /\ tally skillCallsAsked new = O
    /\ (tally completion new <= skillCalls toolCalls)%nat.
Proof.
  revert currentMessages st.
  induction toolCalls as [|toolCall rest IH]; intros currentMessages st.
  - exists []. unfold Adds.
    split; [simpl; rewrite app_nil_r; reflexivity | tallies].
  - destruct (toolResultOf_adds toolCall st) as (new1 & H1 & Hl1 & Hf1 & Hs1 & Hc1).
    unfold Adds in *. cbn [runToolCalls]. unfold bind at 1.
    destruct (toolResultOf toolCall st) as [st1 [err | toolResult]].
    + exists new1. split; [exact H1 |].
      unfold skillCalls. simpl.
      destruct (isSkillCall toolCall); simpl; repeat split; try assumption; lia.
    + destruct (IH (currentMessages ++
                      [ {| role := tool; content := toolResult;
                           toolCallId := Some (tc_id toolCall) |} ]) st1)
        as (new2 & H2 & Hl2 & Hf2 & Hs2 & Hc2).
      exists (new1 ++ new2). simpl in H1.
      split; [rewrite H2, H1, app_assoc; reflexivity |].
      rewrite !tally_app. unfold skillCalls in *. simpl.
      destruct (isSkillCall toolCall); simpl; repeat split; lia.
Qed.

Lemma toolLoop_adds (remaining : nat) (currentMessages : list ChatMessage)
    (tools : list ToolDefinition) (st : St) :
  exists new,
    Adds (toolLoop remaining currentMessages tools) st new
    /\ (tally loopChat new <= remaining)%nat
    /\ (tally finalChat new <= 1)%nat
    /\ (tally finalChat new = 1%nat -> tally loopChat new = remaining)
    /\ (tally completion new <= tally skillCallsAsked new)%nat.
Proof.
  revert currentMessages st.
  induction remaining as [|remaining IH]; intros currentMessages st.
  - unfold Adds. cbn [toolLoop]. unfold bind, chat, ret.
    destruct (llm_chat _ _ _) as [w [err | answer]];
      eexists [_]; (split; [reflexivity | tallies]).
  - unfold Adds. cbn [toolLoop]. unfold bind at 1. unfold chat at 1.
    destruct (llm_chat _ _ _) as [w [err | answer]].
    + eexists [_]. split; [reflexivity | tallies].
    + destruct (cr_toolCalls answer) as [[|toolCall rest]|] eqn:Hcalls.
      * eexists [_]. split; [reflexivity |]. simpl. rewrite Hcalls. tallies.
      * set (st0 := record w _ st).
        unfold bind.
        destruct (runToolCalls_adds (toolCall :: rest)
                    (currentMessages ++
                       [ {| role := assistant;
                            content := or_else (cr_content answer) [];
                            toolCallId := None |} ]) st0)
          as (new2 & H2 & Hl2 & Hf2 & Hs2 & Hc2).
        unfold Adds in H2.
        destruct (runToolCalls (toolCall :: rest) _ st0)
          as [st2 [err | messages]].
        -- eexists (_ :: new2). simpl in H2.
           split; [simpl; rewrite H2; subst st0; simpl;
                   rewrite <- app_assoc; reflexivity |].
           simpl. rewrite Hcalls. simpl. fold (skillCalls (toolCall :: rest)).
           repeat split; lia.
        -- destruct (IH messages st2) as (new3 & H3 & Hl3 & Hf3 & Hfl3 & Hc3).
           unfold Adds in H3.
           eexists (_ :: new2 ++ new3). simpl in H2.
           split; [rewrite H3, H2; subst st0; simpl;
                   rewrite <- !app_assoc; reflexivity |].
           simpl. rewrite !tally_app, Hcalls. simpl.
           fold (skillCalls (toolCall :: rest)).
           repeat split; lia.
      * eexists [_]. split; [reflexivity |]. simpl. rewrite Hcalls. tallies.
Qed.

Lemma llmCall_split (tr : list Event) :
  tally llmCall tr
  = (tally loopChat tr + tally finalChat tr + tally completion tr)%nat.
Proof.
  induction tr as [|e tr IH]; [reflexivity |].
  simpl. rewrite IH. destruct e as [? [?|] ?| | | |]; simpl; lia.
Qed.

(** C5 (amended): the tool loop returns for every behaviour of the LLM and
    of the tools, after at most [maxIterations] chat calls inside the loop
    and at most one final chat call without options, made only when the loop
    ran [maxIterations] times; besides these chat calls it makes one LLM
    completion per executed skill tool call, no more than the answers of the
    LLM asked for. *)
Theorem runToolLoop_calls (messages : list ChatMessage)
    (tools : list ToolDefinition) (maxIterations : nat) (st : St) :
  exists new,
    Adds (runToolLoop messages tools maxIterations) st new
    /\ (tally loopChat new <= maxIterations)%nat
    /\ (tally finalChat new <= 1)%nat
    /\ (tally finalChat new = 1%nat -> tally loopChat new = maxIterations)
    /\ (tally loopChat new + tally finalChat new <= maxIterations + 1)%nat
    /\ (tally completion new <= tally skillCallsAsked new)%nat
    /\ tally llmCall new
       = (tally loopChat new + tally finalChat new + tally completion new)%nat.
Proof.
  destruct (toolLoop_adds maxIterations messages tools st)
    as (new & Hadds & Hloop & Hfinal & Hlast & Hcompl).
  exists new. unfold runToolLoop.
  split; [exact Hadds |]. split; [exact Hloop |]. split; [exact Hfinal |].
  split; [exact Hlast |]. split; [lia |]. split; [exact Hcompl |].
  apply llmCall_split.
Qed.

(** The transcript the loop over the tool calls returns is the one it was
    given with one message more for every call. *)
Lemma runToolCalls_extends (toolCalls : list ToolCall)
    (currentMessages : list ChatMessage) (st st' : St)
    (messages : list ChatMessage) :
  runToolCalls toolCalls currentMessages st = (st', inr messages) ->
  exists added,
    messages = currentMessages ++ added
    /\ map toolCallId added
       = map (fun toolCall => Some (tc_id toolCall)) toolCalls.
Proof.
  revert currentMessages st.
  induction toolCalls as [|toolCall rest IH]; intros currentMessages st Hrun.
  - cbn in Hrun. injection Hrun as _ <-. exists [].
    split; [rewrite app_nil_r; reflexivity | reflexivity].
  - cbn [runToolCalls] in Hrun. unfold bind at 1 in Hrun.
    destruct (toolResultOf toolCall st) as [st1 [err | toolResult]];
      [discriminate |].
    destruct (IH _ _ Hrun) as (added & -> & Hids).
    eexists (_ :: added). rewrite <- app_assoc.
    split; [reflexivity |]. cbn [map toolCallId]. rewrite Hids. reflexivity.
Qed.

(** Whatever the loop does, it starts with a chat call on the transcript
    it has. *)
Lemma toolLoop_starts_with_chat (remaining : nat)
    (currentMessages : list ChatMessage) (tools : list ToolDefinition)
    (st : St) :
  exists options answer new,
    Adds (toolLoop remaining currentMessages tools) st
      (EChat currentMessages options answer :: new).
Proof.
  unfold Adds. destruct remaining as [|remaining].
  - cbn [toolLoop]. unfold bind, chat, ret.
    destruct (llm_chat _ _ _) as [w [err | answer]];
      eexists _, _, []; reflexivity.
  - cbn [toolLoop]. unfold bind at 1. unfold chat at 1.
    destruct (llm_chat _ _ _) as [w [err | answer]];
      [eexists _, _, []; reflexivity |].
    destruct (cr_toolCalls answer) as [[|toolCall rest]|];
      [eexists _, _, []; reflexivity | | eexists _, _, []; reflexivity].
    set (st0 := record w _ st) in *.
    destruct (runToolCalls_adds (toolCall :: rest)
                (currentMessages ++
                   [ {| role := assistant;
                        content := or_else (cr_content answer) [];
                        toolCallId := None |} ]) st0) as (new2 & H2 & _).
    unfold Adds in H2. unfold bind.
    destruct (runToolCalls (toolCall :: rest) _ st0) as [st2 [err | messages]].
    + eexists _, _, new2. cbn [fst] in H2 |- *. rewrite H2. subst st0.
      cbn [record trace]. rewrite <- app_assoc. reflexivity.
    + destruct (toolLoop_adds remaining messages tools st2) as (new3 & H3 & _).
      unfold Adds in H3. eexists _, _, (new2 ++ new3).
      rewrite H3. cbn [fst] in H2. rewrite H2. subst st0.
      cbn [record trace]. rewrite <- !app_assoc. reflexivity.
Qed.

(** C9: a tool call naming a skill that is registered without an
    instructions body is answered with the not-found text, the state being
    left as it was (no completion, no other call).  The loop over the tool
    calls records this text, under the id of the call, right after the
    transcript it had, and goes on with the remaining calls; and when the
    answer of the LLM asked for this call alone, the next thing the tool
    loop does is its next chat call, on the transcript that ends with the
    assistant message and the recorded result. *)
Theorem skill_without_instructions_not_found (toolCall : ToolCall)
    (toolName : jsstring) (skill : SkillDefinition) (st : St) :
  tc_name toolCall = Name toolName ->
  startsWith (lit "skill__") toolName = true ->
  registry !! drop 7 toolName = Some skill ->
  truthy_opt (instructions skill) = false ->
  let recorded :=
    {| role := tool;
       content := lit "Skill " ++ drop 7 toolName ++ lit " not found";
       toolCallId := Some (tc_id toolCall) |} in
  toolResultOf toolCall st = (st, inr (content recorded))
  /\ (forall rest currentMessages,
        runToolCalls (toolCall :: rest) currentMessages st
        = runToolCalls rest (currentMessages ++ [recorded]) st
        /\ forall st' messages,
             runToolCalls (toolCall :: rest) currentMessages st
             = (st', inr messages) ->
             exists added,
               messages = currentMessages ++ recorded :: added
               /\ map toolCallId added
                  = map (fun toolCall => Some (tc_id toolCall)) rest)
  /\ (forall remaining currentMessages tools options w answer,
        options
        = Some {| opt_tools :=
                    if (0 <? length tools)%nat then Some tools else None |} ->
        llm_chat (world st) currentMessages options = (w, inr answer) ->
        cr_toolCalls answer = Some [toolCall] ->
        exists options' answer' new,
          Adds (toolLoop (S remaining) currentMessages tools) st
            (EChat currentMessages options (inr answer)
             :: EChat
                  (currentMessages
                   ++ [ {| role := assistant;
                           content := or_else (cr_content answer) [];
                           toolCallId := None |};
                        recorded ])
                  options' answer'
             :: new)).
Proof.
  intros Hname Hprefix Hskill Hnone recorded.
  assert (Hres : toolResultOf toolCall st = (st, inr (content recorded))).
  { unfold toolResultOf. rewrite Hname, Hprefix, Hskill. simpl. rewrite Hnone.
    reflexivity. }
  assert (Hgo : forall rest currentMessages st0,
            toolResultOf toolCall st0 = (st0, inr (content recorded)) ->
            runToolCalls (toolCall :: rest) currentMessages st0
            = runToolCalls rest (currentMessages ++ [recorded]) st0).
  { intros rest currentMessages st0 H0.
    cbn [runToolCalls]. unfold bind at 1. rewrite H0. reflexivity. }
  split; [exact Hres |]. split.
  - intros rest currentMessages. split; [exact (Hgo _ _ _ Hres) |].
    intros st' messages Hrun. rewrite (Hgo _ _ _ Hres) in Hrun.
    destruct (runToolCalls_extends _ _ _ _ _ Hrun) as (added & -> & Hids).
    exists added. rewrite <- app_assoc. split; [reflexivity | exact Hids].
  - intros remaining currentMessages tools options w answer -> Hchat Hcalls.
    unfold Adds. cbn [toolLoop]. unfold bind at 1. unfold chat at 1.
    rewrite Hchat, Hcalls.
    set (st0 := record w _ st).
    assert (Hres0 : toolResultOf toolCall st0 = (st0, inr (content recorded))).
    { unfold toolResultOf. rewrite Hname, Hprefix, Hskill. simpl.
      rewrite Hnone. reflexivity. }
    unfold bind. rewrite (Hgo [] _ st0 Hres0). cbn [runToolCalls]. unfold ret.
    rewrite <- app_assoc. cbn [app].
    destruct (toolLoop_starts_with_chat remaining
                (currentMessages
                 ++ [ {| role := assistant;
                         content := or_else (cr_content answer) [];
                         toolCallId := None |};
                      recorded ]) tools st0) as (options' & answer' & new & Hnext).
    exists options', answer', new. unfold Adds in Hnext. rewrite Hnext.
    subst st0. cbn [record trace]. rewrite <- app_assoc. reflexivity.
Qed.

(** The name after the slash resolves to a skill that slash dispatch
    handles: registered, user-invocable, with an executor or an instructions
    body. *)
Definition resolves (cmd : jsstring) : bool :=
  match registry !! cmd with
  | Some skill =>
      userInvocable skill
      && (match execute skill with Some _ => true | None => false end
          || truthy_opt (instructions skill))
  | None => false
  end.


(** C3 (amended): a slash command without arguments that names a
    content-based skill is submitted as a task whose instructions are the
    skill's body with every marker replaced by the placeholder of the slash
    path, [(no arguments provided)]; no marker is left; and the task, when it
    runs, starts with the one completion it makes, with these instructions
    as system prompt and the raw text as user prompt. *)
Theorem slash_skill_without_arguments (message : NormalizedMessage)
    (cmd body : jsstring) (skill : SkillDefinition) (st : St) :
  msg_channelId message ∈ channels ->
  parseSlashCommand (msg_text message) = Some (cmd, []) ->
  registry !! cmd = Some skill ->
  userInvocable skill = true ->
  execute skill = None ->
  instructions skill = Some body ->
  truthy body = true ->
  let prompt := replaceAll ARGUMENTS noArgumentsProvided body in
  handleMessage message st
  = (record (world st) (ESubmit message (SkillRunner prompt)) st, inr tt)
  /\ ~ occursIn ARGUMENTS prompt
  /\ (forall st1, exists answer new,
        Adds (runSkillTask prompt message) st1
          (EComplete prompt (msg_text message) answer :: new)
        /\ tally llmCall new = O).
Proof.
  intros Hchan Hparse Hskill Hinv Hexec Hbody Htruthy prompt.
  split; [| split].
  - unfold handleMessage. rewrite bool_decide_eq_true_2 by exact Hchan.
    cbn [negb]. unfold bind, dispatch.
    rewrite Hparse, Hskill, Hinv, Hexec, Hbody. cbn [negb truthy_opt].
    rewrite Htruthy. unfold ret.
    cbn [handled result dispatched_instructions or_else truthy default].
    fold prompt. unfold truthy_opt.
    change (id body) with body. fold prompt.
    pose proof (replaceAll_nonempty body Htruthy) as Hp. fold prompt in Hp.
    rewrite Hp. reflexivity.
  - apply replaceAll_has_no_marker.
  - intros st1. unfold Adds, runSkillTask, bind, complete, sendMessage.
    destruct (llm_complete (world st1) prompt (msg_text message))
      as [w [err | answer]].
    + exists (inl err), []. split; reflexivity.
    + destruct (channel_send w (msg_channelId message)
                  (msg_conversationId message)
                  {| text := answer;
                     replyToMessageId := msg_platformMessageId message |})
        as [w2 failure] eqn:Hsend.
      exists (inr answer), [ESend (msg_channelId message)
                              (msg_conversationId message)
                              {| text := answer;
                                 replyToMessageId := msg_platformMessageId message |}
                              failure].
      cbn [record world trace]. rewrite Hsend. cbn [fst record trace].
      rewrite <- app_assoc. split; reflexivity.
Qed.

End WithOracle.

(** *** A sample deployment

    The oracle state counts the chat calls.  The first answer of the LLM asks
    for two runs of the skill [summarize]; every later answer is plain text. *)

Definition askSummarize (callId text : string) : ToolCall :=
  {| tc_id := lit callId; tc_name := Name (lit "skill__summarize");
     tc_arguments := Some (lit text); tc_payload := [] |}.

Definition sampleChat (w : nat) (_ : list ChatMessage) (_ : option ChatOptions)
  : nat * (jsstring + ChatCompletionResult) :=
  (S w,
   inr (match w with
        | O => {| cr_content := [];
                  cr_toolCalls := Some [askSummarize "t1" "part one";
                                        askSummarize "t2" "part two"] |}
        | S _ => {| cr_content := lit "done"; cr_toolCalls := None |}
        end)).

Definition sampleComplete (w : nat) (_ _ : jsstring)
  : nat * (jsstring + jsstring) := (w, inr (lit "summary")).

Definition sampleInvoke (w : nat) (_ _ : jsstring)
  : nat * (jsstring + jsstring) := (w, inr (lit "5")).

Definition sampleSend (w : nat) (_ _ : jsstring) (_ : OutgoingMessage)
  : nat * option jsstring := (w, None).

(** A content-based skill, and a builtin one as the agent service wires it:
    an executor, no instructions. *)
Definition summarizeSkill : SkillDefinition nat :=
  {| name := lit "summarize"; description := lit "Summarize a text";
     userInvocable := true; disableModelInvocation := None;
     instructions := Some (lit "Summarize: $ARGUMENTS");
     source := skillmd; execute := None |}.

Definition personaSkill : SkillDefinition nat :=
  {| name := lit "persona"; description := lit "Show or change agent persona";
     userInvocable := true; disableModelInvocation := None;
     instructions := None; source := builtin;
     execute :=
       Some (fun _ => ret nat {| res_text := lit "**Current Persona:** bot";
                                 res_handled := true |}) |}.

Definition sampleRegistry : gmap jsstring (SkillDefinition nat) :=
  <[lit "summarize" := summarizeSkill]> (<[lit "persona" := personaSkill]> ∅).

Definition sampleChannels : gset jsstring := {[ lit "web" ]}.

Definition inbound (text : string) : NormalizedMessage :=
  {| msg_id := lit "m1"; msg_channelId := lit "web";
     msg_conversationId := lit "c1"; msg_senderId := lit "web-user";
     msg_senderName := None; msg_text := lit text; msg_timestamp := 0;
     msg_platformMessageId := None |}.

Definition start : St nat := {| world := O; trace := [] |}.

Example parse_name_and_arguments :
  parseSlashCommand (lit "/summarize   the  report ")
  = Some (lit "summarize", lit "the  report").
Proof. reflexivity. Qed.

Example parse_needs_a_name :
  parseSlashCommand (lit "/ summarize") = None
  /\ parseSlashCommand (lit "/") = None
  /\ parseSlashCommand (lit "summarize") = None.
Proof. repeat split. Qed.

Lemma web_is_registered : lit "web" ∈ sampleChannels.
Proof. apply elem_of_singleton. reflexivity. Qed.

Lemma summarize_is_registered :
  sampleRegistry !! lit "summarize" = Some summarizeSkill.
Proof. apply lookup_insert_eq. Qed.

Lemma persona_is_registered :
  sampleRegistry !! lit "persona" = Some personaSkill.
Proof.
  unfold sampleRegistry. rewrite lookup_insert_ne by discriminate.
  apply lookup_insert_eq.
Qed.

(** With a bound of one iteration the loop makes four LLM calls: the chat
    call of the iteration, a completion for each of the two skill tool calls,
    and the final chat call. *)
Lemma runToolLoop_makes_four_calls :
  let st := (runToolLoop nat sampleChat sampleComplete sampleInvoke sampleRegistry
               [ {| role := user; content := lit "sum up"; toolCallId := None |} ]
               [ {| td_name := lit "skill__summarize";
                    td_description := lit "Summarize a text";
                    td_inputSchema := lit "{}" |} ]
               1 start).1 in
  tally llmCall (trace nat st) = 4%nat /\ (1 + 1 < 4)%nat.
Proof.
  assert (H : forall key, sampleRegistry !! key ≫= instructions nat
              = if bool_decide (key = lit "summarize")
                then Some (lit "Summarize: $ARGUMENTS") else None).
  { intros key. unfold sampleRegistry. case_bool_decide as Hk.
    - subst key. rewrite lookup_insert_eq. reflexivity.
    - rewrite lookup_insert_ne by congruence.
      destruct (decide (key = lit "persona")) as [-> | Hp].
      + rewrite lookup_insert_eq. reflexivity.
      + rewrite lookup_insert_ne by congruence. rewrite lookup_empty. reflexivity. }
  cbv zeta. split; [| lia].
  unfold runToolLoop, start. cbn [toolLoop]. unfold bind, chat, sampleChat.
  cbn [world trace record cr_toolCalls runToolCalls].
  unfold bind, toolResultOf, askSummarize. cbn [tc_name tc_arguments tc_id].
  cbv iota beta.
  change (startsWith (lit "skill__") (lit "skill__summarize")) with true.
  change (drop 7 (lit "skill__summarize")) with (lit "summarize").
  rewrite !H. reflexivity.
Qed.

(** The slash path substitutes [(no arguments provided)], not
    [(no arguments)]. *)
Lemma slash_placeholder_differs :
  handleMessage nat sampleSend sampleRegistry sampleChannels
    (inbound "/summarize") start
  = (record nat O
       (ESubmit (inbound "/summarize")
          (SkillRunner (lit "Summarize: (no arguments provided)"))) start,
     inr tt)
  /\ lit "Summarize: (no arguments provided)"
     <> replaceAll ARGUMENTS (lit "(no arguments)") (lit "Summarize: $ARGUMENTS").
Proof.
  split; [| vm_compute; discriminate].
  unfold handleMessage. rewrite bool_decide_eq_true_2 by exact web_is_registered.
  unfold bind, dispatch.
  change (parseSlashCommand (msg_text (inbound "/summarize")))
    with (Some (lit "summarize", @nil N)).
  cbv iota beta. rewrite summarize_is_registered. reflexivity.
Qed.

(** The theorem at the command [/summarize] with no argument. *)
Lemma slash_skill_without_arguments_witness :
  lit "web" ∈ sampleChannels
  /\ parseSlashCommand (msg_text (inbound "/summarize"))
     = Some (lit "summarize", [])
  /\ sampleRegistry !! lit "summarize" = Some summarizeSkill
  /\ handleMessage nat sampleSend sampleRegistry sampleChannels
       (inbound "/summarize") start
     = (record nat O
          (ESubmit (inbound "/summarize")
             (SkillRunner
                (replaceAll ARGUMENTS noArgumentsProvided
                   (lit "Summarize: $ARGUMENTS")))) start,
        inr tt).
Proof.
  split; [exact web_is_registered |].
  split; [reflexivity |].
  split; [exact summarize_is_registered |].
  exact (proj1 (slash_skill_without_arguments nat sampleComplete sampleSend
                  sampleRegistry sampleChannels (inbound "/summarize")
                  (lit "summarize") (lit "Summarize: $ARGUMENTS")
                  summarizeSkill start
                  web_is_registered eq_refl summarize_is_registered
                  eq_refl eq_refl eq_refl eq_refl)).
Defined.

(** The theorem at a tool call for the builtin skill [persona], which has
    an executor and no instructions. *)
Definition askPersona : ToolCall :=
  {| tc_id := lit "t1"; tc_name := Name (lit "skill__persona");
     tc_arguments := None; tc_payload := [] |}.

Lemma skill_without_instructions_not_found_witness :
  tc_name askPersona = Name (lit "skill__persona")
  /\ startsWith (lit "skill__") (lit "skill__persona") = true
  /\ sampleRegistry !! drop 7 (lit "skill__persona") = Some personaSkill
  /\ truthy_opt (instructions nat personaSkill) = false
  /\ toolResultOf nat sampleComplete sampleInvoke sampleRegistry askPersona
       start
     = (start, inr (lit "Skill persona not found"))
  /\ runToolCalls nat sampleComplete sampleInvoke sampleRegistry
       [askPersona; askSummarize "t2" "part two"] [] start
     = runToolCalls nat sampleComplete sampleInvoke sampleRegistry
         [askSummarize "t2" "part two"]
         [ {| role := tool; content := lit "Skill persona not found";
              toolCallId := Some (lit "t1") |} ] start.
Proof.
  split; [reflexivity |]. split; [reflexivity |].
  split; [exact persona_is_registered |]. split; [reflexivity |].
  destruct (skill_without_instructions_not_found nat sampleChat sampleComplete
              sampleInvoke sampleRegistry askPersona (lit "skill__persona")
              personaSkill start eq_refl eq_refl persona_is_registered
              eq_refl) as (Hresult & Hloop & _).
  split; [exact Hresult |].
  exact (proj1 (Hloop [askSummarize "t2" "part two"] [])).
Defined.

Lemma unknown_does_not_resolve :
  resolves nat sampleRegistry (lit "unknown") = false.
Proof.
  unfold resolves, sampleRegistry.
  rewrite !lookup_insert_ne by discriminate. rewrite lookup_empty. reflexivity.
Qed.

End Agent.

(** ** More on the history store: bounds, eviction, clearing *)

Module HistoryFacts.

Import History.

Section WithByteLength.

Variable byteLength : HistoryEntry -> Z.

Lemma slice_from_end_length {A} (max : Z) (a : list A) :
  0 < max -> Z.of_nat (length (slice_from_end max a)) <= max.
Proof.
  intros Hmax. unfold slice_from_end.
  replace (0 <? max) with true by (symmetry; apply Z.ltb_lt; exact Hmax).
  rewrite length_drop. lia.
Qed.

Lemma collect_nothing (max : Z) (segs : list SegmentMeta)
    (files : gmap jsstring (list Line)) :
  max <= 0 -> collect max segs files [] = [].
Proof.
  intros H. destruct segs as [|seg older]; [reflexivity |].
  cbn [collect length]. change (Z.of_nat 0) with 0.
  replace (0 <? max) with false; [reflexivity |].
  symmetry. apply Z.ltb_ge. exact H.
Qed.

(** X1: [getMessages] never returns more messages than the limit in force
    (the [limit] argument, or [maxMessages] without one), and nothing at all
    when that limit is zero or negative. *)
Theorem getMessages_at_most_limit (cfg : Config)
    (channelId conversationId : jsstring) (limit : option Z)
    (st : gmap (jsstring * jsstring) ConvDir) :
  let max := default (maxMessages cfg) limit in
  (max <= 0 -> getMessages cfg channelId conversationId limit st = [])
  /\ (0 < max ->
      Z.of_nat (length (getMessages cfg channelId conversationId limit st))
      <= max).
Proof.
  intros max. unfold getMessages.
  destruct (st !! (channelId, conversationId)) as [d|]; [| split; [reflexivity | simpl; lia]].
  unfold getMessages_dir. fold max.
  destruct (segments (readIndex d)) as [|s r]; [split; [reflexivity | simpl; lia] |].
  split.
  - intros H. rewrite (collect_nothing max _ _ H).
    unfold slice_from_end. rewrite drop_nil. reflexivity.
  - intros H. rewrite length_map. apply slice_from_end_length. exact H.
Qed.

(** The pruning loop on its own: what it keeps is what is left of the list
    after the segments it drops; it unlinks the files of the dropped
    segments and no other; it throws exactly under a negative bound; and it
    keeps no more than the bound. *)
Lemma pruneOldest_spec (m : Z) (segs : list SegmentMeta)
    (files : gmap jsstring (list Line)) :
  exists kept files' dropped,
    pruneOldest m segs files = (kept, files', dropped)
    /\ (forall path, path ∉ map file dropped -> files' !! path = files !! path)
    /\ (forall path, path ∈ map file dropped -> files' !! path = None)
    /\ (0 <= m -> exists keptSegs,
          kept = Some keptSegs /\ segs = dropped ++ keptSegs
          /\ Z.of_nat (length keptSegs) <= m)
    /\ (m < 0 -> kept = None /\ dropped = segs).
Proof.
  revert files. induction segs as [|u r IH]; intros files.
  - simpl. destruct (m <? 0) eqn:Hm.
    + apply Z.ltb_lt in Hm. eexists _, _, _. split; [reflexivity |].
      split; [reflexivity |]. split; [intros p Hp; inversion Hp |].
      split; [lia | intros _; split; reflexivity].
    + apply Z.ltb_ge in Hm. eexists _, _, _. split; [reflexivity |].
      split; [reflexivity |]. split; [intros p Hp; inversion Hp |].
      split; [| lia]. intros _. exists []. simpl. repeat split; lia.
  - cbn [pruneOldest].
    destruct (m <? Z.of_nat (length (u :: r))) eqn:Hlen.
    + destruct (IH (delete (file u) files))
        as (kept & files' & dropped & Hp & Hother & Hgone & Hpos & Hneg).
      rewrite Hp. eexists _, _, _. split; [reflexivity |].
      split; [| split; [| split]].
      * intros path Hnot. cbn [map] in Hnot.
        apply not_elem_of_cons in Hnot as [Hne Hnot].
        rewrite (Hother path Hnot). apply lookup_delete_ne. congruence.
      * intros path Hin. cbn [map] in Hin.
        destruct (decide (path ∈ map file dropped)) as [Hd | Hd];
          [exact (Hgone path Hd) |].
        apply elem_of_cons in Hin as [-> | Hin]; [| contradiction].
        rewrite (Hother _ Hd). apply lookup_delete_eq.
      * intros Hm. destruct (Hpos Hm) as (keptSegs & -> & -> & Hk).
        exists keptSegs. repeat split; assumption.
      * intros Hm. destruct (Hneg Hm) as [-> ->]. split; reflexivity.
    + apply Z.ltb_ge in Hlen. eexists _, _, _. split; [reflexivity |].
      split; [reflexivity |]. split; [intros p Hp; inversion Hp |].
      split.
      * intros _. exists (u :: r). repeat split. exact Hlen.
      * intros Hm. simpl length in Hlen. lia.
Qed.

(** X2: with a bound of at least zero [addMessage] always writes the index,
    and the index it writes has at most [maxSegments] segments; with a
    negative bound it always throws and leaves the index file as it was. *)
Theorem addMessage_index_size (cfg : Config) (clk : Clock)
    (message : ChatMessage) (metadata : option MessageMetadata) (d : ConvDir) :
  let result := addMessage_dir byteLength cfg clk message metadata d in
  (0 <= maxSegments cfg ->
     (exists dropped, result.2 = Written dropped)
     /\ Z.of_nat (length (segments (readIndex result.1))) <= maxSegments cfg)
  /\ (maxSegments cfg < 0 ->
      result.2 = Thrown /\ indexFile result.1 = indexFile d).
Proof.
  intros result. subst result. unfold addMessage_dir.
  destruct (currentSegment cfg clk (readIndex d) _) as [before currentSeg].
  cbn [appendJsonLine].
  match goal with
  | |- context [pruneOldest ?m ?l ?f] =>
      destruct (pruneOldest_spec m l f)
        as (kept & files' & dropped & Hp & _ & _ & Hpos & Hneg); rewrite Hp
  end.
  split.
  - intros Hm. destruct (Hpos Hm) as (keptSegs & -> & _ & Hk).
    cbn [fst snd readIndex indexFile segments]. split; [eauto | exact Hk].
  - intros Hm. destruct (Hneg Hm) as [-> _]. split; reflexivity.
Qed.

(** *** Reading the whole history back *)

(** The call opens a new segment: there is none yet, or the last one is
    full. *)
Definition opensSegment (cfg : Config) (d : ConvDir) : bool :=
  match last (segments (readIndex d)) with
  | Some currentSeg => maxSegmentSizeBytes cfg <=? sizeBytes currentSeg
  | None => true
  end.

Lemma currentSegment_cases (cfg : Config) (clk : Clock) (d : ConvDir)
    (entry : HistoryEntry) :
  (opensSegment cfg d = true
   /\ currentSegment cfg clk (readIndex d) entry
      = (segments (readIndex d), freshSegment clk entry))
  \/ (opensSegment cfg d = false
      /\ exists before cur,
           segments (readIndex d) = before ++ [cur]
           /\ currentSegment cfg clk (readIndex d) entry = (before, cur)).
Proof.
  unfold opensSegment, currentSegment.
  destruct (last (segments (readIndex d))) as [cur|] eqn:Hlast; [| left; split; reflexivity].
  destruct (maxSegmentSizeBytes cfg <=? sizeBytes cur); [left; split; reflexivity |].
  right. split; [reflexivity |]. exists (removelast (segments (readIndex d))), cur.
  split; [| reflexivity]. apply last_Some in Hlast as (l' & Hl).
  rewrite Hl, removelast_last. reflexivity.
Qed.

(** The file of the segment holds these entries, as many as the segment
    counts. *)
Definition Holds (files : gmap jsstring (list Line)) (seg : SegmentMeta)
    (es : list HistoryEntry) : Prop :=
  (exists lines, files !! file seg = Some lines /\ readSegmentFile lines = es)
  /\ count seg = Z.of_nat (length es).

(** The directory retains these messages: its segments have files of their
    own, which hold, in order, the entries of the messages. *)
Definition Retains (d : ConvDir) (msgs : list ChatMessage) : Prop :=
  NoDup (map file (segments (readIndex d)))
  /\ exists parts,
       Forall2 (Holds (segmentFiles d)) (segments (readIndex d)) parts
       /\ map entryToChatMessage (concat parts) = msgs.

Lemma Holds_agree (files files' : gmap jsstring (list Line))
    (segs : list SegmentMeta) (parts : list (list HistoryEntry)) :
  Forall2 (Holds files) segs parts ->
  (forall s, s ∈ segs -> files' !! file s = files !! file s) ->
  Forall2 (Holds files') segs parts.
Proof.
  induction 1 as [|s es segs parts Hs _ IH]; intros Hag; [constructor |].
  constructor.
  - unfold Holds in *. rewrite (Hag s (list_elem_of_here _ _)). exact Hs.
  - apply IH. intros t Ht. apply Hag. apply list_elem_of_further. exact Ht.
Qed.

Lemma Holds_entries (files : gmap jsstring (list Line))
    (segs : list SegmentMeta) (parts : list (list HistoryEntry)) :
  Forall2 (Holds files) segs parts ->
  entriesOf segs = Z.of_nat (length (concat parts)).
Proof.
  induction 1 as [|s es segs parts [_ Hc] _ IH]; [reflexivity |].
  cbn [entriesOf foldr concat]. fold (entriesOf segs).
  rewrite length_app, IH, Hc. lia.
Qed.

Lemma Holds_exists (files : gmap jsstring (list Line))
    (segs : list SegmentMeta) (parts : list (list HistoryEntry)) (name : jsstring) :
  Forall2 (Holds files) segs parts ->
  name ∈ map file segs -> is_Some (files !! name).
Proof.
  induction 1 as [|s es segs parts [(lines & Hl & _) _] _ IH]; intros Hin.
  - inversion Hin.
  - cbn [map] in Hin. apply elem_of_cons in Hin as [-> | Hin]; [eauto | auto].
Qed.

(** The append, before any pruning. *)
Lemma append_retains (cfg : Config) (clk : Clock) (message : ChatMessage)
    (metadata : option MessageMetadata) (d : ConvDir)
    (parts : list (list HistoryEntry)) :
  let entry := makeEntry (readIndex d) clk message metadata in
  let cur := currentSegment cfg clk (readIndex d) entry in
  let files1 :=
    (appendJsonLine byteLength (file cur.2) entry (segmentFiles d)).1 in
  let updated :=
    {| file := file cur.2; firstSeq := firstSeq cur.2; lastSeq := seq entry;
       count := count cur.2 + 1;
       sizeBytes := sizeBytes cur.2 + byteLength entry;
       startedAt := startedAt cur.2; endedAt := ts entry |} in
  NoDup (map file (segments (readIndex d))) ->
  Forall2 (Holds (segmentFiles d)) (segments (readIndex d)) parts ->
  (opensSegment cfg d = true ->
   segmentFiles d !! (now_stamp clk ++ lit ".jsonl") = None) ->
  NoDup (map file (cur.1 ++ [updated]))
  /\ exists parts2,
       Forall2 (Holds files1) (cur.1 ++ [updated]) parts2
       /\ concat parts2 = concat parts ++ [entry].
Proof.
  intros entry cur files1 updated Hnd HF Hfresh.
  subst cur files1 updated. cbn [appendJsonLine fst].
  destruct (currentSegment_cases cfg clk d entry)
    as [[Hopen Hcur] | [Hopen (before & cur & Hsegs & Hcur)]];
    rewrite Hcur; cbn [fst snd].
  - specialize (Hfresh Hopen). cbn [freshSegment file].
    rewrite Hfresh. cbn [default from_option app].
    assert (Hnew : now_stamp clk ++ lit ".jsonl"
                   ∉ map file (segments (readIndex d))).
    { intros Hin. destruct (Holds_exists _ _ _ _ HF Hin) as [x Hx]. congruence. }
    split.
    + rewrite map_app. apply NoDup_app. split; [exact Hnd |].
      split; [| apply NoDup_singleton].
      intros x Hx Hx'. apply list_elem_of_singleton in Hx'. subst x.
      apply Hnew. exact Hx.
    + exists (parts ++ [[entry]]). split.
      * apply Forall2_app.
        -- apply (Holds_agree _ _ _ _ HF). intros s Hs.
           apply lookup_insert_ne. intros Heq. apply Hnew. rewrite Heq.
           apply list_elem_of_fmap. exists s. split; [reflexivity | exact Hs].
        -- constructor; [| constructor]. split.
           ++ eexists. cbn [file]. rewrite lookup_insert_eq.
              split; reflexivity.
           ++ reflexivity.
      * rewrite concat_app. simpl. reflexivity.
  - rewrite Hsegs in Hnd, HF.
    apply Forall2_app_inv_l in HF as (pb & pc & HFb & HFc & ->).
    inversion HFc as [|? pcur ? ? [(lines & Hl & Hr) Hcnt] Hnil]; subst.
    inversion Hnil; subst.
    rewrite map_app in Hnd. apply NoDup_app in Hnd as (Hndb & Hdisj & _).
    assert (Hnot : file cur ∉ map file before).
    { intros Hin. apply (Hdisj _ Hin). simpl. apply list_elem_of_here. }
    split.
    + rewrite map_app. apply NoDup_app. split; [exact Hndb |].
      split; [| apply NoDup_singleton].
      intros x Hx Hx'. simpl in Hx'. apply list_elem_of_singleton in Hx'.
      subst x. contradiction.
    + exists (pb ++ [readSegmentFile lines ++ [entry]]). split.
      * apply Forall2_app.
        -- apply (Holds_agree _ _ _ _ HFb). intros s Hs.
           apply lookup_insert_ne. intros Heq. apply Hnot. rewrite Heq.
           apply list_elem_of_fmap. exists s. split; [reflexivity | exact Hs].
        -- constructor; [| constructor]. split.
           ++ eexists. cbn [file]. rewrite lookup_insert_eq, Hl.
              split; [reflexivity |]. cbn [default from_option].
              apply readSegmentFile_snoc.
           ++ cbn [count]. rewrite Hcnt, length_app. simpl. lia.
      * rewrite !concat_app. simpl. rewrite !app_nil_r, app_assoc. reflexivity.
Qed.

Lemma readBack_entry (index : SegmentIndex) (clk : Clock)
    (message : ChatMessage) (metadata : option MessageMetadata) :
  entryToChatMessage (makeEntry index clk message metadata) = readBack message.
Proof. reflexivity. Qed.

(** One call: the directory then retains what it retained, and the new
    message, less the entries of the segments the call evicted. *)
Lemma addMessage_dir_retains (cfg : Config) (clk : Clock)
    (message : ChatMessage) (metadata : option MessageMetadata)
    (d : ConvDir) (msgs : list ChatMessage) :
  0 <= maxSegments cfg ->
  (opensSegment cfg d = true ->
   segmentFiles d !! (now_stamp clk ++ lit ".jsonl") = None) ->
  Retains d msgs ->
  let result := addMessage_dir byteLength cfg clk message metadata d in
  Retains result.1
    (drop (Z.to_nat (evictedBy result.2)) (msgs ++ [readBack message]))
  /\ 0 <= evictedBy result.2 <= Z.of_nat (length (msgs ++ [readBack message])).
Proof.
  intros Hm Hfresh (Hnd & parts & HF & Hmsgs) result.
  destruct (append_retains cfg clk message metadata d parts Hnd HF Hfresh)
    as (Hnd2 & parts2 & HF2 & Hcat).
  subst result. unfold addMessage_dir.
  destruct (currentSegment cfg clk (readIndex d) _) as [before currentSeg].
  cbn [fst snd appendJsonLine] in *.
  match goal with
  | |- context [pruneOldest ?m ?l ?f] =>
      destruct (pruneOldest_spec m l f)
        as (kept & files' & dropped & Hp & Hother & _ & Hpos & _); rewrite Hp
  end.
  destruct (Hpos Hm) as (keptSegs & -> & Hsplit & _).
  cbn [fst snd evictedBy].
  rewrite Hsplit in Hnd2, HF2.
  apply Forall2_app_inv_l in HF2 as (pd & pk & HFd & HFk & ->).
  rewrite map_app in Hnd2. apply NoDup_app in Hnd2 as (_ & Hdisj & Hndk).
  rewrite (Holds_entries _ _ _ HFd).
  rewrite Nat2Z.id.
  assert (Hmap : map entryToChatMessage (concat (pd ++ pk))
                 = msgs ++ [readBack message]).
  { rewrite Hcat, map_app, Hmsgs. reflexivity. }
  split.
  - split; [exact Hndk |]. exists pk. split.
    + apply (Holds_agree _ _ _ _ HFk). intros s Hs. apply Hother.
      intros Hin. apply (Hdisj _ Hin).
      apply list_elem_of_fmap. exists s. split; [reflexivity | exact Hs].
    + rewrite <- Hmap, concat_app, map_app.
      rewrite <- (length_map entryToChatMessage (concat pd)).
      rewrite drop_app_length. reflexivity.
  - rewrite <- Hmap, concat_app, map_app, !length_app, !length_map. lia.
Qed.

Lemma slice_from_end_map {A B} (f : A -> B) (max : Z) (a : list A) :
  map f (slice_from_end max a) = slice_from_end max (map f a).
Proof.
  unfold slice_from_end. rewrite length_map. symmetry. apply skipn_map.
Qed.

Lemma getMessages_dir_retained (cfg : Config) (limit : option Z) (d : ConvDir)
    (msgs : list ChatMessage) :
  Retains d msgs ->
  0 < default (maxMessages cfg) limit ->
  getMessages_dir cfg limit d
  = slice_from_end (default (maxMessages cfg) limit) msgs.
Proof.
  intros (_ & parts & HF & <-) Hmax. unfold getMessages_dir.
  set (max := default (maxMessages cfg) limit) in *.
  destruct (segments (readIndex d)) as [|s0 r0] eqn:Hsegs.
  { inversion HF; subst. unfold slice_from_end. cbn [concat map].
    rewrite drop_nil. reflexivity. }
  rewrite <- Hsegs in HF |- *. clear Hsegs s0 r0.
  (* the loop reads a tail of the parts: all of them, or enough of them *)
  assert (Hloop : forall segsR partsR,
            Forall2 (Holds (segmentFiles d)) segsR partsR ->
            forall acc, exists used unused,
              partsR = used ++ unused
              /\ collect max segsR (segmentFiles d) acc
                 = concat (rev used) ++ acc
              /\ (unused = []
                  \/ max <= Z.of_nat (length (concat (rev used) ++ acc)))).
  { induction 1 as [|seg es segsR partsR [(lines & Hl & Hr) _] _ IH]; intros acc.
    - exists [], []. repeat split. left. reflexivity.
    - cbn [collect]. destruct (Z.of_nat (length acc) <? max) eqn:Hlt.
      + rewrite Hl, Hr.
        destruct (IH (es ++ acc)) as (used & unused & -> & Hc & Hdone).
        exists (es :: used), unused. split; [reflexivity |].
        cbn [rev]. rewrite concat_app. simpl. rewrite app_nil_r, <- app_assoc.
        split; [exact Hc | exact Hdone].
      + apply Z.ltb_ge in Hlt. exists [], (es :: partsR).
        split; [reflexivity |]. split; [reflexivity |]. right. exact Hlt. }
  assert (HFr : Forall2 (Holds (segmentFiles d))
                  (rev (segments (readIndex d))) (rev parts)).
  { clear Hloop. induction HF as [|s es segs parts Hs _ IH]; [constructor |].
    cbn [rev]. apply Forall2_app; [exact IH | constructor; [exact Hs | constructor]]. }
  destruct (Hloop _ _ HFr []) as (used & unused & Hparts & Hc & Hdone).
  rewrite Hc, app_nil_r in *. rewrite slice_from_end_map.
  assert (Hall : parts = rev unused ++ rev used).
  { rewrite <- (rev_involutive parts), Hparts, rev_app_distr. reflexivity. }
  rewrite Hall, concat_app, map_app.
  unfold slice_from_end.
  replace (0 <? max) with true by (symmetry; apply Z.ltb_lt; exact Hmax).
  destruct Hdone as [-> | Hlen].
  - simpl. reflexivity.
  - set (X := map entryToChatMessage (concat (rev unused))).
    set (Y := map entryToChatMessage (concat (rev used))).
    assert (HY : max <= Z.of_nat (length Y))
      by (subst Y; rewrite length_map; exact Hlen).
    rewrite length_app.
    replace (Z.to_nat (Z.max (Z.of_nat (length X + length Y) - max) 0))
      with (length X + Z.to_nat (Z.max (Z.of_nat (length Y) - max) 0))%nat
      by lia.
    rewrite drop_app_add. reflexivity.
Qed.

Lemma emptyDir_retains : Retains emptyDir [].
Proof. split; [constructor |]. exists []. split; [constructor | reflexivity]. Qed.

Lemma Retains_no_segments (d : ConvDir) (msgs : list ChatMessage) :
  Retains d msgs -> segments (readIndex d) = [] -> msgs = [].
Proof.
  intros (_ & parts & HF & <-) Hnil. rewrite Hnil in HF. inversion HF. reflexivity.
Qed.

End WithByteLength.

End HistoryFacts.

(** ** The history store on disk: a directory per path
    (history/file-history-store.ts) *)

Module HistoryDisk.

Import History HistoryFacts.

(** *** The directory of a conversation

    The store finds the directory of a conversation as
    [join(dataDir, channelId, conversationId)].  A directory is given here
    by the segments of its absolute path (POSIX). *)

(** The segments of a text: what stands between its slashes. *)
Fixpoint splitSlash (s : jsstring) : list jsstring :=
  match s with
  | [] => [[]]
  | c :: r =>
      if (c =? 47)%N then [] :: splitSlash r
      else
        match splitSlash r with
        | segment :: segments => (c :: segment) :: segments
        | [] => [[c]]
        end
  end.

(** One segment further: an empty segment and [.] stay in the directory,
    [..] goes up (the root is its own parent), another segment goes down. *)
Definition enter (dir : list jsstring) (segment : jsstring) : list jsstring :=
  if str_eqb segment [] || str_eqb segment (lit ".") then dir
  else if str_eqb segment (lit "..") then removelast dir
  else dir ++ [segment].

Definition join (dataDir : list jsstring) (channelId conversationId : jsstring)
  : list jsstring :=
  foldl enter dataDir (splitSlash channelId ++ splitSlash conversationId).

(** An id without path syntax: not empty, without slash, neither [.] nor
    [..]. *)
Definition plain (id : jsstring) : bool :=
  negb (str_eqb id []) && negb (bool_decide (47%N ∈ id))
  && negb (str_eqb id (lit ".")) && negb (str_eqb id (lit "..")).

(** The first directory lies above the second. *)
Definition above (p q : list jsstring) : bool :=
  (length p <? length q)%nat && bool_decide (take (length p) q = p).

(** None of the directories lies above another one, so that no file of one
    is on the way to another. *)
Definition unnested (dirs : list (list jsstring)) : bool :=
  forallb (fun p => forallb (fun q => negb (above p q)) dirs) dirs.

(** *** The store *)

Section OnDisk.

Variable byteLength : HistoryEntry -> Z.
Variable cfg : Config.

(** The data directory, by the segments of its absolute path. *)
Variable dataDir : list jsstring.

(** The conversation directories that exist, with what they hold. *)
Abbreviation Disk := (gmap (list jsstring) ConvDir).

Definition dirAt (disk : Disk) (path : list jsstring) : ConvDir :=
  default emptyDir (disk !! path).

Definition addMessage (clk : Clock) (channelId conversationId : jsstring)
    (message : ChatMessage) (metadata : option MessageMetadata) (disk : Disk)
  : Disk * Outcome :=
  let dir := join dataDir channelId conversationId in
  let '(d, out) :=
    addMessage_dir byteLength cfg clk message metadata (dirAt disk dir) in
  (<[dir := d]> disk, out).

Definition getMessages (channelId conversationId : jsstring)
    (limit : option Z) (disk : Disk) : list ChatMessage :=
  match disk !! join dataDir channelId conversationId with
  | None => []
  | Some d => getMessages_dir cfg limit d
  end.

Definition clear (channelId conversationId : jsstring) (disk : Disk) : Disk :=
  let dir := join dataDir channelId conversationId in
  match disk !! dir with
  | None => disk
  | Some d => <[dir := clear_dir d]> disk
  end.

(** *** Sequences of [addMessage] calls *)

Definition callDir (c : Call) : list jsstring :=
  join dataDir (call_channelId c) (call_conversationId c).

Definition doCall (c : Call) (disk : Disk) : Disk * Outcome :=
  addMessage (call_clock c) (call_channelId c) (call_conversationId c)
    (call_message c) (call_metadata c) disk.

Definition replay (calls : list Call) (disk : Disk) : Disk :=
  foldl (fun disk c => (doCall c disk).1) disk calls.

(** The entries evicted from the index of a directory in the course of a
    sequence of calls. *)
Fixpoint evictedAt (dir : list jsstring) (calls : list Call) (disk : Disk)
  : Z :=
  match calls with
  | [] => 0
  | c :: rest =>
      let '(disk', out) := doCall c disk in
      (if bool_decide (callDir c = dir) then evictedBy out else 0)
      + evictedAt dir rest disk'
  end.

(** The messages a sequence of calls adds to a directory, under whatever
    ids. *)
Definition messagesAt (dir : list jsstring) (calls : list Call)
  : list ChatMessage :=
  map call_message
    (List.filter (fun c => bool_decide (callDir c = dir)) calls).

(** No call of the sequence opens a segment under a file name that already
    exists in its directory. *)
Fixpoint NoNameReuse (calls : list Call) (disk : Disk) : Prop :=
  match calls with
  | [] => True
  | c :: rest =>
      let d := dirAt disk (callDir c) in
      (opensSegment cfg d = true ->
       segmentFiles d !! (now_stamp (call_clock c) ++ lit ".jsonl") = None)
      /\ NoNameReuse rest (doCall c disk).1
  end.

Lemma messagesAt_cons (dir : list jsstring) (c : Call) (rest : list Call) :
  messagesAt dir (c :: rest)
  = if bool_decide (callDir c = dir)
    then call_message c :: messagesAt dir rest
    else messagesAt dir rest.
Proof. unfold messagesAt. simpl. destruct (bool_decide _); reflexivity. Qed.

Lemma replay_retains (dir : list jsstring) (calls : list Call) :
  forall (disk : Disk) (msgs : list ChatMessage),
  0 <= maxSegments cfg ->
  NoNameReuse calls disk ->
  Retains (dirAt disk dir) msgs ->
  Retains (dirAt (replay calls disk) dir)
    (drop (Z.to_nat (evictedAt dir calls disk))
       (msgs ++ map readBack (messagesAt dir calls)))
  /\ 0 <= evictedAt dir calls disk
     <= Z.of_nat (length (msgs ++ map readBack (messagesAt dir calls))).
Proof.
  induction calls as [|c rest IH]; intros disk msgs Hm Hfresh Hret.
  - simpl. rewrite app_nil_r. split; [exact Hret | lia].
  - destruct Hfresh as [Hc Hrest].
    cbn [replay foldl evictedAt]. fold (replay rest (doCall c disk).1).
    rewrite messagesAt_cons.
    unfold doCall in *. unfold addMessage in *. fold (callDir c) in *.
    pose proof (addMessage_dir_retains byteLength cfg (call_clock c)
                  (call_message c) (call_metadata c)
                  (dirAt disk (callDir c))) as Hstep.
    destruct (addMessage_dir byteLength cfg (call_clock c) (call_message c)
                (call_metadata c) (dirAt disk (callDir c)))
      as [d' out] eqn:Hadd.
    cbn [fst snd] in *.
    case_bool_decide as Hk.
    + rewrite Hk in *.
      destruct (Hstep msgs Hm Hc Hret) as [Hret1 Hb1].
      assert (Hat : dirAt (<[dir := d']> disk) dir = d')
        by (unfold dirAt; rewrite lookup_insert_eq; reflexivity).
      rewrite <- Hat in Hret1.
      destruct (IH _ _ Hm Hrest Hret1) as [Hfin Hb2].
      cbn [map].
      set (e1 := evictedBy out) in *.
      set (e2 := evictedAt dir rest (<[dir := d']> disk)) in *.
      set (R := map readBack (messagesAt dir rest)) in *.
      replace (msgs ++ readBack (call_message c) :: R)
        with ((msgs ++ [readBack (call_message c)]) ++ R)
        by (rewrite <- app_assoc; reflexivity).
      rewrite <- drop_app_le in Hfin, Hb2 by lia.
      rewrite drop_drop in Hfin.
      rewrite length_drop in Hb2.
      replace (Z.to_nat (e1 + e2)) with (Z.to_nat e1 + Z.to_nat e2)%nat by lia.
      split; [exact Hfin |].
      rewrite length_app in Hb2 |- *. lia.
    + assert (Hat : dirAt (<[callDir c := d']> disk) dir = dirAt disk dir)
        by (unfold dirAt; rewrite lookup_insert_ne by exact Hk; reflexivity).
      rewrite <- Hat in Hret.
      destruct (IH _ _ Hm Hrest Hret) as [Hfin Hb2].
      rewrite Z.add_0_l. split; [exact Hfin | exact Hb2].
Qed.

Lemma getMessages_retained (channelId conversationId : jsstring)
    (limit : option Z) (disk : Disk) (msgs : list ChatMessage) :
  Retains (dirAt disk (join dataDir channelId conversationId)) msgs ->
  0 < default (maxMessages cfg) limit ->
  getMessages channelId conversationId limit disk
  = slice_from_end (default (maxMessages cfg) limit) msgs.
Proof.
  intros Hret Hmax. unfold getMessages. unfold dirAt in Hret.
  destruct (disk !! join dataDir channelId conversationId) as [d|];
    cbn [default from_option] in Hret.
  - apply getMessages_dir_retained; assumption.
  - rewrite (Retains_no_segments _ _ Hret eq_refl).
    unfold slice_from_end. rewrite drop_nil. reflexivity.
Qed.

Lemma clear_retains (channelId conversationId : jsstring) (disk : Disk) :
  Retains
    (dirAt (clear channelId conversationId disk)
       (join dataDir channelId conversationId)) [].
Proof.
  unfold clear, dirAt.
  destruct (disk !! join dataDir channelId conversationId) as [d|] eqn:Hd.
  - rewrite lookup_insert_eq. split; [constructor |].
    exists []. split; [constructor | reflexivity].
  - rewrite Hd. exact emptyDir_retains.
Qed.

End OnDisk.

Lemma splitSlash_plain (id : jsstring) :
  47%N ∉ id -> splitSlash id = [id].
Proof.
  induction id as [|c r IH]; intros Hno; [reflexivity |].
  apply not_elem_of_cons in Hno as [Hc Hr]. cbn [splitSlash].
  destruct (N.eqb_spec c 47) as [-> | _]; [congruence |].
  rewrite (IH Hr). reflexivity.
Qed.

Lemma join_plain (dataDir : list jsstring) (channelId conversationId : jsstring) :
  plain channelId = true -> plain conversationId = true ->
  join dataDir channelId conversationId
  = dataDir ++ [channelId; conversationId].
Proof.
  assert (Hstep : forall dir id, plain id = true ->
            foldl enter dir (splitSlash id) = dir ++ [id]).
  { intros dir id Hid. unfold plain in Hid.
    repeat (apply andb_true_iff in Hid as [Hid ?]).
    rewrite splitSlash_plain
      by (intros Hin; rewrite bool_decide_eq_true_2 in * by exact Hin;
          discriminate).
    cbn [foldl]. unfold enter.
    destruct (str_eqb id []); [discriminate |].
    destruct (str_eqb id (lit ".")); [discriminate |].
    destruct (str_eqb id (lit "..")); [discriminate | reflexivity]. }
  intros Hc Hv. unfold join. rewrite foldl_app, !Hstep by assumption.
  rewrite <- app_assoc. reflexivity.
Qed.

(** X3: from an empty store, when the bound on segments is not negative,
    no roll-over reuses an existing file name and no directory involved
    lies above another, [getMessages] with a positive limit returns the
    last [limit] of the messages added to the directory the two ids name,
    under whatever ids, and still retained, oldest first, each as read back
    from its entry; the retained messages are all but the first
    [evictedAt].  Two ids without path syntax name the directory
    [dataDir/channelId/conversationId], which no other such pair names. *)
Theorem getMessages_returns_latest (byteLength : HistoryEntry -> Z)
    (cfg : Config) (dataDir : list jsstring) (calls : list Call)
    (channelId conversationId : jsstring) (limit : option Z) :
  0 <= maxSegments cfg ->
  NoNameReuse byteLength cfg dataDir calls ∅ ->
  unnested (join dataDir channelId conversationId
            :: map (callDir dataDir) calls) = true ->
  0 < default (maxMessages cfg) limit ->
  let dir := join dataDir channelId conversationId in
  getMessages cfg dataDir channelId conversationId limit
    (replay byteLength cfg dataDir calls ∅)
  = slice_from_end (default (maxMessages cfg) limit)
      (drop (Z.to_nat (evictedAt byteLength cfg dataDir dir calls ∅))
         (map readBack (messagesAt dataDir dir calls)))
  /\ (plain channelId = true -> plain conversationId = true ->
      dir = dataDir ++ [channelId; conversationId]
      /\ forall channelId' conversationId',
           plain channelId' = true -> plain conversationId' = true ->
           join dataDir channelId' conversationId' = dir ->
           channelId' = channelId /\ conversationId' = conversationId).
Proof.
  intros Hm Hfresh _ Hmax dir. split.
  - assert (H0 : Retains (dirAt ∅ dir) []).
    { unfold dirAt. rewrite lookup_empty. exact emptyDir_retains. }
    destruct (replay_retains byteLength cfg dataDir dir calls ∅ [] Hm Hfresh H0)
      as [Hret _].
    cbn [app] in Hret. apply getMessages_retained; assumption.
  - intros Hc Hv. subst dir. rewrite (join_plain _ _ _ Hc Hv).
    split; [reflexivity |].
    intros channelId' conversationId' Hc' Hv' Hsame.
    rewrite (join_plain _ _ _ Hc' Hv') in Hsame.
    apply app_inv_head in Hsame. injection Hsame as -> ->. split; reflexivity.
Qed.

(** Two messages of a Telegram conversation, one second apart, and one of
    a web conversation; the store keeps two segments of at most one byte
    each. *)
Definition historyDir : list jsstring := [lit "data"; lit "history"].

Definition telegramCall (stamp text : string) : Call :=
  {| call_channelId := lit "telegram"; call_conversationId := lit "12345";
     call_clock := {| now_iso := lit stamp; now_stamp := lit stamp |};
     call_message := userMessage text; call_metadata := None |}.

Definition threeCalls : list Call :=
  [ telegramCall "2026-01-01T00-00-01Z" "one";
    callAt "2026-01-01T00-00-02Z" (userMessage "two");
    telegramCall "2026-01-01T00-00-03Z" "three" ].

Definition twoSmallSegments : Config :=
  {| maxMessages := 100; maxSegmentSizeBytes := 1; maxSegments := 2 |}.

(** The theorem at a web conversation whose id leads into the directory of
    the Telegram conversation. *)
Lemma getMessages_returns_latest_witness :
  0 <= maxSegments twoSmallSegments
  /\ NoNameReuse (fun _ => 64) twoSmallSegments historyDir threeCalls ∅
  /\ unnested (join historyDir (lit "web") (lit "../telegram/12345")
               :: map (callDir historyDir) threeCalls) = true
  /\ 0 < default (maxMessages twoSmallSegments) (Some 5)
  /\ getMessages twoSmallSegments historyDir (lit "web")
       (lit "../telegram/12345") (Some 5)
       (replay (fun _ => 64) twoSmallSegments historyDir threeCalls ∅)
     = slice_from_end (default (maxMessages twoSmallSegments) (Some 5))
         (drop (Z.to_nat (evictedAt (fun _ => 64) twoSmallSegments historyDir
                            (join historyDir (lit "web")
                               (lit "../telegram/12345")) threeCalls ∅))
            (map readBack
               (messagesAt historyDir
                  (join historyDir (lit "web") (lit "../telegram/12345"))
                  threeCalls)))
  /\ getMessages twoSmallSegments historyDir (lit "web")
       (lit "../telegram/12345") (Some 5)
       (replay (fun _ => 64) twoSmallSegments historyDir threeCalls ∅)
     = [userMessage "one"; userMessage "three"].
Proof.
  assert (H1 : 0 <= maxSegments twoSmallSegments) by (simpl; lia).
  assert (H2 : NoNameReuse (fun _ => 64) twoSmallSegments historyDir
                 threeCalls ∅).
  { vm_compute. repeat split. }
  assert (H3 : unnested (join historyDir (lit "web") (lit "../telegram/12345")
                         :: map (callDir historyDir) threeCalls) = true)
    by (vm_compute; reflexivity).
  assert (H4 : 0 < default (maxMessages twoSmallSegments) (Some 5))
    by (simpl; lia).
  split; [exact H1 | split; [exact H2 | split; [exact H3 | split; [exact H4 |]]]].
  split.
  - exact (proj1 (getMessages_returns_latest (fun _ => 64) twoSmallSegments
                    historyDir threeCalls (lit "web")
                    (lit "../telegram/12345") (Some 5) H1 H2 H3 H4)).
  - vm_compute. reflexivity.
Defined.

(** X4: [clear] forgets the directory the two ids name: whatever calls
    filled the store, after [clear] the conversation reads back nothing,
    and later only the messages added to that directory afterwards, under
    whatever ids (the last [limit] of those still retained); this under a
    bound on segments that is not negative, as long as no roll-over reuses
    the name of a file left in its directory and no directory involved lies
    above another. *)
Theorem clear_forgets (byteLength : HistoryEntry -> Z) (cfg : Config)
    (dataDir : list jsstring) (earlier calls : list Call)
    (channelId conversationId : jsstring) (limit : option Z) :
  let dir := join dataDir channelId conversationId in
  let cleared :=
    clear dataDir channelId conversationId
      (replay byteLength cfg dataDir earlier ∅) in
  0 <= maxSegments cfg ->
  NoNameReuse byteLength cfg dataDir calls cleared ->
  unnested (dir :: map (callDir dataDir) (earlier ++ calls)) = true ->
  getMessages cfg dataDir channelId conversationId limit cleared = []
  /\ (0 < default (maxMessages cfg) limit ->
      getMessages cfg dataDir channelId conversationId limit
        (replay byteLength cfg dataDir calls cleared)
      = slice_from_end (default (maxMessages cfg) limit)
          (drop (Z.to_nat (evictedAt byteLength cfg dataDir dir calls cleared))
             (map readBack (messagesAt dataDir dir calls)))).
Proof.
  intros dir cleared Hm Hfresh _. split.
  - subst cleared dir. unfold getMessages, clear.
    destruct (replay byteLength cfg dataDir earlier ∅
                !! join dataDir channelId conversationId) as [d|] eqn:Hd.
    + rewrite lookup_insert_eq. reflexivity.
    + rewrite Hd. reflexivity.
  - intros Hmax.
    destruct (replay_retains byteLength cfg dataDir dir calls cleared [] Hm
                Hfresh (clear_retains dataDir channelId conversationId _))
      as [Hret _].
    cbn [app] in Hret. apply getMessages_retained; assumption.
Qed.

(** The theorem on the store the three calls leave: the web conversation
    with the id that leads to the Telegram conversation is cleared, then the
    Telegram conversation gets one more message. *)
Definition oneMoreCall : list Call :=
  [ telegramCall "2026-01-01T00-00-04Z" "four" ].

Lemma clear_forgets_witness :
  let cleared :=
    clear historyDir (lit "web") (lit "../telegram/12345")
      (replay (fun _ => 64) twoSmallSegments historyDir threeCalls ∅) in
  0 <= maxSegments twoSmallSegments
  /\ NoNameReuse (fun _ => 64) twoSmallSegments historyDir oneMoreCall cleared
  /\ unnested (join historyDir (lit "web") (lit "../telegram/12345")
               :: map (callDir historyDir) (threeCalls ++ oneMoreCall)) = true
  /\ getMessages twoSmallSegments historyDir (lit "telegram") (lit "12345")
       None cleared = []
  /\ getMessages twoSmallSegments historyDir (lit "web")
       (lit "../telegram/12345") None
       (replay (fun _ => 64) twoSmallSegments historyDir oneMoreCall cleared)
     = [userMessage "four"].
Proof.
  cbv zeta.
  assert (H1 : 0 <= maxSegments twoSmallSegments) by (simpl; lia).
  assert (H2 : NoNameReuse (fun _ => 64) twoSmallSegments historyDir
                 oneMoreCall
                 (clear historyDir (lit "web") (lit "../telegram/12345")
                    (replay (fun _ => 64) twoSmallSegments historyDir
                       threeCalls ∅))).
  { vm_compute. repeat split. }
  assert (H3 : unnested (join historyDir (lit "web") (lit "../telegram/12345")
                         :: map (callDir historyDir)
                              (threeCalls ++ oneMoreCall)) = true)
    by (vm_compute; reflexivity).
  split; [exact H1 | split; [exact H2 | split; [exact H3 |]]].
  destruct (clear_forgets (fun _ => 64) twoSmallSegments historyDir threeCalls
              oneMoreCall (lit "web") (lit "../telegram/12345") None
              H1 H2 H3) as [Hempty Hlater].
  split; [vm_compute; reflexivity |].
  rewrite Hlater by (simpl; lia). vm_compute. reflexivity.
Defined.

End HistoryDisk.


(** ** Watchdog: heartbeat check and restart rate limit (watchdog.ts) *)

Module Watchdog.

(** The heartbeat file as [readHeartbeat] finds it: missing; reading it,
    parsing it or reading a field of what it parses to throws, with the text
    of the error; or it parses to a value, of which [pid] and [timestamp]
    are given when they are numbers. *)
Inductive HeartbeatFile :=
| Missing
| Unreadable (err : jsstring)
| Payload (pid timestamp : option Z).

Inductive HeartbeatResult :=
| HbOk (pid timestamp : Z)
| HbError (error : jsstring).

Definition readHeartbeat (f : HeartbeatFile) : HeartbeatResult :=
  match f with
  | Missing => HbError (lit "Heartbeat file does not exist")
  | Unreadable err => HbError (lit "Failed to read heartbeat: " ++ err)
  | Payload (Some pid) (Some timestamp) => HbOk pid timestamp
  | Payload _ _ => HbError (lit "Invalid heartbeat payload")
  end.

(** The fields of the configuration the monitoring loop reads.  The
    heartbeat timeout is kept in seconds, as parsed: [loadConfig] multiplies
    it by 1000. *)
Record WatchdogConfig := {
  heartbeatTimeoutSec : Z;
  maxRestarts : Z;
  restartWindowMs : Z;
  healthUrl : jsstring;
}.

Definition heartbeatTimeoutMs (config : WatchdogConfig) : Z :=
  heartbeatTimeoutSec config * 1000.

(** *** RestartTracker *)

(** The pruning loop: shift while the first timestamp is before the
    cutoff. *)
Fixpoint shiftWhile (cutoff : Z) (timestamps : list Z) : list Z :=
  match timestamps with
  | [] => []
  | t :: rest => if t <? cutoff then shiftWhile cutoff rest else timestamps
  end.

(** [recordAndCheck] with [Date.now()] reading [now]: the timestamps it
    leaves and its answer. *)
Definition recordAndCheck (config : WatchdogConfig) (now : Z)
    (timestamps : list Z) : list Z * bool :=
  let pruned :=
    shiftWhile (now - restartWindowMs config) (timestamps ++ [now]) in
  (pruned, Z.of_nat (length pruned) <=? maxRestarts config).

Definition recentCount (config : WatchdogConfig) (now : Z)
    (timestamps : list Z) : Z :=
  Z.of_nat
    (length (List.filter (fun t => now - restartWindowMs config <=? t)
               timestamps)).

(** The timestamps of a tracker after attempts at these clock readings. *)
Definition trackerAfter (config : WatchdogConfig) (times : list Z) : list Z :=
  foldl (fun timestamps now => (recordAndCheck config now timestamps).1) []
    times.

(** Each reading of the clock is at least every earlier one. *)
Fixpoint ascending (times : list Z) : Prop :=
  match times with
  | [] => True
  | t :: later => Forall (Z.le t) later /\ ascending later
  end.

(** *** One cycle of the monitoring loop *)

Section WithProcess.

(** [String(n)] for an integer, and [process.pid] of the watchdog. *)
Variable numberToString : Z -> jsstring.
Variable watchdogPid : Z.

(** What a cycle reads from outside, in the order it reads it: the heartbeat
    file; the clock for the age of the heartbeat; whether the heartbeat's
    process is alive; the answer of the health endpoint; the clock in
    [recordAndCheck]; whether the heartbeat's process and the tracked child
    are alive before they are killed; the pid of the host spawned, when it
    has one; the clock in [recentCount] and in [writeRecoveryEvent]; and
    whether the event file could be written. *)
Record Cycle := {
  heartbeatFile : HeartbeatFile;
  nowAge : Z;
  pidAlive : bool;
  httpOk : bool;
  nowRecord : Z;
  pidAliveStill : bool;
  childAlive : bool;
  spawned : option Z;
  nowCount : Z;
  nowWritten : Z;
  writeOk : bool;
}.

Record State := {
  paused : bool;
  timestamps : list Z;
  hostProcess : option Z;
}.

(** The state [main] enters the loop with. *)
Definition initial (child : option Z) : State :=
  {| paused := false; timestamps := []; hostProcess := child |}.

Record WrittenEvent := {
  ev_timestamp : Z;
  ev_reason : jsstring;
  ev_restartCount : Z;
  ev_watchdogPid : Z;
}.

(** What a cycle did: nothing, being paused; found the host healthy, with
    or without a warning about the health endpoint; refused the restart it
    found necessary; or restarted the host, after a SIGTERM to these pids,
    and wrote this recovery event (none when the write failed). *)
Inductive Outcome :=
| SkippedPaused
| Healthy (warned : bool)
| Refused (reason : jsstring)
| Restarted (reason : jsstring) (killed : list Z) (event : option WrittenEvent).

(** [Math.round(ageMs / 1000)] of an integer. *)
Definition roundSeconds (ageMs : Z) : Z := (ageMs + 500) / 1000.

Definition staleReason (config : WatchdogConfig) (ageMs : Z) : jsstring :=
  lit "Heartbeat stale (age: " ++ numberToString (roundSeconds ageMs)
  ++ lit "s, threshold: " ++ numberToString (heartbeatTimeoutSec config)
  ++ lit "s)".

Definition notAliveReason (pid : Z) : jsstring :=
  lit "Host PID " ++ numberToString pid ++ lit " is not alive".

(** Check 1: the reason for a restart, if there is one. *)
Definition diagnose (config : WatchdogConfig) (c : Cycle) : option jsstring :=
  match readHeartbeat (heartbeatFile c) with
  | HbError error => Some error
  | HbOk pid timestamp =>
      let ageMs := nowAge c - timestamp in
      if heartbeatTimeoutMs config <? ageMs
      then Some (staleReason config ageMs)
      else if negb (pidAlive c) then Some (notAliveReason pid)
      else None
  end.

Definition killedPids (c : Cycle) (s : State) : list Z :=
  (match readHeartbeat (heartbeatFile c) with
   | HbOk pid _ => if pidAliveStill c then [pid] else []
   | HbError _ => []
   end)
  ++ (match hostProcess s with
      | Some pid => if negb (pid =? 0) && childAlive c then [pid] else []
      | None => []
      end).

Definition checkHealth (config : WatchdogConfig) (c : Cycle) (s : State)
  : State * Outcome :=
  if paused s then
    ({| paused := false; timestamps := timestamps s;
        hostProcess := hostProcess s |}, SkippedPaused)
  else
    match diagnose config c with
    | None => (s, Healthy (truthy (healthUrl config) && negb (httpOk c)))
    | Some reason =>
        let '(kept, withinLimits) :=
          recordAndCheck config (nowRecord c) (timestamps s) in
        if negb withinLimits then
          ({| paused := true; timestamps := kept;
              hostProcess := hostProcess s |}, Refused reason)
        else
          let event :=
            {| ev_timestamp := nowWritten c;
               ev_reason := reason;
               ev_restartCount := recentCount config (nowCount c) kept;
               ev_watchdogPid := watchdogPid |} in
          ({| paused := false; timestamps := kept; hostProcess := spawned c |},
           Restarted reason (killedPids c s)
             (if writeOk c then Some event else None))
    end.

(** The cycles of a run, one after the other. *)
Fixpoint run (config : WatchdogConfig) (cycles : list Cycle) (s : State)
  : list Outcome :=
  match cycles with
  | [] => []
  | c :: rest =>
      let '(s', outcome) := checkHealth config c s in
      outcome :: run config rest s'
  end.

Definition isRestarted (outcome : Outcome) : bool :=
  match outcome with Restarted _ _ _ => true | _ => false end.

Definition isRefused (outcome : Outcome) : bool :=
  match outcome with Refused _ => true | _ => false end.

(** The clock readings of the cycles of a run that restarted the host. *)
Fixpoint restartTimes (config : WatchdogConfig) (cycles : list Cycle)
    (s : State) : list Z :=
  match cycles with
  | [] => []
  | c :: rest =>
      let '(s', outcome) := checkHealth config c s in
      (if isRestarted outcome then [nowRecord c] else [])
      ++ restartTimes config rest s'
  end.

Definition stateAfter (config : WatchdogConfig) (cycles : list Cycle)
    (s : State) : State :=
  foldl (fun s c => (checkHealth config c s).1) s cycles.

End WithProcess.

(** The timestamps at or after the cutoff. *)
Definition since (cutoff : Z) (times : list Z) : list Z :=
  List.filter (fun t => cutoff <=? t) times.

Lemma since_app (cutoff : Z) (a b : list Z) :
  since cutoff (a ++ b) = since cutoff a ++ since cutoff b.
Proof. apply List.filter_app. Qed.

Lemma since_all (cutoff : Z) (times : list Z) :
  Forall (Z.le cutoff) times -> since cutoff times = times.
Proof.
  induction 1 as [|t r Ht _ IH]; [reflexivity |].
  unfold since in *. cbn [List.filter].
  replace (cutoff <=? t) with true by (symmetry; apply Z.leb_le; exact Ht).
  rewrite IH. reflexivity.
Qed.

Lemma since_since (c c' : Z) (times : list Z) :
  c <= c' -> since c' (since c times) = since c' times.
Proof.
  intros Hc. induction times as [|t r IH]; [reflexivity |].
  unfold since in *. cbn [List.filter].
  destruct (c <=? t) eqn:Ht.
  - cbn [List.filter]. rewrite IH. reflexivity.
  - rewrite IH. replace (c' <=? t) with false; [reflexivity |].
    symmetry. apply Z.leb_gt. apply Z.leb_gt in Ht. lia.
Qed.

Lemma since_Forall (P : Z -> Prop) (cutoff : Z) (times : list Z) :
  Forall P times -> Forall P (since cutoff times).
Proof.
  induction 1 as [|t r Ht _ IH]; [constructor |].
  unfold since in *. cbn [List.filter].
  destruct (cutoff <=? t); [constructor; assumption | assumption].
Qed.

Lemma since_ascending (cutoff : Z) (times : list Z) :
  ascending times -> ascending (since cutoff times).
Proof.
  induction times as [|t r IH]; [intros; exact I |].
  intros [Ht Hr]. unfold since in *. cbn [List.filter].
  destruct (cutoff <=? t); [| exact (IH Hr)].
  split; [apply (since_Forall _ cutoff r Ht) | exact (IH Hr)].
Qed.

Lemma ascending_snoc (times : list Z) (now : Z) :
  ascending times -> Forall (fun t => t <= now) times ->
  ascending (times ++ [now]).
Proof.
  induction times as [|t r IH]; intros Ha Hb.
  - split; [constructor | exact I].
  - destruct Ha as [Ht Hr]. inversion Hb as [|? ? Htn Hrn]; subst.
    split; [| exact (IH Hr Hrn)].
    apply Forall_app. split; [exact Ht | constructor; [exact Htn | constructor]].
Qed.

Lemma ascending_snoc_inv (times : list Z) (now : Z) :
  ascending (times ++ [now]) ->
  ascending times /\ Forall (fun t => t <= now) times.
Proof.
  induction times as [|t r IH]; [intros; split; [exact I | constructor] |].
  intros [Ht Hr]. apply Forall_app in Ht as [Ht Hn].
  destruct (IH Hr) as [Ha Hb]. inversion Hn; subst.
  split; [split; assumption | constructor; assumption].
Qed.

(** On ascending timestamps the pruning loop keeps exactly those at or
    after the cutoff. *)
Lemma shiftWhile_since (cutoff : Z) (times : list Z) :
  ascending times -> shiftWhile cutoff times = since cutoff times.
Proof.
  induction times as [|t r IH]; [reflexivity |].
  intros [Ht Hr]. unfold since in *. cbn [shiftWhile List.filter].
  destruct (t <? cutoff) eqn:Hlt.
  - apply Z.ltb_lt in Hlt.
    replace (cutoff <=? t) with false by (symmetry; apply Z.leb_gt; exact Hlt).
    exact (IH Hr).
  - apply Z.ltb_ge in Hlt.
    replace (cutoff <=? t) with true by (symmetry; apply Z.leb_le; exact Hlt).
    f_equal. symmetry. apply since_all.
    eapply Forall_impl; [exact Ht |]. intros u Hu. simpl in Hu. lia.
Qed.

Lemma recordAndCheck_since (config : WatchdogConfig) (now : Z)
    (timestamps : list Z) :
  ascending (timestamps ++ [now]) ->
  (recordAndCheck config now timestamps).1
  = since (now - restartWindowMs config) (timestamps ++ [now]).
Proof. intros H. unfold recordAndCheck. cbn [fst]. apply shiftWhile_since, H. Qed.

(** After attempts at ascending clock readings the tracker holds the
    attempts of the window that ended at the last one. *)
Lemma trackerAfter_since (config : WatchdogConfig) (earlier : list Z)
    (now : Z) :
  ascending (earlier ++ [now]) ->
  trackerAfter config (earlier ++ [now])
  = since (now - restartWindowMs config) (earlier ++ [now]).
Proof.
  revert now. induction earlier as [|prev init IH] using rev_ind; intros now Ha.
  - unfold trackerAfter. cbn [app foldl]. apply recordAndCheck_since. exact Ha.
  - unfold trackerAfter in *. rewrite foldl_app. cbn [foldl].
    apply ascending_snoc_inv in Ha as [Ha Hb].
    rewrite (IH prev Ha).
    assert (Hprev : prev <= now).
    { apply Forall_app in Hb as [_ Hb]. inversion Hb; subst. assumption. }
    rewrite recordAndCheck_since.
    + rewrite since_app, since_since by lia. rewrite <- since_app. reflexivity.
    + apply ascending_snoc.
      * apply since_ascending. exact Ha.
      * apply since_Forall. exact Hb.
Qed.

(** X5: with a clock that does not go back, [recordAndCheck] answers whether
    the attempts made within the last [restartWindowMs], this one and the
    refused ones among them, are at most [maxRestarts]; and it leaves those
    attempts, and no other, in the tracker. *)
Theorem recordAndCheck_counts_window (config : WatchdogConfig)
    (earlier : list Z) (now : Z) :
  ascending (earlier ++ [now]) ->
  let recent := since (now - restartWindowMs config) (earlier ++ [now]) in
  recordAndCheck config now (trackerAfter config earlier)
  = (recent, Z.of_nat (length recent) <=? maxRestarts config).
Proof.
  intros Ha recent.
  pose proof (trackerAfter_since config earlier now Ha) as H.
  unfold trackerAfter in H. rewrite foldl_app in H. cbn [foldl] in H.
  fold (trackerAfter config earlier) in H. fold recent in H.
  unfold recordAndCheck in *. cbn [fst] in H. rewrite H. reflexivity.
Qed.

(** Five attempts a minute apart and a sixth, with the defaults of
    [loadConfig]: the sixth attempt is refused. *)
Definition defaults : WatchdogConfig :=
  {| heartbeatTimeoutSec := 60; maxRestarts := 5; restartWindowMs := 300000;
     healthUrl := lit "http://localhost:3001/health" |}.

Lemma recordAndCheck_counts_window_witness :
  ascending ([0; 60000; 120000; 180000; 240000] ++ [300000])
  /\ recordAndCheck defaults 300000
       (trackerAfter defaults [0; 60000; 120000; 180000; 240000])
     = ([0; 60000; 120000; 180000; 240000; 300000], false).
Proof.
  assert (H : ascending ([0; 60000; 120000; 180000; 240000] ++ [300000])).
  { simpl. repeat split; repeat constructor; lia. }
  split; [exact H |].
  rewrite (recordAndCheck_counts_window defaults _ _ H). reflexivity.
Defined.

(** *** Runs of the monitoring loop *)

Section Runs.

Variable numberToString : Z -> jsstring.
Variable watchdogPid : Z.
Variable config : WatchdogConfig.

(** The tracker bounds the restarts: its timestamps ascend up to [b], and
    from any cutoff on within a window of [b] it holds at least as many
    timestamps as there were restarts. *)
Definition Limited (s : State) (b : Z) (restarts : list Z) : Prop :=
  ascending (timestamps s)
  /\ Forall (fun t => t <= b) (timestamps s)
  /\ forall cutoff, b - restartWindowMs config <= cutoff ->
       (length (since cutoff restarts)
        <= length (since cutoff (timestamps s)))%nat.

Lemma Limited_later (s : State) (b b' : Z) (restarts : list Z) :
  Limited s b restarts -> b <= b' -> Limited s b' restarts.
Proof.
  intros (Ha & Hb & Hc) Hle. split; [exact Ha |]. split.
  - eapply Forall_impl; [exact Hb |]. intros t Ht. simpl in Ht. lia.
  - intros cutoff Hcut. apply Hc. lia.
Qed.

Lemma checkHealth_limited (c : Cycle) (s : State) (b : Z) (restarts : list Z) :
  Limited s b restarts -> b <= nowRecord c ->
  let result := checkHealth numberToString watchdogPid config c s in
  let restarts' :=
    restarts ++ (if isRestarted result.2 then [nowRecord c] else []) in
  Limited result.1 (nowRecord c) restarts'
  /\ (isRestarted result.2 = true ->
      Z.of_nat
        (length (since (nowRecord c - restartWindowMs config)
                   (restarts ++ [nowRecord c])))
      <= maxRestarts config).
Proof.
  intros HL Hb result restarts'. subst result restarts'.
  unfold checkHealth.
  destruct (paused s).
  { cbn [fst snd isRestarted]. rewrite app_nil_r.
    split; [| discriminate]. apply (Limited_later s b); [| exact Hb].
    exact HL. }
  destruct (diagnose numberToString config c) as [reason|].
  2:{ cbn [fst snd isRestarted]. rewrite app_nil_r.
      split; [| discriminate]. apply (Limited_later s b); assumption. }
  destruct HL as (Ha & Hle & Hc).
  assert (Hasc : ascending (timestamps s ++ [nowRecord c])).
  { apply ascending_snoc; [exact Ha |].
    eapply Forall_impl; [exact Hle |]. intros t Ht. simpl in Ht. lia. }
  pose proof (recordAndCheck_since config (nowRecord c) (timestamps s) Hasc)
    as Hkept.
  destruct (recordAndCheck config (nowRecord c) (timestamps s))
    as [kept withinLimits] eqn:Hrec.
  cbn [fst] in Hkept.
  assert (Hwithin : withinLimits = true ->
                    Z.of_nat (length kept) <= maxRestarts config).
  { intros ->. unfold recordAndCheck in Hrec. injection Hrec as Hk Hw.
    rewrite Hk in Hw. apply Z.leb_le. exact Hw. }
  set (cut := nowRecord c - restartWindowMs config) in *.
  assert (Hcount : forall cutoff extra, cut <= cutoff ->
            (length extra <= length (since cutoff [nowRecord c]))%nat ->
            (length (since cutoff restarts ++ extra)
             <= length (since cutoff kept))%nat).
  { intros cutoff extra Hcut Hextra. rewrite Hkept.
    rewrite since_since, since_app by exact Hcut.
    rewrite !length_app.
    assert (b - restartWindowMs config <= cutoff) by (subst cut; lia).
    specialize (Hc cutoff H). lia. }
  assert (HL' : forall restarts',
            (forall cutoff, cut <= cutoff ->
               (length (since cutoff restarts')
                <= length (since cutoff kept))%nat) ->
            Limited {| paused := negb withinLimits; timestamps := kept;
                       hostProcess := if withinLimits then spawned c
                                      else hostProcess s |}
              (nowRecord c) restarts').
  { intros restarts' H. split; [| split].
    - cbn [timestamps]. rewrite Hkept. apply since_ascending. exact Hasc.
    - cbn [timestamps]. rewrite Hkept. apply since_Forall.
      apply ascending_snoc_inv in Hasc as [_ Hall].
      apply Forall_app. split; [exact Hall | constructor; [lia | constructor]].
    - cbn [timestamps]. exact H. }
  destruct withinLimits; cbn [negb fst snd isRestarted].
  - split.
    + apply (HL' (restarts ++ [nowRecord c])). intros cutoff Hcut.
      rewrite since_app. apply Hcount; [exact Hcut | reflexivity].
    + intros _. specialize (Hwithin eq_refl).
      pose proof (Hcount cut (since cut [nowRecord c]) (Z.le_refl _)
                    (le_n _)) as H.
      rewrite <- since_app in H.
      assert (Hk : since cut kept = kept)
        by (rewrite Hkept; apply since_since; lia).
      rewrite Hk in H. lia.
  - split; [| discriminate]. rewrite app_nil_r.
    apply (HL' restarts). intros cutoff Hcut.
    pose proof (Hcount cutoff [] Hcut (Nat.le_0_l _)) as H.
    rewrite app_nil_r in H. exact H.
Qed.

Lemma run_limited (pre : list Cycle) (c : Cycle) (s : State) (b : Z)
    (restarts : list Z) :
  Limited s b restarts ->
  ascending (b :: map nowRecord (pre ++ [c])) ->
  isRestarted
    (checkHealth numberToString watchdogPid config c
       (stateAfter numberToString watchdogPid config pre s)).2 = true ->
  Z.of_nat
    (length (since (nowRecord c - restartWindowMs config)
               ((restarts
                 ++ restartTimes numberToString watchdogPid config pre s)
                ++ [nowRecord c])))
  <= maxRestarts config.
Proof.
  revert s b restarts.
  induction pre as [|c0 pre IH]; intros s b restarts HL Hasc Hres.
  - cbn [restartTimes stateAfter foldl] in *. rewrite app_nil_r.
    destruct Hasc as [Hb _]. inversion Hb; subst.
    exact (proj2 (checkHealth_limited c s b restarts HL ltac:(assumption)) Hres).
  - cbn [restartTimes]. unfold stateAfter in *. cbn [foldl] in Hres.
    destruct Hasc as [Hb Hasc]. cbn [app map] in Hb, Hasc.
    inversion Hb as [|? ? Hb0 _]; subst.
    pose proof (proj1 (checkHealth_limited c0 s b restarts HL Hb0)) as HL'.
    destruct (checkHealth numberToString watchdogPid config c0 s)
      as [s' outcome].
    cbn [fst snd] in *. rewrite app_assoc.
    exact (IH s' (nowRecord c0) _ HL' Hasc Hres).
Qed.

Lemma initial_limited (child : option Z) (b : Z) : Limited (initial child) b [].
Proof.
  split; [exact I |]. split; [constructor |]. intros cutoff _. apply le_n.
Qed.

(** The first outcome of a run tells whether the loop was paused, and the
    pause flag a cycle leaves tells whether it refused a restart. *)
Lemma checkHealth_paused (c : Cycle) (s : State) :
  let result := checkHealth numberToString watchdogPid config c s in
  paused result.1 = isRefused result.2
  /\ (result.2 = SkippedPaused <-> paused s = true).
Proof.
  unfold checkHealth. destruct (paused s) eqn:Hp.
  - cbn. split; [reflexivity | split; reflexivity].
  - destruct (diagnose numberToString config c) as [reason|].
    + destruct (recordAndCheck config (nowRecord c) (timestamps s))
        as [kept withinLimits].
      destruct withinLimits; cbn; (split; [reflexivity | split; discriminate]).
    + cbn. split; [exact Hp | split; discriminate].
Qed.

Lemma run_skips_after_refusal (cycles : list Cycle) (s : State) (i : nat)
    (outcome next : Outcome) :
  run numberToString watchdogPid config cycles s !! i = Some outcome ->
  run numberToString watchdogPid config cycles s !! S i = Some next ->
  next = SkippedPaused <-> isRefused outcome = true.
Proof.
  revert s i. induction cycles as [|c rest IH]; intros s i Ho Hn.
  - discriminate.
  - cbn [run] in Ho, Hn.
    pose proof (checkHealth_paused c s) as [Hp _].
    destruct (checkHealth numberToString watchdogPid config c s)
      as [s' o] eqn:Hc.
    cbn [fst snd] in Hp. destruct i as [|i].
    + injection Ho as <-. destruct rest as [|c' rest']; [discriminate |].
      cbn [run] in Hn. pose proof (checkHealth_paused c' s') as [_ Hs].
      destruct (checkHealth numberToString watchdogPid config c' s')
        as [s'' o'].
      injection Hn as <-. cbn [snd] in Hs. rewrite Hs, Hp. reflexivity.
    + exact (IH s' i Ho Hn).
Qed.

End Runs.

(** X6: with a clock that does not go back, whenever a cycle of the
    monitoring loop restarts the host, the restarts made within the last
    [restartWindowMs], this one included, are at most [maxRestarts]. *)
Theorem restarts_within_limit (numberToString : Z -> jsstring)
    (watchdogPid : Z) (config : WatchdogConfig) (child : option Z)
    (pre : list Cycle) (c : Cycle) (reason : jsstring) (killed : list Z)
    (event : option WrittenEvent) :
  ascending (map nowRecord (pre ++ [c])) ->
  (checkHealth numberToString watchdogPid config c
     (stateAfter numberToString watchdogPid config pre (initial child))).2
  = Restarted reason killed event ->
  Z.of_nat
    (length (since (nowRecord c - restartWindowMs config)
               (restartTimes numberToString watchdogPid config pre
                  (initial child)
                ++ [nowRecord c])))
  <= maxRestarts config.
Proof.
  intros Hasc Hres.
  set (b := match pre with [] => nowRecord c | c0 :: _ => nowRecord c0 end).
  assert (Hb : ascending (b :: map nowRecord (pre ++ [c]))).
  { split; [| exact Hasc]. subst b. destruct pre as [|c0 pre'].
    - constructor; [lia | constructor].
    - cbn [app map] in *. destruct Hasc as [H0 _].
      constructor; [lia | exact H0]. }
  apply (run_limited numberToString watchdogPid config pre c (initial child)
           b [] (initial_limited config child b) Hb).
  rewrite Hres. reflexivity.
Qed.

(** A host whose heartbeat file is missing at every cycle, a minute
    apart. *)
Definition deadHostAt (now : Z) : Cycle :=
  {| heartbeatFile := Missing; nowAge := now; pidAlive := false;
     httpOk := false; nowRecord := now; pidAliveStill := false;
     childAlive := false; spawned := Some 4242; nowCount := now;
     nowWritten := now; writeOk := true |}.

(** [String(n)] for the integers of the examples, up to twenty digits. *)
Fixpoint decimalDigits (fuel : nat) (n : Z) (acc : jsstring) : jsstring :=
  match fuel with
  | O => acc
  | S fuel' =>
      let acc' := Z.to_N (48 + n mod 10) :: acc in
      if n / 10 =? 0 then acc' else decimalDigits fuel' (n / 10) acc'
  end.

Definition decimal (n : Z) : jsstring :=
  if n <? 0 then 45%N :: decimalDigits 20 (- n) [] else decimalDigits 20 n [].

Lemma restarts_within_limit_witness :
  let pre := map deadHostAt [0; 60000] in
  let c := deadHostAt 120000 in
  ascending (map nowRecord (pre ++ [c]))
  /\ (checkHealth decimal 1 defaults c
        (stateAfter decimal 1 defaults pre (initial (Some 4242)))).2
     = Restarted (lit "Heartbeat file does not exist") []
         (Some {| ev_timestamp := 120000;
                  ev_reason := lit "Heartbeat file does not exist";
                  ev_restartCount := 3; ev_watchdogPid := 1 |})
  /\ Z.of_nat
       (length (since (nowRecord c - restartWindowMs defaults)
                  (restartTimes decimal 1 defaults pre (initial (Some 4242))
                   ++ [nowRecord c])))
     <= maxRestarts defaults.
Proof.
  cbv zeta.
  assert (H1 : ascending
                 (map nowRecord
                    (map deadHostAt [0; 60000] ++ [deadHostAt 120000]))).
  { simpl. repeat split; repeat constructor; lia. }
  assert (H2 : (checkHealth decimal 1 defaults (deadHostAt 120000)
                  (stateAfter decimal 1 defaults (map deadHostAt [0; 60000])
                     (initial (Some 4242)))).2
               = Restarted (lit "Heartbeat file does not exist") []
                   (Some {| ev_timestamp := 120000;
                            ev_reason := lit "Heartbeat file does not exist";
                            ev_restartCount := 3; ev_watchdogPid := 1 |})).
  { vm_compute. reflexivity. }
  split; [exact H1 | split; [exact H2 |]].
  exact (restarts_within_limit decimal 1 defaults (Some 4242) _ _ _ _ _ H1 H2).
Defined.

(** X7: in a run of the monitoring loop a cycle is skipped as paused exactly
    when the cycle before it refused a restart: a refusal costs one cycle,
    whatever the heartbeat says then, and the loop never sits out two cycles
    in a row. *)
Theorem pause_lasts_one_cycle (numberToString : Z -> jsstring)
    (watchdogPid : Z) (config : WatchdogConfig) (child : option Z)
    (cycles : list Cycle) (i : nat) (outcome next : Outcome) :
  run numberToString watchdogPid config cycles (initial child) !! i
  = Some outcome ->
  run numberToString watchdogPid config cycles (initial child) !! S i
  = Some next ->
  (next = SkippedPaused <-> isRefused outcome = true)
  /\ (outcome = SkippedPaused -> next <> SkippedPaused).
Proof.
  intros Ho Hn.
  pose proof (run_skips_after_refusal numberToString watchdogPid config
                cycles (initial child) i outcome next Ho Hn) as H.
  split; [exact H |]. intros -> Hs. apply H in Hs. discriminate.
Qed.

(** With no restart allowed, a dead host is refused its restart, and the
    next cycle is skipped. *)
Lemma pause_lasts_one_cycle_witness :
  let config := {| heartbeatTimeoutSec := 60; maxRestarts := 0;
                   restartWindowMs := 300000; healthUrl := [] |} in
  let outcomes :=
    run decimal 1 config (map deadHostAt [0; 60000; 120000]) (initial None) in
  outcomes !! 0%nat = Some (Refused (lit "Heartbeat file does not exist"))
  /\ outcomes !! 1%nat = Some SkippedPaused
  /\ (SkippedPaused = SkippedPaused
      <-> isRefused (Refused (lit "Heartbeat file does not exist")) = true).
Proof.
  cbv zeta.
  set (config := {| heartbeatTimeoutSec := 60; maxRestarts := 0;
                    restartWindowMs := 300000; healthUrl := [] |}).
  assert (H0 : run decimal 1 config (map deadHostAt [0; 60000; 120000])
                 (initial None) !! 0%nat
               = Some (Refused (lit "Heartbeat file does not exist")))
    by (vm_compute; reflexivity).
  assert (H1 : run decimal 1 config (map deadHostAt [0; 60000; 120000])
                 (initial None) !! 1%nat = Some SkippedPaused)
    by (vm_compute; reflexivity).
  split; [exact H0 | split; [exact H1 |]].
  exact (proj1 (pause_lasts_one_cycle decimal 1 config None _ 0%nat _ _ H0 H1)).
Defined.

End Watchdog.

(** ** Channel monitor: reconnection with backoff (health/channel-monitor.ts) *)

Module ChannelMonitor.

Import Heartbeat.

Record ChannelMonitorConfig := {
  reconnectBaseDelayMs : Z;
  reconnectMaxDelayMs : Z;
  maxReconnectAttempts : Z;
}.

(** The constructor's defaults. *)
Definition defaults : ChannelMonitorConfig :=
  {| reconnectBaseDelayMs := 2000; reconnectMaxDelayMs := 120000;
     maxReconnectAttempts := 10 |}.

(** What a cycle does to the channels: it announces an attempt, with its
    number and the delay it then sleeps; it disconnects a channel; it
    connects it, with or without success. *)
Inductive Event :=
| Attempt (id : jsstring) (attempt delayMs : Z)
| Disconnect (id : jsstring)
| Connect (id : jsstring) (succeeded : bool).

Definition eventId (e : Event) : jsstring :=
  match e with
  | Attempt id _ _ => id
  | Disconnect id => id
  | Connect id _ => id
  end.

(** [Math.min(base * Math.pow(2, failures), max)]. *)
Definition backoff (config : ChannelMonitorConfig) (failures : Z) : Z :=
  Z.min (reconnectBaseDelayMs config * 2 ^ failures)
    (reconnectMaxDelayMs config).

Section WithChannels.

(** The channels and what is around them: the snapshot of
    [getAllStatuses]; what happens while the monitor sleeps; whether
    [getChannel] finds the channel; [disconnect], whose errors are ignored;
    and [connect], which succeeds or throws. *)
Variable W : Type.
Variable getAllStatuses : W -> list ChannelStatusEntry.
Variable sleep : W -> Z -> W.
Variable getChannel : W -> jsstring -> bool.
Variable disconnect : W -> jsstring -> W.
Variable connect : W -> jsstring -> W * bool.

Record State := {
  world : W;
  failureCounts : gmap jsstring Z;
}.

Definition setCount (id : jsstring) (n : Z) (w : W) (s : State) : State :=
  {| world := w; failureCounts := <[id := n]> (failureCounts s) |}.

(** The body of the loop over the snapshot. *)
Definition recoverOne (config : ChannelMonitorConfig)
    (acc : State * list Event) (info : ChannelStatusEntry)
  : State * list Event :=
  let '(s, events) := acc in
  let id := cs_id info in
  if str_eqb (cs_status info) connected then
    (setCount id 0 (world s) s, events)
  else if str_eqb (cs_status info) connecting then (s, events)
  else
    let failures := default 0 (failureCounts s !! id) in
    if maxReconnectAttempts config <=? failures then
      (setCount id 0 (world s) s, events)
    else
      let delay := backoff config failures in
      let attempting := Attempt id (failures + 1) delay in
      let w1 := sleep (world s) delay in
      if getChannel w1 id then
        let w2 := disconnect w1 id in
        let '(w3, succeeded) := connect w2 id in
        (setCount id (if succeeded then 0 else failures + 1) w3 s,
         events ++ [attempting; Disconnect id; Connect id succeeded])
      else
        ({| world := w1; failureCounts := failureCounts s |},
         events ++ [attempting]).

Definition checkAndRecover (config : ChannelMonitorConfig) (s : State)
  : State * list Event :=
  foldl (recoverOne config) (s, []) (getAllStatuses (world s)).

(** *** The timer

    [start] has [setInterval] call [checkAndRecover] at every tick, without
    waiting for the call before: a call that awaits is suspended, and other
    calls run meanwhile on the same counters.  A call between two awaits
    sleeps the backoff before an attempt, or awaits the [disconnect] or
    the [connect] of the attempt; it remembers the channel, the number of
    failures it read and what is left of its snapshot. *)
Inductive Call :=
| Sleeping (info : ChannelStatusEntry) (failures : Z)
    (todo : list ChannelStatusEntry)
| Disconnecting (info : ChannelStatusEntry) (failures : Z)
    (todo : list ChannelStatusEntry)
| Connecting (info : ChannelStatusEntry) (failures : Z)
    (todo : list ChannelStatusEntry)
| Returned.

(** The loop over the snapshot, up to its next await. *)
Fixpoint advance (config : ChannelMonitorConfig)
    (todo : list ChannelStatusEntry) (s : State)
  : State * list Event * Call :=
  match todo with
  | [] => (s, [], Returned)
  | info :: rest =>
      let id := cs_id info in
      if str_eqb (cs_status info) connected then
        advance config rest (setCount id 0 (world s) s)
      else if str_eqb (cs_status info) connecting then advance config rest s
      else
        let failures := default 0 (failureCounts s !! id) in
        if maxReconnectAttempts config <=? failures then
          advance config rest (setCount id 0 (world s) s)
        else
          (s, [Attempt id (failures + 1) (backoff config failures)],
           Sleeping info failures rest)
  end.

(** A suspended call goes on, up to its next await. *)
Definition resume (config : ChannelMonitorConfig) (call : Call) (s : State)
  : State * list Event * Call :=
  match call with
  | Sleeping info failures todo =>
      let w1 := sleep (world s) (backoff config failures) in
      let s1 := {| world := w1; failureCounts := failureCounts s |} in
      if getChannel w1 (cs_id info) then (s1, [], Disconnecting info failures todo)
      else advance config todo s1
  | Disconnecting info failures todo =>
      ({| world := disconnect (world s) (cs_id info);
          failureCounts := failureCounts s |},
       [Disconnect (cs_id info)], Connecting info failures todo)
  | Connecting info failures todo =>
      let '(w3, succeeded) := connect (world s) (cs_id info) in
      let '(s', events, call') :=
        advance config todo
          (setCount (cs_id info) (if succeeded then 0 else failures + 1) w3 s) in
      (s', Connect (cs_id info) succeeded :: events, call')
  | Returned => (s, [], Returned)
  end.

(** The monitor under its timer: the counters and the world, and the calls
    started so far, oldest first, each with the events it has made. *)
Record Monitor := {
  shared : State;
  calls : list (Call * list Event);
}.

(** The timer ticks, or the await of a call is over. *)
Inductive Turn :=
| Tick
| Resume (k : nat).

Definition turn (config : ChannelMonitorConfig) (m : Monitor) (t : Turn)
  : Monitor :=
  match t with
  | Tick =>
      let '(s, events, call) :=
        advance config (getAllStatuses (world (shared m))) (shared m) in
      {| shared := s; calls := calls m ++ [(call, events)] |}
  | Resume k =>
      match calls m !! k with
      | Some (call, events) =>
          let '(s, events', call') := resume config call (shared m) in
          {| shared := s;
             calls := <[k := (call', events ++ events')]> (calls m) |}
      | None => m
      end
  end.

Definition started (s : State) : Monitor := {| shared := s; calls := [] |}.

Definition runTimer (config : ChannelMonitorConfig) (turns : list Turn)
    (s : State) : Monitor :=
  foldl (turn config) (started s) turns.

(** Every call started so far has returned. *)
Definition idle (m : Monitor) : bool :=
  forallb (fun c : Call * list Event =>
             match c.1 with Returned => true | _ => false end) (calls m).

(** The calls do not overlap: every tick finds the monitor idle. *)
Fixpoint Apart (config : ChannelMonitorConfig) (turns : list Turn)
    (m : Monitor) : Prop :=
  match turns with
  | [] => True
  | t :: rest =>
      (t = Tick -> idle m = true) /\ Apart config rest (turn config m t)
  end.

(** A call on its own, from where it is to its return. *)
Fixpoint finish (config : ChannelMonitorConfig) (fuel : nat)
    (acc : State * list Event * Call) : State * list Event * Call :=
  match fuel with
  | O => acc
  | S fuel' =>
      let '(s, events, call) := acc in
      let '(s', events', call') := resume config call s in
      finish config fuel' (s', events ++ events', call')
  end.

(** Every counter is between zero and the bound on attempts. *)
Definition InRange (config : ChannelMonitorConfig) (counts : gmap jsstring Z)
  : Prop :=
  map_Forall (fun _ n => 0 <= n <= maxReconnectAttempts config) counts.

(** An announced attempt has a number within the bound and the delay of
    its number: the base delay doubled with every failure before it, up to
    the maximal delay. *)
Definition Scheduled (config : ChannelMonitorConfig) (e : Event) : Prop :=
  match e with
  | Attempt _ attempt delayMs =>
      1 <= attempt <= maxReconnectAttempts config
      /\ delayMs = backoff config (attempt - 1)
      /\ delayMs <= reconnectMaxDelayMs config
  | _ => True
  end.

(** The event is about a channel the snapshot lists as neither connected
    nor connecting. *)
Definition AboutDown (statuses : list ChannelStatusEntry) (e : Event) : Prop :=
  exists info,
    info ∈ statuses /\ cs_id info = eventId e
    /\ cs_status info <> connected /\ cs_status info <> connecting.

Lemma recoverOne_in_range (config : ChannelMonitorConfig)
    (acc : State * list Event) (info : ChannelStatusEntry) :
  0 <= maxReconnectAttempts config ->
  InRange config (failureCounts acc.1) -> Forall (Scheduled config) acc.2 ->
  InRange config (failureCounts (recoverOne config acc info).1)
  /\ Forall (Scheduled config) (recoverOne config acc info).2.
Proof.
  intros Hmax Hin Hev. destruct acc as [s events]. cbn [fst snd] in *.
  assert (Hzero : forall w, InRange config (failureCounts (setCount (cs_id info) 0 w s))).
  { intros w. apply map_Forall_insert_2; [lia | exact Hin]. }
  unfold recoverOne.
  destruct (str_eqb (cs_status info) connected); [split; [apply Hzero | exact Hev] |].
  destruct (str_eqb (cs_status info) connecting); [split; assumption |].
  assert (Hf : 0 <= default 0 (failureCounts s !! cs_id info)
               <= maxReconnectAttempts config).
  { destruct (failureCounts s !! cs_id info) as [n|] eqn:Hn; [| simpl; lia].
    exact (Hin _ _ Hn). }
  set (failures := default 0 (failureCounts s !! cs_id info)) in *.
  destruct (maxReconnectAttempts config <=? failures) eqn:Hlim;
    [split; [apply Hzero | exact Hev] |].
  apply Z.leb_gt in Hlim.
  assert (Hat : Scheduled config
                  (Attempt (cs_id info) (failures + 1) (backoff config failures))).
  { split; [lia |]. replace (failures + 1 - 1) with failures by lia.
    split; [reflexivity | apply Z.le_min_r]. }
  destruct (getChannel _ _).
  - destruct (connect _ _) as [w3 succeeded]. cbn [fst snd]. split.
    + apply map_Forall_insert_2; [destruct succeeded; lia | exact Hin].
    + apply Forall_app. split; [exact Hev |].
      constructor; [exact Hat |]. constructor; [exact I |].
      constructor; [exact I | constructor].
  - cbn [fst snd failureCounts]. split; [exact Hin |].
    apply Forall_app. split; [exact Hev | constructor; [exact Hat | constructor]].
Qed.

Lemma recoverOne_about_down (config : ChannelMonitorConfig)
    (statuses : list ChannelStatusEntry) (acc : State * list Event)
    (info : ChannelStatusEntry) :
  info ∈ statuses -> Forall (AboutDown statuses) acc.2 ->
  Forall (AboutDown statuses) (recoverOne config acc info).2.
Proof.
  intros Hin Hev. destruct acc as [s events]. cbn [fst snd] in *.
  unfold recoverOne.
  destruct (str_eqb (cs_status info) connected) eqn:H1; [exact Hev |].
  destruct (str_eqb (cs_status info) connecting) eqn:H2; [exact Hev |].
  apply str_eqb_false in H1, H2.
  assert (Hdown : forall e, eventId e = cs_id info -> AboutDown statuses e).
  { intros e He. exists info. repeat split; [exact Hin | congruence | | ]; assumption. }
  destruct (_ <=? _); [exact Hev |].
  destruct (getChannel _ _).
  - destruct (connect _ _) as [w3 succeeded]. cbn [snd].
    apply Forall_app. split; [exact Hev |].
    repeat (constructor; [apply Hdown; reflexivity |]). constructor.
  - cbn [snd]. apply Forall_app. split; [exact Hev |].
    constructor; [apply Hdown; reflexivity | constructor].
Qed.

Lemma foldl_about_down (config : ChannelMonitorConfig)
    (statuses todo : list ChannelStatusEntry) (acc : State * list Event) :
  (forall info, info ∈ todo -> info ∈ statuses) ->
  Forall (AboutDown statuses) acc.2 ->
  Forall (AboutDown statuses) (foldl (recoverOne config) acc todo).2.
Proof.
  revert acc. induction todo as [|info rest IH]; intros acc Hsub H.
  - exact H.
  - cbn [foldl]. apply IH.
    + intros i Hi. apply Hsub. apply list_elem_of_further. exact Hi.
    + apply recoverOne_about_down; [| exact H].
      apply Hsub. apply list_elem_of_here.
Qed.

Lemma finish_returned (config : ChannelMonitorConfig) (fuel : nat)
    (acc : State * list Event) :
  finish config fuel (acc, Returned) = (acc, Returned).
Proof.
  destruct acc as [s events].
  induction fuel as [|fuel IH]; [reflexivity |].
  cbn [finish resume]. rewrite app_nil_r. exact IH.
Qed.

Lemma finish_add (config : ChannelMonitorConfig) (a b : nat)
    (acc : State * list Event * Call) :
  finish config (a + b) acc = finish config b (finish config a acc).
Proof.
  revert acc. induction a as [|a IH]; intros acc; [reflexivity |].
  cbn [Nat.add finish]. destruct acc as [[s events] call].
  destruct (resume config call s) as [[s' events'] call']. apply IH.
Qed.

(** A call that runs on its own, no other call in between, does what
    [checkAndRecover] does. *)
Lemma advance_alone (config : ChannelMonitorConfig)
    (todo : list ChannelStatusEntry) :
  forall (s : State) (before : list Event),
  finish config (3 * length todo)
    (let '(s1, events1, call1) := advance config todo s in
     (s1, before ++ events1, call1))
  = (foldl (recoverOne config) (s, before) todo, Returned).
Proof.
  induction todo as [|info rest IH]; intros s before.
  - cbn. rewrite app_nil_r. reflexivity.
  - replace (3 * length (info :: rest))%nat
      with (3 + 3 * length rest)%nat by (cbn [length]; lia).
    cbn [advance foldl]. unfold recoverOne at 2.
    destruct (str_eqb (cs_status info) connected).
    { rewrite Nat.add_comm, finish_add, IH. apply finish_returned. }
    destruct (str_eqb (cs_status info) connecting).
    { rewrite Nat.add_comm, finish_add, IH. apply finish_returned. }
    destruct (maxReconnectAttempts config <=? _).
    { rewrite Nat.add_comm, finish_add, IH. apply finish_returned. }
    set (failures := default 0 (failureCounts s !! cs_id info)).
    destruct (getChannel (sleep (world s) (backoff config failures))
                (cs_id info)) eqn:Hfound.
    + rewrite finish_add. cbn [finish resume world failureCounts].
      rewrite Hfound. cbn [resume world failureCounts].
      destruct (connect _ _) as [w3 succeeded].
      specialize (IH (setCount (cs_id info)
                        (if succeeded then 0 else failures + 1) w3 s)
                    (before
                     ++ [Attempt (cs_id info) (failures + 1)
                           (backoff config failures);
                         Disconnect (cs_id info);
                         Connect (cs_id info) succeeded])).
      unfold setCount in *. cbn [world failureCounts] in *.
      destruct (advance config rest _) as [[s' events'] call'].
      rewrite <- IH. f_equal. f_equal. f_equal.
      rewrite app_nil_r, <- !app_assoc. reflexivity.
    + replace (3 + 3 * length rest)%nat
        with (1 + (3 * length rest + 2))%nat by lia.
      rewrite (finish_add config 1). cbn [finish resume world failureCounts].
      rewrite Hfound.
      specialize (IH {| world := sleep (world s) (backoff config failures);
                        failureCounts := failureCounts s |}
                    (before
                     ++ [Attempt (cs_id info) (failures + 1)
                           (backoff config failures)])).
      destruct (advance config rest _) as [[s' events'] call'].
      rewrite finish_add, IH. apply finish_returned.
Qed.

End WithChannels.


Arguments world {W} _.
Arguments failureCounts {W} _.

(** X8: when the bound on attempts is not negative and every failure
    counter is between zero and the bound, a cycle leaves every counter in
    that range, and every attempt it announces has a number between 1 and
    the bound and sleeps the delay of its number, which is at most the
    maximal delay. *)
Theorem checkAndRecover_in_range (W : Type)
    (getAllStatuses : W -> list ChannelStatusEntry) (sleep : W -> Z -> W)
    (getChannel : W -> jsstring -> bool) (disconnect : W -> jsstring -> W)
    (connect : W -> jsstring -> W * bool) (config : ChannelMonitorConfig)
    (s : State W) :
  0 <= maxReconnectAttempts config ->
  InRange config (failureCounts s) ->
  let result :=
    checkAndRecover W getAllStatuses sleep getChannel disconnect connect
      config s in
  InRange config (failureCounts result.1)
  /\ Forall (Scheduled config) result.2.
Proof.
  intros Hmax Hin result. subst result. unfold checkAndRecover.
  assert (H : InRange config (failureCounts (s, @nil Event).1)
              /\ Forall (Scheduled config) (s, @nil Event).2)
    by (split; [exact Hin | constructor]).
  revert H. generalize (s, @nil Event).
  induction (getAllStatuses (world s)) as [|info rest IH]; intros acc [H1 H2].
  - split; assumption.
  - cbn [foldl]. apply IH. apply recoverOne_in_range; assumption.
Qed.

(** X9: a cycle leaves alone every channel its snapshot does not list as
    down: each attempt, disconnect and connect of the cycle is about a
    channel that the snapshot lists as neither connected nor connecting. *)
Theorem checkAndRecover_leaves_healthy_alone (W : Type)
    (getAllStatuses : W -> list ChannelStatusEntry) (sleep : W -> Z -> W)
    (getChannel : W -> jsstring -> bool) (disconnect : W -> jsstring -> W)
    (connect : W -> jsstring -> W * bool) (config : ChannelMonitorConfig)
    (s : State W) :
  Forall (AboutDown (getAllStatuses (world s)))
    (checkAndRecover W getAllStatuses sleep getChannel disconnect connect
       config s).2.
Proof.
  unfold checkAndRecover. apply foldl_about_down; [auto | constructor].
Qed.

(** The theorem on a channel in error with three failures behind it, which
    reconnects. *)
Definition downChannel : ChannelStatusEntry :=
  {| cs_id := lit "telegram"; cs_type := lit "telegram";
     cs_status := error_status; cs_error := Some (lit "ETIMEDOUT") |}.

Lemma checkAndRecover_in_range_witness :
  let s := {| world := tt;
              failureCounts := {[ lit "telegram" := 3 ]} |} in
  let result :=
    checkAndRecover unit (fun _ => [downChannel]) (fun w _ => w)
      (fun _ _ => true) (fun w _ => w) (fun w _ => (w, true)) defaults s in
  0 <= maxReconnectAttempts defaults
  /\ InRange defaults (failureCounts s)
  /\ InRange defaults (failureCounts result.1)
  /\ Forall (Scheduled defaults) result.2
  /\ result.2 = [ Attempt (lit "telegram") 4 16000;
                  Disconnect (lit "telegram");
                  Connect (lit "telegram") true ].
Proof.
  cbv zeta.
  assert (H1 : 0 <= maxReconnectAttempts defaults) by (simpl; lia).
  assert (H2 : InRange defaults
                 (failureCounts
                    {| world := tt;
                       failureCounts := {[ lit "telegram" := 3 ]} |})).
  { apply map_Forall_singleton. simpl. lia. }
  split; [exact H1 | split; [exact H2 |]].
  destruct (checkAndRecover_in_range unit (fun _ => [downChannel])
              (fun w _ => w) (fun _ _ => true) (fun w _ => w)
              (fun w _ => (w, true)) defaults _ H1 H2) as [H3 H4].
  split; [exact H3 | split; [exact H4 |]].
  vm_compute. reflexivity.
Defined.

(** *** A channel that stays down *)

Section DeadChannel.

Variable W : Type.
Variable getAllStatuses : W -> list ChannelStatusEntry.
Variable sleep : W -> Z -> W.
Variable getChannel : W -> jsstring -> bool.
Variable disconnect : W -> jsstring -> W.
Variable connect : W -> jsstring -> W * bool.
Variable config : ChannelMonitorConfig.
Variable info : ChannelStatusEntry.

Hypothesis only_channel : forall w, getAllStatuses w = [info].
Hypothesis not_connected : cs_status info <> connected.
Hypothesis not_connecting : cs_status info <> connecting.
Hypothesis registered : forall w, getChannel w (cs_id info) = true.
Hypothesis connect_fails : forall w, (connect w (cs_id info)).2 = false.
Hypothesis bound_not_negative : 0 <= maxReconnectAttempts config.

(** The events of a cycle that finds the counter at [failures]: at the
    bound it rests, below it makes the next attempt. *)
Definition scheduleAt (failures : Z) : list Event :=
  if failures =? maxReconnectAttempts config then []
  else [ Attempt (cs_id info) (failures + 1) (backoff config failures);
         Disconnect (cs_id info);
         Connect (cs_id info) false ].

Definition attemptAt (failures : Z) : Event :=
  Attempt (cs_id info) (failures + 1) (backoff config failures).

(** The calls that have returned, when [n] calls did, one after the
    other. *)
Definition returnedCalls (n : nat) : list (Call * list Event) :=
  map (fun k : nat =>
         (Returned,
          scheduleAt (Z.of_nat k mod (maxReconnectAttempts config + 1))))
    (seq 0 n).

Definition counter (m : Monitor W) : Z :=
  default 0 (failureCounts (shared W m) !! cs_id info).

(** The monitor after [n] calls that did not overlap, and maybe one more
    that has not returned yet. *)
Inductive InStep (m : Monitor W) : Prop :=
| AllReturned (n : nat) :
    calls W m = returnedCalls n ->
    counter m = Z.of_nat n mod (maxReconnectAttempts config + 1) ->
    InStep m
| OneOpen (n : nat) (call : Call) (events : list Event) :
    calls W m = returnedCalls n ++ [(call, events)] ->
    counter m = Z.of_nat n mod (maxReconnectAttempts config + 1) ->
    counter m < maxReconnectAttempts config ->
    (call = Sleeping info (counter m) [] /\ events = [attemptAt (counter m)]
     \/ call = Disconnecting info (counter m) []
        /\ events = [attemptAt (counter m)]
     \/ call = Connecting info (counter m) []
        /\ events = [attemptAt (counter m); Disconnect (cs_id info)]) ->
    InStep m.

Lemma returnedCalls_length (n : nat) : length (returnedCalls n) = n.
Proof. unfold returnedCalls. rewrite length_map, length_seq. reflexivity. Qed.

Lemma returnedCalls_lookup (n k : nat) (c : Call * list Event) :
  returnedCalls n !! k = Some c ->
  c = (Returned,
       scheduleAt (Z.of_nat k mod (maxReconnectAttempts config + 1))).
Proof.
  unfold returnedCalls. rewrite list_lookup_fmap.
  destruct (seq 0 n !! k) as [j|] eqn:Hj; [| discriminate].
  apply lookup_seq in Hj as [-> _]. cbn. congruence.
Qed.

Lemma returnedCalls_S (n : nat) :
  returnedCalls (S n)
  = returnedCalls n
    ++ [(Returned,
         scheduleAt (Z.of_nat n mod (maxReconnectAttempts config + 1)))].
Proof. unfold returnedCalls. rewrite seq_S, map_app. reflexivity. Qed.

Lemma returnedCalls_idle (n : nat) :
  forallb (fun c : Call * list Event =>
             match c.1 with Returned => true | _ => false end)
    (returnedCalls n) = true.
Proof.
  apply forallb_forall. intros c Hin. apply list_elem_of_In in Hin.
  apply list_elem_of_lookup in Hin as [k Hk].
  rewrite (returnedCalls_lookup _ _ _ Hk). reflexivity.
Qed.

(** The await of a call that has returned long ago is never over: such a
    turn changes nothing. *)
Lemma resume_returned (m : Monitor W) (k : nat) (events : list Event) :
  calls W m !! k = Some (Returned, events) ->
  turn W getAllStatuses sleep getChannel disconnect connect config m (Resume k)
  = m.
Proof.
  intros Hk. cbn [turn]. rewrite Hk. cbn [resume].
  rewrite app_nil_r, (list_insert_id _ _ _ Hk). destruct m. reflexivity.
Qed.

Lemma counter_bounds (n : nat) :
  0 <= Z.of_nat n mod (maxReconnectAttempts config + 1)
    <= maxReconnectAttempts config.
Proof.
  pose proof (Z.mod_pos_bound (Z.of_nat n) (maxReconnectAttempts config + 1)).
  lia.
Qed.

Lemma counter_next (n : nat) :
  Z.of_nat (S n) mod (maxReconnectAttempts config + 1)
  = let f := Z.of_nat n mod (maxReconnectAttempts config + 1) in
    if f =? maxReconnectAttempts config then 0 else f + 1.
Proof.
  cbv zeta. pose proof (counter_bounds n) as Hb.
  replace (Z.of_nat (S n)) with (Z.of_nat n + 1) by lia.
  rewrite <- Z.add_mod_idemp_l by lia.
  destruct (Z.eqb_spec (Z.of_nat n mod (maxReconnectAttempts config + 1))
              (maxReconnectAttempts config)) as [-> | Hne].
  - apply Z.mod_same. lia.
  - apply Z.mod_small. lia.
Qed.

Lemma turn_in_step (m : Monitor W) (t : Turn) :
  InStep m -> (t = Tick -> idle W m = true) ->
  InStep
    (turn W getAllStatuses sleep getChannel disconnect connect config m t).
Proof.
  intros Hm Hidle.
  assert (Hdown1 : str_eqb (cs_status info) connected = false)
    by (apply str_eqb_false; exact not_connected).
  assert (Hdown2 : str_eqb (cs_status info) connecting = false)
    by (apply str_eqb_false; exact not_connecting).
  destruct t as [|k].
  - specialize (Hidle eq_refl).
    destruct Hm as [n Hcalls Hcount | n call events Hcalls _ _ Hcall].
    + cbn [turn]. rewrite only_channel. cbn [advance].
      rewrite Hdown1, Hdown2. fold (counter m).
      pose proof (counter_bounds n) as Hb. rewrite <- Hcount in Hb.
      destruct (maxReconnectAttempts config <=? counter m) eqn:Hlim.
      * apply Z.leb_le in Hlim. apply (AllReturned _ (S n)).
        -- cbn [calls]. rewrite Hcalls, returnedCalls_S. do 3 f_equal.
           unfold scheduleAt. rewrite <- Hcount.
           replace (counter m =? maxReconnectAttempts config) with true
             by (symmetry; apply Z.eqb_eq; lia). reflexivity.
        -- unfold counter. cbn [shared setCount failureCounts].
           rewrite lookup_insert_eq, counter_next. cbv zeta. rewrite <- Hcount.
           replace (counter m =? maxReconnectAttempts config) with true
             by (symmetry; apply Z.eqb_eq; lia). reflexivity.
      * apply Z.leb_gt in Hlim.
        apply (OneOpen _ n (Sleeping info (counter m) []) [attemptAt (counter m)]).
        -- cbn [calls]. rewrite Hcalls. reflexivity.
        -- exact Hcount.
        -- exact Hlim.
        -- left. split; reflexivity.
    + exfalso. unfold idle in Hidle. rewrite Hcalls, forallb_app in Hidle.
      apply andb_true_iff in Hidle as [_ Hlast]. cbn in Hlast.
      destruct Hcall as [[-> _] | [[-> _] | [-> _]]]; discriminate.
  - destruct Hm as [n Hcalls Hcount | n call events Hcalls Hcount Hlim Hcall].
    + destruct (calls W m !! k) as [c|] eqn:Hk.
      * pose proof Hk as Hk'. rewrite Hcalls in Hk'.
        rewrite (returnedCalls_lookup _ _ _ Hk') in Hk.
        rewrite (resume_returned _ _ _ Hk). exact (AllReturned _ n Hcalls Hcount).
      * cbn [turn]. rewrite Hk. exact (AllReturned _ n Hcalls Hcount).
    + destruct (lt_eq_lt_dec k n) as [[Hlt | ->] | Hgt].
      * assert (Hk : calls W m !! k
                     = Some (Returned,
                             scheduleAt
                               (Z.of_nat k mod (maxReconnectAttempts config + 1)))).
        { rewrite Hcalls, lookup_app_l by (rewrite returnedCalls_length; lia).
          destruct (returnedCalls n !! k) as [c|] eqn:Hc.
          - rewrite (returnedCalls_lookup _ _ _ Hc). reflexivity.
          - apply lookup_ge_None in Hc. rewrite returnedCalls_length in Hc. lia. }
        rewrite (resume_returned _ _ _ Hk).
        exact (OneOpen _ n call events Hcalls Hcount Hlim Hcall).
      * assert (Hk : calls W m !! n = Some (call, events)).
        { rewrite Hcalls, lookup_app_r by (rewrite returnedCalls_length; lia).
          rewrite returnedCalls_length, Nat.sub_diag. reflexivity. }
        assert (Hput : forall c,
                  <[n := c]> (calls W m) = returnedCalls n ++ [c]).
        { intros c. rewrite Hcalls.
          rewrite insert_app_r_alt by (rewrite returnedCalls_length; lia).
          rewrite returnedCalls_length, Nat.sub_diag. reflexivity. }
        cbn [turn]. rewrite Hk.
        destruct Hcall as [[-> ->] | [[-> ->] | [-> ->]]]; cbn [resume].
        -- rewrite registered.
           apply (OneOpen _ n (Disconnecting info (counter m) [])
                    [attemptAt (counter m)]); cbn [calls shared].
           ++ rewrite Hput. reflexivity.
           ++ exact Hcount.
           ++ exact Hlim.
           ++ right. left. split; reflexivity.
        -- apply (OneOpen _ n (Connecting info (counter m) [])
                    [attemptAt (counter m); Disconnect (cs_id info)]);
             cbn [calls shared].
           ++ rewrite Hput. reflexivity.
           ++ exact Hcount.
           ++ exact Hlim.
           ++ right. right. split; reflexivity.
        -- pose proof (connect_fails (world (shared W m))) as Hfails.
           destruct (connect (world (shared W m)) (cs_id info))
             as [w3 succeeded]. cbn [snd] in Hfails. subst succeeded.
           cbn [advance]. apply (AllReturned _ (S n)).
           ++ cbn [calls]. rewrite Hput, returnedCalls_S. do 3 f_equal.
              unfold scheduleAt, attemptAt. rewrite <- Hcount.
              replace (counter m =? maxReconnectAttempts config) with false
                by (symmetry; apply Z.eqb_neq; lia). reflexivity.
           ++ unfold counter at 1. cbn [shared setCount failureCounts].
              rewrite lookup_insert_eq, counter_next. cbv zeta.
              rewrite <- Hcount.
              replace (counter m =? maxReconnectAttempts config) with false
                by (symmetry; apply Z.eqb_neq; lia). reflexivity.
      * assert (Hk : calls W m !! k = None).
        { apply lookup_ge_None. rewrite Hcalls, length_app, returnedCalls_length.
          cbn [length]. lia. }
        cbn [turn]. rewrite Hk.
        exact (OneOpen _ n call events Hcalls Hcount Hlim Hcall).
Qed.

Lemma turns_in_step (turns : list Turn) :
  forall m : Monitor W,
  InStep m ->
  Apart W getAllStatuses sleep getChannel disconnect connect config turns m ->
  InStep
    (foldl (turn W getAllStatuses sleep getChannel disconnect connect config)
       m turns).
Proof.
  induction turns as [|t rest IH]; intros m Hm Hapart; [exact Hm |].
  destruct Hapart as [Hidle Hrest]. cbn [foldl].
  apply IH; [apply turn_in_step; assumption | exact Hrest].
Qed.

Lemma in_step_returned (m : Monitor W) (k : nat) (events : list Event) :
  InStep m -> calls W m !! k = Some (Returned, events) ->
  events = scheduleAt (Z.of_nat k mod (maxReconnectAttempts config + 1)).
Proof.
  intros [n Hcalls _ | n call events' Hcalls _ _ Hcall] Hk.
  - rewrite Hcalls in Hk. apply returnedCalls_lookup in Hk. congruence.
  - rewrite Hcalls in Hk. destruct (decide (k < n)%nat) as [Hlt | Hge].
    + rewrite lookup_app_l in Hk by (rewrite returnedCalls_length; lia).
      apply returnedCalls_lookup in Hk. congruence.
    + rewrite lookup_app_r in Hk by (rewrite returnedCalls_length; lia).
      rewrite returnedCalls_length in Hk.
      destruct (k - n)%nat; [| destruct n0; discriminate].
      cbn in Hk. injection Hk as Hcall' _.
      destruct Hcall as [[-> _] | [[-> _] | [-> _]]]; discriminate.
Qed.

End DeadChannel.

(** X10: a channel that stays down, alone in the snapshot, with every
    reconnection failing, under a timer whose calls do not overlap (every
    tick comes after the calls before it have returned), the counter of
    the channel starting at zero: the call of tick [k], counting from 0,
    once it has returned, has rested when [k mod (maxReconnectAttempts + 1)]
    is the bound, and has otherwise made attempt number
    [k mod (bound + 1) + 1] after sleeping the base delay doubled that many
    times less one, capped at the maximal delay; with a bound of zero no
    attempt is ever made. *)
Theorem dead_channel_schedule (W : Type)
    (getAllStatuses : W -> list ChannelStatusEntry) (sleep : W -> Z -> W)
    (getChannel : W -> jsstring -> bool) (disconnect : W -> jsstring -> W)
    (connect : W -> jsstring -> W * bool) (config : ChannelMonitorConfig)
    (info : ChannelStatusEntry) (s : State W) (turns : list Turn) (k : nat)
    (events : list Event) :
  (forall w, getAllStatuses w = [info]) ->
  cs_status info <> connected ->
  cs_status info <> connecting ->
  (forall w, getChannel w (cs_id info) = true) ->
  (forall w, (connect w (cs_id info)).2 = false) ->
  0 <= maxReconnectAttempts config ->
  default 0 (failureCounts s !! cs_id info) = 0 ->
  Apart W getAllStatuses sleep getChannel disconnect connect config turns
    (started W s) ->
  calls W
    (runTimer W getAllStatuses sleep getChannel disconnect connect config
       turns s) !! k
  = Some (Returned, events) ->
  let turn := Z.of_nat k mod (maxReconnectAttempts config + 1) in
  events
  = if turn =? maxReconnectAttempts config then []
    else [ Attempt (cs_id info) (turn + 1)
             (Z.min (reconnectBaseDelayMs config * 2 ^ turn)
                (reconnectMaxDelayMs config));
           Disconnect (cs_id info);
           Connect (cs_id info) false ].
Proof.
  intros H1 H2 H3 H4 H5 H6 H7 Hapart Hk turn.
  assert (Hstart : InStep W config info (started W s)).
  { apply (AllReturned _ _ _ _ O); [reflexivity |].
    unfold counter. cbn [started shared]. rewrite H7. reflexivity. }
  pose proof (turns_in_step W getAllStatuses sleep getChannel disconnect
                connect config info H1 H2 H3 H4 H5 H6 turns _ Hstart Hapart)
    as Hend.
  exact (in_step_returned W config info _ _ _ Hend Hk).
Qed.

(** Three ticks on a channel in error, with the defaults, each call
    finished before the next tick: the third call makes attempt 3 after 8
    seconds. *)
Definition threeCallsApart : list Turn :=
  [ Tick; Resume 0; Resume 0; Resume 0;
    Tick; Resume 1; Resume 1; Resume 1;
    Tick; Resume 2; Resume 2; Resume 2 ].

Lemma dead_channel_schedule_witness :
  let s := {| world := tt; failureCounts := ∅ |} in
  cs_status downChannel <> connected
  /\ cs_status downChannel <> connecting
  /\ 0 <= maxReconnectAttempts defaults
  /\ default 0 (failureCounts s !! cs_id downChannel) = 0
  /\ Apart unit (fun _ => [downChannel]) (fun w _ => w) (fun _ _ => true)
       (fun w _ => w) (fun w _ => (w, false)) defaults threeCallsApart
       (started unit s)
  /\ calls unit
       (runTimer unit (fun _ => [downChannel]) (fun w _ => w)
          (fun _ _ => true) (fun w _ => w) (fun w _ => (w, false)) defaults
          threeCallsApart s) !! 2%nat
     = Some (Returned,
             [ Attempt (lit "telegram") 3 8000;
               Disconnect (lit "telegram");
               Connect (lit "telegram") false ]).
Proof.
  cbv zeta.
  assert (H2 : cs_status downChannel <> connected) by (vm_compute; discriminate).
  assert (H3 : cs_status downChannel <> connecting) by (vm_compute; discriminate).
  assert (H6 : 0 <= maxReconnectAttempts defaults) by (simpl; lia).
  assert (H7 : default 0
                 (failureCounts {| world := tt; failureCounts := ∅ |}
                    !! cs_id downChannel) = 0)
    by (cbn [failureCounts]; rewrite lookup_empty; reflexivity).
  assert (H8 : Apart unit (fun _ => [downChannel]) (fun w _ => w)
                 (fun _ _ => true) (fun w _ => w) (fun w _ => (w, false))
                 defaults threeCallsApart
                 (started unit {| world := tt; failureCounts := ∅ |})).
  { vm_compute. repeat split; intros; try reflexivity; discriminate. }
  split; [exact H2 |]. split; [exact H3 |]. split; [exact H6 |].
  split; [exact H7 |]. split; [exact H8 |].
  assert (Hk : exists events,
             calls unit
               (runTimer unit (fun _ => [downChannel]) (fun w _ => w)
                  (fun _ _ => true) (fun w _ => w) (fun w _ => (w, false))
                  defaults threeCallsApart
                  {| world := tt; failureCounts := ∅ |}) !! 2%nat
             = Some (Returned, events)).
  { eexists. vm_compute. reflexivity. }
  destruct Hk as [events Hk]. rewrite Hk.
  rewrite (dead_channel_schedule unit (fun _ => [downChannel]) (fun w _ => w)
             (fun _ _ => true) (fun w _ => w) (fun w _ => (w, false)) defaults
             downChannel {| world := tt; failureCounts := ∅ |} threeCallsApart
             2 events (fun _ => eq_refl) H2 H3 (fun _ => eq_refl)
             (fun _ => eq_refl) H6 H7 H8 Hk).
  vm_compute. reflexivity.
Defined.

(** Ticks that do not wait: with four failures behind it, the call of a
    tick announces attempt 5 and sleeps 32 seconds; the next tick comes
    while it sleeps, reads the same counter and announces attempt 5
    again. *)
Example overlapping_calls_repeat_an_attempt :
  map snd
    (calls unit
       (runTimer unit (fun _ => [downChannel]) (fun w _ => w)
          (fun _ _ => true) (fun w _ => w) (fun w _ => (w, false)) defaults
          [Tick; Tick]
          {| world := tt; failureCounts := {[ lit "telegram" := 4 ]} |}))
  = [ [Attempt (lit "telegram") 5 32000];
      [Attempt (lit "telegram") 5 32000] ].
Proof. vm_compute. reflexivity. Qed.

End ChannelMonitor.

(** ** Task manager and the life of a task file (concurrency/task-manager.ts,
    storage/task-persistence.ts) *)

Module TaskManager.

(** The optional third argument of [updatePhase]. *)
Record PhaseExtra := {
  x_pendingResponse : option jsstring;
  x_error : option jsstring;
}.

Inductive TaskStatus := running | completed | failed.

Record ConversationTask := {
  t_id : jsstring;
  t_conversationId : jsstring;
  t_channelId : jsstring;
  t_originalMessage : Agent.NormalizedMessage;
  t_status : TaskStatus;
  t_startedAt : Z;
  t_completedAt : option Z;
  t_error : option jsstring;
}.

(** What happens to a task manager: [submit] is called, [Date.now()]
    reading [now]; the pipeline of a task resolves or rejects and the
    callback of [then] or [catch] runs; the callback of [finally] runs; the
    timer of a typing indicator fires; a pipeline calls [updatePhase]. *)
Inductive Event :=
| Submit (taskId : jsstring) (message : Agent.NormalizedMessage) (now : Z)
| Resolved (taskId : jsstring) (now : Z)
| Rejected (taskId : jsstring) (err : jsstring) (now : Z)
| Finally (taskId : jsstring)
| TypingTick (key : jsstring)
| PhaseUpdate (taskId : jsstring) (phase : Tasks.TaskPhase)
    (extra : option PhaseExtra).

Definition typingKey (channelId conversationId : jsstring) : jsstring :=
  channelId ++ lit ":" ++ conversationId.

(** The text of the error reply; its first three code units are those of
    the source file. *)
Definition errorReplyText (err : jsstring) : jsstring :=
  [226%N; 353%N; 160%N]
  ++ lit " An error occurred processing your message: " ++ err.

Section WithWorld.

(** The channels, as for recovery, with [sendTypingIndicator], whose
    failures are swallowed; the clock; the setup of the persistence, and
    whether the task manager is given one. *)
Variable Net : Type.
Variable sendMessage :
  Net -> jsstring -> jsstring -> OutgoingMessage -> Net * option jsstring.
Variable sendTypingIndicator : Net -> jsstring -> jsstring -> Net.
Variable isoAt : nat -> jsstring.
Variable setup : Tasks.Setup.
Variable withPersistence : bool.

(** [TaskPersistence.persist]. *)
Definition persist (taskId : jsstring) (message : Agent.NormalizedMessage)
    (w : Tasks.World Net) : Tasks.World Net :=
  if negb (Tasks.enabled setup) then w
  else
    let '(started, w1) := Tasks.readClock Net isoAt w in
    let '(updated, w2) := Tasks.readClock Net isoAt w1 in
    let task :=
      {| Tasks.id := taskId;
         Tasks.channelId := Agent.msg_channelId message;
         Tasks.conversationId := Agent.msg_conversationId message;
         Tasks.originalMessage :=
           {| Tasks.om_text := Agent.msg_text message;
              Tasks.om_senderId := Agent.msg_senderId message;
              Tasks.om_senderName := Agent.msg_senderName message;
              Tasks.om_platformMessageId :=
                Agent.msg_platformMessageId message;
              Tasks.om_timestamp := Agent.msg_timestamp message |};
         Tasks.phase := Tasks.received;
         Tasks.startedAt := started;
         Tasks.updatedAt := updated;
         Tasks.error := None;
         Tasks.pendingResponse := None |} in
    Tasks.withStore Net w2
      {| Tasks.active :=
           <[Tasks.fileOf taskId := Parsed task]>
             (Tasks.active (Tasks.store Net w2));
         Tasks.completedDir := Tasks.completedDir (Tasks.store Net w2) |}.

(** [TaskPersistence.updatePhase]: nothing without the file, or when it
    does not parse. *)
Definition updatePhase (taskId : jsstring) (phase : Tasks.TaskPhase)
    (extra : option PhaseExtra) (w : Tasks.World Net) : Tasks.World Net :=
  if negb (Tasks.enabled setup) then w
  else
    match Tasks.active (Tasks.store Net w) !! Tasks.fileOf taskId with
    | None => w
    | Some Unparseable => w
    | Some (Parsed task) =>
        let '(updated, w1) := Tasks.readClock Net isoAt w in
        let task' :=
          {| Tasks.id := Tasks.id task;
             Tasks.channelId := Tasks.channelId task;
             Tasks.conversationId := Tasks.conversationId task;
             Tasks.originalMessage := Tasks.originalMessage task;
             Tasks.phase := phase;
             Tasks.startedAt := Tasks.startedAt task;
             Tasks.updatedAt := updated;
             Tasks.error :=
               match extra ≫= x_error with
               | Some e => Some e
               | None => Tasks.error task
               end;
             Tasks.pendingResponse :=
               match extra ≫= x_pendingResponse with
               | Some r => Some r
               | None => Tasks.pendingResponse task
               end |} in
        Tasks.withStore Net w1
          {| Tasks.active :=
               <[Tasks.fileOf taskId := Parsed task']>
                 (Tasks.active (Tasks.store Net w1));
             Tasks.completedDir := Tasks.completedDir (Tasks.store Net w1) |}
    end.

Record State := {
  world : Tasks.World Net;
  activeTasks : gmap jsstring ConversationTask;
  typingIntervals : gmap jsstring (jsstring * jsstring);
}.

Definition withNet (w : Tasks.World Net) (n : Net) : Tasks.World Net :=
  {| Tasks.store := Tasks.store Net w; Tasks.net := n;
     Tasks.tick := Tasks.tick Net w;
     Tasks.journalLog := Tasks.journalLog Net w |}.

Definition getChannel (channelId : jsstring) : bool :=
  bool_decide (channelId ∈ Tasks.registered setup).

(** [ensureTypingIndicator]: the timer, kept under the key of the
    conversation, remembers the channel and the conversation it was started
    for. *)
Definition ensureTypingIndicator (channelId conversationId : jsstring)
    (s : State) : State :=
  let key := typingKey channelId conversationId in
  match typingIntervals s !! key with
  | Some _ => s
  | None =>
      if getChannel channelId then
        {| world :=
             withNet (world s)
               (sendTypingIndicator (Tasks.net Net (world s)) channelId
                  conversationId);
           activeTasks := activeTasks s;
           typingIntervals :=
             <[key := (channelId, conversationId)]> (typingIntervals s) |}
      else s
  end.

(** [cleanupTypingIfDone]. *)
Definition cleanupTypingIfDone (channelId conversationId : jsstring)
    (s : State) : State :=
  let key := typingKey channelId conversationId in
  let hasActive :=
    existsb (fun entry : jsstring * ConversationTask =>
               str_eqb (t_channelId entry.2) channelId
               && str_eqb (t_conversationId entry.2) conversationId)
      (map_to_list (activeTasks s)) in
  if hasActive then s
  else
    {| world := world s; activeTasks := activeTasks s;
       typingIntervals := delete key (typingIntervals s) |}.

(** [sendErrorReply]; a failure of the send is logged. *)
Definition sendErrorReply (message : Agent.NormalizedMessage) (err : jsstring)
    (w : Tasks.World Net) : Tasks.World Net :=
  if getChannel (Agent.msg_channelId message) then
    withNet w
      (sendMessage (Tasks.net Net w) (Agent.msg_channelId message)
         (Agent.msg_conversationId message)
         {| text := errorReplyText err;
            replyToMessageId := Agent.msg_platformMessageId message |}).1
  else w.

Definition submit (taskId : jsstring) (message : Agent.NormalizedMessage)
    (now : Z) (s : State) : State :=
  let task :=
    {| t_id := taskId;
       t_conversationId := Agent.msg_conversationId message;
       t_channelId := Agent.msg_channelId message;
       t_originalMessage := message;
       t_status := running;
       t_startedAt := now;
       t_completedAt := None;
       t_error := None |} in
  let s1 :=
    ensureTypingIndicator (Agent.msg_channelId message)
      (Agent.msg_conversationId message)
      {| world := world s;
         activeTasks := <[taskId := task]> (activeTasks s);
         typingIntervals := typingIntervals s |} in
  {| world := if withPersistence then persist taskId message (world s1)
              else world s1;
     activeTasks := activeTasks s1;
     typingIntervals := typingIntervals s1 |}.

Definition settle (status : TaskStatus) (now : Z) (err : option jsstring)
    (task : ConversationTask) : ConversationTask :=
  {| t_id := t_id task;
     t_conversationId := t_conversationId task;
     t_channelId := t_channelId task;
     t_originalMessage := t_originalMessage task;
     t_status := status;
     t_startedAt := t_startedAt task;
     t_completedAt := Some now;
     t_error := match err with Some e => Some e | None => t_error task end |}.

(** One event.  The callbacks of a task run after its [submit] and before
    the task leaves the map, where they find the message they were created
    with. *)
Definition step (e : Event) (s : State) : State :=
  match e with
  | Submit taskId message now => submit taskId message now s
  | Resolved taskId now =>
      {| world := if withPersistence
                  then Tasks.complete Net isoAt setup taskId (world s)
                  else world s;
         activeTasks := alter (settle completed now None) taskId (activeTasks s);
         typingIntervals := typingIntervals s |}
  | Rejected taskId err now =>
      let w1 := if withPersistence
                then Tasks.fail Net isoAt setup taskId err (world s)
                else world s in
      {| world :=
           match activeTasks s !! taskId with
           | Some task => sendErrorReply (t_originalMessage task) err w1
           | None => w1
           end;
         activeTasks :=
           alter (settle failed now (Some err)) taskId (activeTasks s);
         typingIntervals := typingIntervals s |}
  | Finally taskId =>
      match activeTasks s !! taskId with
      | Some task =>
          cleanupTypingIfDone
            (Agent.msg_channelId (t_originalMessage task))
            (Agent.msg_conversationId (t_originalMessage task))
            {| world := world s;
               activeTasks := delete taskId (activeTasks s);
               typingIntervals := typingIntervals s |}
      | None => s
      end
  | TypingTick key =>
      match typingIntervals s !! key with
      | Some (channelId, conversationId) =>
          {| world :=
               withNet (world s)
                 (sendTypingIndicator (Tasks.net Net (world s)) channelId
                    conversationId);
             activeTasks := activeTasks s;
             typingIntervals := typingIntervals s |}
      | None => s
      end
  | PhaseUpdate taskId phase extra =>
      {| world := updatePhase taskId phase extra (world s);
         activeTasks := activeTasks s;
         typingIntervals := typingIntervals s |}
  end.

Definition runEvents (events : list Event) (s : State) : State :=
  foldl (fun s e => step e s) s events.

(** The order the promises give the events of a task: it is submitted
    under an id no task in the map has; [then] or [catch] runs while it is
    running; [finally] runs after that. *)
Definition Enabled (e : Event) (s : State) : Prop :=
  match e with
  | Submit taskId _ _ => activeTasks s !! taskId = None
  | Resolved taskId _ | Rejected taskId _ _ =>
      exists task, activeTasks s !! taskId = Some task /\ t_status task = running
  | Finally taskId =>
      exists task, activeTasks s !! taskId = Some task /\ t_status task <> running
  | TypingTick _ | PhaseUpdate _ _ _ => True
  end.

Fixpoint Valid (events : list Event) (s : State) : Prop :=
  match events with
  | [] => True
  | e :: rest => Enabled e s /\ Valid rest (step e s)
  end.

(** *** The active directory mirrors the running tasks *)

Definition activeFiles (s : State) : gmap jsstring (JsonFile Tasks.PersistedTask) :=
  Tasks.active (Tasks.store Net (world s)).

(** Every file of [active/] is the file of a running task, and every
    running task has its file there, written for its conversation. *)
Definition Mirrors (s : State) : Prop :=
  (forall name c, activeFiles s !! name = Some c ->
     exists task t,
       c = Parsed task /\ name = Tasks.fileOf (Tasks.id task)
       /\ activeTasks s !! Tasks.id task = Some t /\ t_status t = running)
  /\ (forall taskId t, activeTasks s !! taskId = Some t ->
        t_status t = running ->
        exists task,
          activeFiles s !! Tasks.fileOf taskId = Some (Parsed task)
          /\ Tasks.id task = taskId
          /\ Tasks.channelId task = t_channelId t
          /\ Tasks.conversationId task = t_conversationId t).

Lemma fileOf_inj (a b : jsstring) : Tasks.fileOf a = Tasks.fileOf b -> a = b.
Proof. unfold Tasks.fileOf. apply app_inv_tail. Qed.

Lemma ensureTypingIndicator_tasks (channelId conversationId : jsstring)
    (s : State) :
  activeTasks (ensureTypingIndicator channelId conversationId s) = activeTasks s
  /\ Tasks.store Net (world (ensureTypingIndicator channelId conversationId s))
     = Tasks.store Net (world s).
Proof.
  unfold ensureTypingIndicator.
  destruct (typingIntervals s !! _); [split; reflexivity |].
  destruct (getChannel channelId); split; reflexivity.
Qed.

Lemma sendErrorReply_store (message : Agent.NormalizedMessage) (err : jsstring)
    (w : Tasks.World Net) :
  Tasks.store Net (sendErrorReply message err w) = Tasks.store Net w.
Proof. unfold sendErrorReply. destruct (getChannel _); reflexivity. Qed.

Lemma cleanupTypingIfDone_tasks (channelId conversationId : jsstring)
    (s : State) :
  activeTasks (cleanupTypingIfDone channelId conversationId s) = activeTasks s
  /\ world (cleanupTypingIfDone channelId conversationId s) = world s.
Proof.
  unfold cleanupTypingIfDone. destruct (existsb _ _); split; reflexivity.
Qed.

Hypothesis persistence_enabled : Tasks.enabled setup = true.
Hypothesis persistence_given : withPersistence = true.

(** A settled task leaves the directory: what [then] and [catch] do to
    it. *)
Lemma settled_mirrors (s : State) (taskId : jsstring) (w' : Tasks.World Net)
    (f : ConversationTask -> ConversationTask) :
  Mirrors s ->
  (exists task, activeTasks s !! taskId = Some task /\ t_status task = running) ->
  (forall t, t_status (f t) <> running) ->
  (forall task,
     Tasks.active (Tasks.store Net (world s)) !! Tasks.fileOf taskId
     = Some (Parsed task) ->
     Tasks.active (Tasks.store Net w')
     = delete (Tasks.fileOf taskId) (Tasks.active (Tasks.store Net (world s)))) ->
  Mirrors {| world := w';
             activeTasks := alter f taskId (activeTasks s);
             typingIntervals := typingIntervals s |}.
Proof.
  intros [H1 H2] (t0 & Ht0 & Hrun) Hf Hdel.
  destruct (H2 taskId t0 Ht0 Hrun) as (task0 & Hfile0 & Hid0 & _).
  specialize (Hdel task0 Hfile0).
  unfold Mirrors, activeFiles in *. cbn [world activeTasks]. rewrite Hdel.
  split.
  - intros name c Hc.
    destruct (decide (name = Tasks.fileOf taskId)) as [-> | Hne];
      [rewrite lookup_delete_eq in Hc; discriminate |].
    rewrite lookup_delete_ne in Hc by congruence.
    destruct (H1 name c Hc) as (task & t & -> & -> & Ht & Hr).
    exists task, t. repeat split; try assumption.
    rewrite lookup_alter_ne; [exact Ht | congruence].
  - intros id t Ht Hr.
    destruct (decide (id = taskId)) as [-> | Hne].
    + rewrite lookup_alter_eq, Ht0 in Ht. injection Ht as <-.
      elim (Hf t0). exact Hr.
    + rewrite lookup_alter_ne in Ht by congruence.
      destruct (H2 id t Ht Hr) as (task & Hfile & Hrest).
      exists task. split; [| exact Hrest].
      rewrite lookup_delete_ne; [exact Hfile |].
      intros Heq. apply fileOf_inj in Heq. congruence.
Qed.

Lemma step_mirrors (e : Event) (s : State) :
  Mirrors s -> Enabled e s -> Mirrors (step e s).
Proof.
  intros HM Hen. destruct e as [taskId message now | taskId now
    | taskId err now | taskId | key | taskId phase extra];
    cbn [step Enabled] in *.
  - (* submit *)
    destruct HM as [H1 H2]. unfold submit. rewrite persistence_given.
    match goal with
    | |- context [ensureTypingIndicator ?a ?b ?s1] =>
        destruct (ensureTypingIndicator_tasks a b s1) as [Hta Hst];
        set (s1' := ensureTypingIndicator a b s1) in *
    end.
    cbn [activeTasks world] in Hta, Hst.
    unfold Mirrors, activeFiles. cbn [world activeTasks].
    unfold persist. rewrite persistence_enabled. cbn.
    rewrite Hta, Hst. split.
    + intros name c Hc.
      destruct (decide (name = Tasks.fileOf taskId)) as [-> | Hne].
      * rewrite lookup_insert_eq in Hc. injection Hc as <-.
        eexists _, _. split; [reflexivity |]. cbn.
        split; [reflexivity |]. rewrite lookup_insert_eq.
        split; reflexivity.
      * rewrite lookup_insert_ne in Hc by congruence.
        destruct (H1 name c Hc) as (task & t & -> & -> & Ht & Hr).
        exists task, t. repeat split; try assumption.
        rewrite lookup_insert_ne; [exact Ht | congruence].
    + intros id t Ht Hr.
      destruct (decide (id = taskId)) as [-> | Hne].
      * rewrite lookup_insert_eq in Ht. injection Ht as <-.
        rewrite lookup_insert_eq. eexists. split; [reflexivity |].
        cbn. repeat split.
      * rewrite lookup_insert_ne in Ht by congruence.
        destruct (H2 id t Ht Hr) as (task & Hfile & Hrest).
        exists task. split; [| exact Hrest].
        rewrite lookup_insert_ne; [exact Hfile |].
        intros Heq. apply fileOf_inj in Heq. congruence.
  - (* then *)
    rewrite persistence_given.
    apply settled_mirrors; [exact HM | exact Hen | intros t; discriminate |].
    intros task Hfile.
    pose proof (Tasks.complete_moves Net isoAt setup
                  {| Tasks.id := taskId;
                     Tasks.channelId := Tasks.channelId task;
                     Tasks.conversationId := Tasks.conversationId task;
                     Tasks.originalMessage := Tasks.originalMessage task;
                     Tasks.phase := Tasks.phase task;
                     Tasks.startedAt := Tasks.startedAt task;
                     Tasks.updatedAt := Tasks.updatedAt task;
                     Tasks.error := Tasks.error task;
                     Tasks.pendingResponse := Tasks.pendingResponse task |}
                  (world s) persistence_enabled) as Hmv.
    cbn [Tasks.id] in Hmv.
    unfold Tasks.complete in *. rewrite persistence_enabled, Hfile in *.
    cbn. reflexivity.
  - (* catch *)
    rewrite persistence_given.
    apply settled_mirrors; [exact HM | exact Hen | intros t; discriminate |].
    intros task Hfile.
    assert (Hst : forall w,
              Tasks.store Net
                (match activeTasks s !! taskId with
                 | Some task => sendErrorReply (t_originalMessage task) err w
                 | None => w
                 end) = Tasks.store Net w).
    { intros w. destruct (activeTasks s !! taskId);
        [apply sendErrorReply_store | reflexivity]. }
    rewrite Hst.
    unfold Tasks.fail, Tasks.complete.
    rewrite persistence_enabled, Hfile. cbn.
    rewrite lookup_insert_eq. cbn. apply delete_insert_eq.
  - (* finally *)
    destruct Hen as (t0 & Ht0 & Hsettled). rewrite Ht0.
    match goal with
    | |- Mirrors (cleanupTypingIfDone ?a ?b ?s1) =>
        destruct (cleanupTypingIfDone_tasks a b s1) as [Hta Hw];
        set (s1' := cleanupTypingIfDone a b s1) in *
    end.
    cbn [activeTasks world] in Hta, Hw.
    destruct HM as [H1 H2]. unfold Mirrors, activeFiles in *.
    rewrite Hta, Hw. split.
    + intros name c Hc.
      destruct (H1 name c Hc) as (task & t & -> & -> & Ht & Hr).
      exists task, t. repeat split; try assumption.
      rewrite lookup_delete_ne; [exact Ht |]. congruence.
    + intros id t Ht Hr.
      destruct (decide (id = taskId)) as [-> | Hne];
        [rewrite lookup_delete_eq in Ht; discriminate |].
      rewrite lookup_delete_ne in Ht by congruence.
      exact (H2 id t Ht Hr).
  - (* the timer *)
    destruct (typingIntervals s !! key) as [[channelId conversationId]|];
      exact HM.
  - (* updatePhase *)
    destruct HM as [H1 H2]. unfold Mirrors, activeFiles in *.
    cbn [world activeTasks]. unfold updatePhase.
    rewrite persistence_enabled. cbn [negb].
    destruct (Tasks.active (Tasks.store Net (world s)) !! Tasks.fileOf taskId)
      as [[|task0]|] eqn:Hfile0; [split; assumption | | split; assumption].
    cbn. destruct (H1 _ _ Hfile0) as (task & t & Hc & Hname & Ht & Hr).
    injection Hc as <-. apply fileOf_inj in Hname. split.
    + intros name c Hc.
      destruct (decide (name = Tasks.fileOf taskId)) as [-> | Hne].
      * rewrite lookup_insert_eq in Hc. injection Hc as <-.
        eexists _, t. split; [reflexivity |]. cbn [Tasks.id].
        split; [congruence |]. split; assumption.
      * rewrite lookup_insert_ne in Hc by congruence. exact (H1 name c Hc).
    + intros id t' Ht' Hr'.
      destruct (decide (id = taskId)) as [-> | Hne].
      * rewrite lookup_insert_eq.
        destruct (H2 taskId t' Ht' Hr') as (task & Hfile & Hid & Hch & Hconv).
        rewrite Hfile0 in Hfile. injection Hfile as <-.
        eexists. split; [reflexivity |]. cbn. repeat split; assumption.
      * destruct (H2 id t' Ht' Hr') as (task & Hfile & Hrest).
        exists task. split; [| exact Hrest].
        rewrite lookup_insert_ne; [exact Hfile |].
        intros Heq. apply fileOf_inj in Heq. congruence.
Qed.

Lemma runEvents_mirrors (events : list Event) (s : State) :
  Mirrors s -> Valid events s -> Mirrors (runEvents events s).
Proof.
  revert s. induction events as [|e rest IH]; intros s HM Hv; [exact HM |].
  destruct Hv as [Hen Hv]. cbn [runEvents foldl].
  apply IH; [apply step_mirrors; assumption | exact Hv].
Qed.

(** *** Typing timers *)

(** Every timer is kept under the key of the conversation it was started
    for, and that conversation has a task in the map; and every task in the
    map is of the conversation of its message. *)
Definition Timed (s : State) : Prop :=
  (forall key channelId conversationId,
     typingIntervals s !! key = Some (channelId, conversationId) ->
     key = typingKey channelId conversationId
     /\ exists taskId t,
          activeTasks s !! taskId = Some t
          /\ t_channelId t = channelId /\ t_conversationId t = conversationId)
  /\ (forall taskId t, activeTasks s !! taskId = Some t ->
        t_channelId t = Agent.msg_channelId (t_originalMessage t)
        /\ t_conversationId t = Agent.msg_conversationId (t_originalMessage t)).

Lemma hasActive_spec (channelId conversationId : jsstring)
    (tasks : gmap jsstring ConversationTask) :
  existsb (fun entry : jsstring * ConversationTask =>
             str_eqb (t_channelId entry.2) channelId
             && str_eqb (t_conversationId entry.2) conversationId)
    (map_to_list tasks) = true
  <-> exists taskId t,
        tasks !! taskId = Some t
        /\ t_channelId t = channelId /\ t_conversationId t = conversationId.
Proof.
  rewrite existsb_exists. split.
  - intros ([taskId t] & Hin & Hf). apply list_elem_of_In in Hin.
    apply elem_of_map_to_list in Hin. cbn [snd] in Hf.
    apply andb_true_iff in Hf as [Hc Hv].
    apply Heartbeat.str_eqb_true in Hc, Hv. eauto.
  - intros (taskId & t & Hl & Hc & Hv). exists (taskId, t). split.
    + apply list_elem_of_In. apply elem_of_map_to_list. exact Hl.
    + cbn [snd]. apply andb_true_iff.
      split; apply Heartbeat.str_eqb_true; assumption.
Qed.

Lemma settle_timed (s : State) (taskId : jsstring) (w' : Tasks.World Net)
    (status : TaskStatus) (now : Z) (err : option jsstring) :
  Timed s ->
  Timed {| world := w';
           activeTasks := alter (settle status now err) taskId (activeTasks s);
           typingIntervals := typingIntervals s |}.
Proof.
  intros [H1 H2]. unfold Timed. cbn [activeTasks typingIntervals]. split.
  - intros key ch conv Hk.
    destruct (H1 key ch conv Hk) as (Hkey & id & t & Ht & Hc & Hv).
    split; [exact Hkey |].
    destruct (decide (id = taskId)) as [-> | Hne].
    + exists taskId, (settle status now err t).
      rewrite lookup_alter_eq, Ht. repeat split; assumption.
    + exists id, t. rewrite lookup_alter_ne by congruence.
      repeat split; assumption.
  - intros id t Ht.
    destruct (decide (id = taskId)) as [-> | Hne].
    + rewrite lookup_alter_eq in Ht.
      destruct (activeTasks s !! taskId) as [t0|] eqn:Ht0; [| discriminate].
      injection Ht as <-. exact (H2 taskId t0 Ht0).
    + rewrite lookup_alter_ne in Ht by congruence. exact (H2 id t Ht).
Qed.

Lemma step_timed (e : Event) (s : State) :
  Timed s -> Enabled e s -> Timed (step e s).
Proof.
  intros HT Hen. destruct e as [taskId message now | taskId now
    | taskId err now | taskId | key | taskId phase extra];
    cbn [step Enabled] in *.
  - (* submit *)
    destruct HT as [H1 H2]. unfold submit, Timed.
    cbn [activeTasks typingIntervals].
    set (task := {| t_id := taskId;
                    t_conversationId := Agent.msg_conversationId message;
                    t_channelId := Agent.msg_channelId message;
                    t_originalMessage := message; t_status := running;
                    t_startedAt := now; t_completedAt := None;
                    t_error := None |}).
    assert (Hold : forall key ch conv,
              typingIntervals s !! key = Some (ch, conv) ->
              key = typingKey ch conv
              /\ exists id t, <[taskId := task]> (activeTasks s) !! id = Some t
                              /\ t_channelId t = ch /\ t_conversationId t = conv).
    { intros key ch conv Hk.
      destruct (H1 key ch conv Hk) as (Hkey & id & t & Ht & Hc & Hv).
      split; [exact Hkey |]. exists id, t.
      rewrite lookup_insert_ne by congruence. repeat split; assumption. }
    assert (Htasks : forall id t,
              <[taskId := task]> (activeTasks s) !! id = Some t ->
              t_channelId t = Agent.msg_channelId (t_originalMessage t)
              /\ t_conversationId t
                 = Agent.msg_conversationId (t_originalMessage t)).
    { intros id t Ht. destruct (decide (id = taskId)) as [-> | Hne].
      - rewrite lookup_insert_eq in Ht. injection Ht as <-. split; reflexivity.
      - rewrite lookup_insert_ne in Ht by congruence. exact (H2 id t Ht). }
    unfold ensureTypingIndicator. cbn [typingIntervals activeTasks world].
    destruct (typingIntervals s !! typingKey _ _) eqn:Hkey;
      [split; assumption |].
    destruct (getChannel _); [| split; assumption].
    cbn [typingIntervals activeTasks]. split; [| exact Htasks].
    intros key ch conv Hk.
    destruct (decide (key = typingKey (Agent.msg_channelId message)
                              (Agent.msg_conversationId message)))
      as [-> | Hne].
    + rewrite lookup_insert_eq in Hk. injection Hk as <- <-.
      split; [reflexivity |]. exists taskId, task.
      rewrite lookup_insert_eq. repeat split.
    + rewrite lookup_insert_ne in Hk by congruence. exact (Hold key ch conv Hk).
  - apply settle_timed. exact HT.
  - apply settle_timed. exact HT.
  - (* finally *)
    destruct Hen as (t0 & Ht0 & _). rewrite Ht0.
    destruct HT as [H1 H2]. destruct (H2 taskId t0 Ht0) as [Hc0 Hv0].
    rewrite <- Hc0, <- Hv0.
    assert (Htasks : forall id t, delete taskId (activeTasks s) !! id = Some t ->
              t_channelId t = Agent.msg_channelId (t_originalMessage t)
              /\ t_conversationId t
                 = Agent.msg_conversationId (t_originalMessage t)).
    { intros id t Ht. destruct (decide (id = taskId)) as [-> | Hne];
        [rewrite lookup_delete_eq in Ht; discriminate |].
      rewrite lookup_delete_ne in Ht by congruence. exact (H2 id t Ht). }
    unfold cleanupTypingIfDone. cbn [activeTasks typingIntervals world].
    destruct (existsb _ _) eqn:Hactive.
    + apply hasActive_spec in Hactive as (id1 & t1 & Ht1 & Hc1 & Hv1).
      split; [| exact Htasks]. cbn [activeTasks typingIntervals].
      intros key ch conv Hk.
      destruct (H1 key ch conv Hk) as (Hkey & id & t & Ht & Hc & Hv).
      split; [exact Hkey |].
      destruct (decide (id = taskId)) as [-> | Hne].
      * rewrite Ht0 in Ht. injection Ht as <-.
        exists id1, t1. repeat split; congruence.
      * exists id, t. rewrite lookup_delete_ne by congruence.
        repeat split; assumption.
    + split; [| exact Htasks]. cbn [activeTasks typingIntervals].
      intros key ch conv Hk.
      destruct (decide (key = typingKey (t_channelId t0) (t_conversationId t0)))
        as [-> | Hkne]; [rewrite lookup_delete_eq in Hk; discriminate |].
      rewrite lookup_delete_ne in Hk by congruence.
      destruct (H1 key ch conv Hk) as (Hkey & id & t & Ht & Hc & Hv).
      split; [exact Hkey |].
      destruct (decide (id = taskId)) as [-> | Hne].
      * rewrite Ht0 in Ht. injection Ht as <-. congruence.
      * exists id, t. rewrite lookup_delete_ne by congruence.
        repeat split; assumption.
  - destruct (typingIntervals s !! key) as [[channelId conversationId]|];
      exact HT.
  - exact HT.
Qed.

Lemma runEvents_timed (events : list Event) (s : State) :
  Timed s -> Valid events s -> Timed (runEvents events s).
Proof.
  revert s. induction events as [|e rest IH]; intros s HT Hv; [exact HT |].
  destruct Hv as [Hen Hv]. cbn [runEvents foldl].
  apply IH; [apply step_timed; assumption | exact Hv].
Qed.

End WithWorld.

Arguments world {Net} _.
Arguments activeTasks {Net} _.
Arguments typingIntervals {Net} _.

(** X11: with persistence enabled, from a task manager without tasks and an
    empty [active/] directory, after any events in the order the promises
    give them the directory mirrors the running tasks: every task whose
    pipeline has not settled has its file, written under its id for its
    conversation; every file of [active/] parses and is the file of such a
    task; so a settled task leaves no file behind, whatever phase updates
    were made. *)
Theorem active_directory_mirrors_running_tasks (Net : Type)
    (sendMessage :
       Net -> jsstring -> jsstring -> OutgoingMessage -> Net * option jsstring)
    (sendTypingIndicator : Net -> jsstring -> jsstring -> Net)
    (isoAt : nat -> jsstring) (setup : Tasks.Setup) (events : list Event)
    (s0 : State Net) :
  Tasks.enabled setup = true ->
  activeTasks s0 = ∅ ->
  Tasks.active (Tasks.store Net (world s0)) = ∅ ->
  Valid Net sendMessage sendTypingIndicator isoAt setup true events s0 ->
  let s :=
    runEvents Net sendMessage sendTypingIndicator isoAt setup true events s0 in
  let files := Tasks.active (Tasks.store Net (world s)) in
  (forall taskId t,
     activeTasks s !! taskId = Some t -> t_status t = running ->
     exists task,
       files !! Tasks.fileOf taskId = Some (Parsed task)
       /\ Tasks.id task = taskId
       /\ Tasks.channelId task = t_channelId t
       /\ Tasks.conversationId task = t_conversationId t)
  /\ (forall name c, files !! name = Some c ->
        exists task t,
          c = Parsed task /\ name = Tasks.fileOf (Tasks.id task)
          /\ activeTasks s !! Tasks.id task = Some t /\ t_status t = running)
  /\ Tasks.TaskFiles (Tasks.store Net (world s)).
Proof.
  intros Hen Htasks Hfiles Hvalid s files.
  assert (H0 : Mirrors Net s0).
  { split.
    - intros name c Hc. unfold activeFiles in Hc.
      rewrite Hfiles, lookup_empty in Hc. discriminate.
    - intros id t Ht. rewrite Htasks, lookup_empty in Ht. discriminate. }
  destruct (runEvents_mirrors Net sendMessage sendTypingIndicator isoAt setup
              true Hen eq_refl events s0 H0 Hvalid) as [H1 H2].
  fold s in H1, H2. unfold activeFiles in H1, H2. fold files in H1, H2.
  split; [exact H2 |]. split; [exact H1 |].
  intros name c Hc. destruct (H1 name c Hc) as (task & t & -> & -> & _).
  exists task. split; reflexivity.
Qed.

(** X12: from a task manager without tasks and without typing timers, after
    any events in the order the promises give them every typing timer
    belongs to a conversation that has a task in the map; so no timer is left
    when no task is. *)
Theorem typing_timer_has_a_task (Net : Type)
    (sendMessage :
       Net -> jsstring -> jsstring -> OutgoingMessage -> Net * option jsstring)
    (sendTypingIndicator : Net -> jsstring -> jsstring -> Net)
    (isoAt : nat -> jsstring) (setup : Tasks.Setup) (withPersistence : bool)
    (events : list Event) (s0 : State Net) :
  activeTasks s0 = ∅ ->
  typingIntervals s0 = ∅ ->
  Valid Net sendMessage sendTypingIndicator isoAt setup withPersistence
    events s0 ->
  let s :=
    runEvents Net sendMessage sendTypingIndicator isoAt setup withPersistence
      events s0 in
  (forall key channelId conversationId,
     typingIntervals s !! key = Some (channelId, conversationId) ->
     exists taskId t,
       activeTasks s !! taskId = Some t
       /\ t_channelId t = channelId /\ t_conversationId t = conversationId)
  /\ (activeTasks s = ∅ -> typingIntervals s = ∅).
Proof.
  intros Htasks Htimers Hvalid s.
  assert (H0 : Timed Net s0).
  { split.
    - intros key ch conv Hk. rewrite Htimers, lookup_empty in Hk. discriminate.
    - intros id t Ht. rewrite Htasks, lookup_empty in Ht. discriminate. }
  destruct (runEvents_timed Net sendMessage sendTypingIndicator isoAt setup
              withPersistence events s0 H0 Hvalid) as [H1 _].
  fold s in H1.
  assert (H : forall key channelId conversationId,
            typingIntervals s !! key = Some (channelId, conversationId) ->
            exists taskId t,
              activeTasks s !! taskId = Some t
              /\ t_channelId t = channelId
              /\ t_conversationId t = conversationId).
  { intros key ch conv Hk. exact (proj2 (H1 key ch conv Hk)). }
  split; [exact H |].
  intros Hnone. apply map_empty. intros key.
  destruct (typingIntervals s !! key) as [[ch conv]|] eqn:Hk; [| reflexivity].
  destruct (H key ch conv Hk) as (id & t & Ht & _).
  rewrite Hnone, lookup_empty in Ht. discriminate.
Qed.

Lemma listed (Net : Type) (setup : Tasks.Setup) (w : Tasks.World Net)
    (taskId : jsstring) (task : Tasks.PersistedTask) :
  Tasks.enabled setup = true ->
  Tasks.active (Tasks.store Net w) !! Tasks.fileOf taskId = Some (Parsed task) ->
  task ∈ Tasks.listActive Net setup w.
Proof.
  intros Hen Hfile. unfold Tasks.listActive. rewrite Hen. cbn [negb].
  apply list_elem_of_omap. exists (Tasks.fileOf taskId, Parsed task). split.
  - apply elem_of_map_to_list. exact Hfile.
  - cbn [fst snd]. rewrite Tasks.endsWith_fileOf. reflexivity.
Qed.

(** X13: with persistence enabled, a task that was persisted is among the
    tasks [listActive] reads, in phase [received] and with the conversation
    and the text of its message; after [updatePhase] under the same id it is
    listed in the new phase, with the pending response and the error given;
    and [updatePhase] under an id that has no file in [active/] changes
    nothing. *)
Theorem persisted_task_is_listed (Net : Type) (isoAt : nat -> jsstring)
    (setup : Tasks.Setup) (taskId : jsstring)
    (message : Agent.NormalizedMessage) (phase : Tasks.TaskPhase)
    (extra : option PhaseExtra) (w : Tasks.World Net) :
  Tasks.enabled setup = true ->
  let w1 := persist Net isoAt setup taskId message w in
  let w2 := updatePhase Net isoAt setup taskId phase extra w1 in
  let ofMessage := fun task =>
    Tasks.id task = taskId
    /\ Tasks.channelId task = Agent.msg_channelId message
    /\ Tasks.conversationId task = Agent.msg_conversationId message
    /\ Tasks.om_text (Tasks.originalMessage task) = Agent.msg_text message
    /\ Tasks.om_platformMessageId (Tasks.originalMessage task)
       = Agent.msg_platformMessageId message in
  (exists task,
     task ∈ Tasks.listActive Net setup w1
     /\ ofMessage task /\ Tasks.phase task = Tasks.received
     /\ Tasks.pendingResponse task = None /\ Tasks.error task = None)
  /\ (exists task,
        task ∈ Tasks.listActive Net setup w2
        /\ ofMessage task /\ Tasks.phase task = phase
        /\ Tasks.pendingResponse task = extra ≫= x_pendingResponse
        /\ Tasks.error task = extra ≫= x_error)
  /\ (forall other,
        Tasks.active (Tasks.store Net w) !! Tasks.fileOf other = None ->
        updatePhase Net isoAt setup other phase extra w = w).
Proof.
  intros Hen w1 w2 ofMessage. subst w1 w2 ofMessage.
  split; [| split].
  - eexists. split.
    + apply (listed Net setup _ taskId); [exact Hen |].
      unfold persist. rewrite Hen. cbn [negb Tasks.readClock Tasks.withStore
        Tasks.store Tasks.active]. apply lookup_insert_eq.
    + cbn. repeat split.
  - eexists. split.
    + apply (listed Net setup _ taskId); [exact Hen |].
      unfold updatePhase, persist. rewrite Hen.
      cbn [negb Tasks.readClock Tasks.withStore Tasks.store Tasks.active].
      rewrite lookup_insert_eq.
      cbn [Tasks.readClock Tasks.withStore Tasks.store Tasks.active].
      apply lookup_insert_eq.
    + cbn [Tasks.id Tasks.channelId Tasks.conversationId Tasks.originalMessage
           Tasks.phase Tasks.pendingResponse Tasks.error Tasks.om_text
           Tasks.om_platformMessageId].
      repeat split;
        destruct extra as [[pending err]|]; cbn;
        try destruct pending; try destruct err; reflexivity.
  - intros other Hnone. unfold updatePhase. rewrite Hnone.
    destruct (negb _); reflexivity.
Qed.

(** The theorem at a message of the web channel, with a pending response
    given at the phase [verifying]. *)
Lemma persisted_task_is_listed_witness :
  let w := {| Tasks.store := {| Tasks.active := ∅; Tasks.completedDir := ∅ |};
              Tasks.net := tt; Tasks.tick := 0%nat;
              Tasks.journalLog := [] |} in
  let extra := Some {| x_pendingResponse := Some (lit "42");
                       x_error := None |} in
  Tasks.enabled {| Tasks.enabled := true; Tasks.withJournal := false;
                   Tasks.registered := ∅ |} = true
  /\ map Tasks.phase
       (Tasks.listActive unit
          {| Tasks.enabled := true; Tasks.withJournal := false;
             Tasks.registered := ∅ |}
          (updatePhase unit (fun _ => lit "2026-01-01T00:00:00.000Z")
             {| Tasks.enabled := true; Tasks.withJournal := false;
                Tasks.registered := ∅ |}
             (lit "t1") Tasks.verifying extra
             (persist unit (fun _ => lit "2026-01-01T00:00:00.000Z")
                {| Tasks.enabled := true; Tasks.withJournal := false;
                   Tasks.registered := ∅ |}
                (lit "t1")
                {| Agent.msg_id := lit "m1"; Agent.msg_channelId := lit "web";
                   Agent.msg_conversationId := lit "c1";
                   Agent.msg_senderId := lit "u1";
                   Agent.msg_senderName := None;
                   Agent.msg_text := lit "6 times 7";
                   Agent.msg_timestamp := 0;
                   Agent.msg_platformMessageId := None |} w)))
     = [Tasks.verifying]
  /\ updatePhase unit (fun _ => lit "2026-01-01T00:00:00.000Z")
       {| Tasks.enabled := true; Tasks.withJournal := false;
          Tasks.registered := ∅ |}
       (lit "m1") Tasks.verifying extra w = w.
Proof.
  cbv zeta. split; [reflexivity |]. split; [vm_compute; reflexivity |].
  refine (proj2 (proj2 (persisted_task_is_listed unit
                          (fun _ => lit "2026-01-01T00:00:00.000Z")
                          {| Tasks.enabled := true; Tasks.withJournal := false;
                             Tasks.registered := ∅ |}
                          (lit "t1")
                          {| Agent.msg_id := lit "m1";
                             Agent.msg_channelId := lit "web";
                             Agent.msg_conversationId := lit "c1";
                             Agent.msg_senderId := lit "u1";
                             Agent.msg_senderName := None;
                             Agent.msg_text := lit "6 times 7";
                             Agent.msg_timestamp := 0;
                             Agent.msg_platformMessageId := None |}
                          Tasks.verifying _ _ eq_refl)) (lit "m1") _).
  apply lookup_empty.
Defined.

(** Two messages of one conversation; the first task fails and is done,
    the second is still running. *)
Definition hello (text : string) : Agent.NormalizedMessage :=
  {| Agent.msg_id := lit "m1"; Agent.msg_channelId := lit "web";
     Agent.msg_conversationId := lit "c1"; Agent.msg_senderId := lit "u1";
     Agent.msg_senderName := None; Agent.msg_text := lit text;
     Agent.msg_timestamp := 0; Agent.msg_platformMessageId := None |}.

Definition webOnly : Tasks.Setup :=
  {| Tasks.enabled := true; Tasks.withJournal := false;
     Tasks.registered := {[ lit "web" ]} |}.

Definition quiet : State unit :=
  {| world := {| Tasks.store := {| Tasks.active := ∅;
                                   Tasks.completedDir := ∅ |};
                 Tasks.net := tt; Tasks.tick := 0;
                 Tasks.journalLog := [] |};
     activeTasks := ∅; typingIntervals := ∅ |}.

Definition twoTasks : list Event :=
  [ Submit (lit "t1") (hello "one") 0;
    Submit (lit "t2") (hello "two") 1;
    PhaseUpdate (lit "t2") Tasks.llm_calling None;
    Rejected (lit "t1") (lit "Error: llm down") 2;
    Finally (lit "t1") ].

Definition silent (n : unit) (channelId conversationId : jsstring)
    (message : OutgoingMessage) : unit * option jsstring := (n, None).

Definition stamp (n : nat) : jsstring := lit "2026-01-01T00:00:00.000Z".

Lemma twoTasks_valid (withPersistence : bool) :
  Valid unit silent (fun n _ _ => n) stamp webOnly withPersistence twoTasks
    quiet.
Proof.
  destruct withPersistence; vm_compute;
    (split; [reflexivity |]); (split; [reflexivity |]); (split; [exact I |]);
    (split; [eexists; split; reflexivity |]);
    (split; [eexists; split; [reflexivity | discriminate] | exact I]).
Qed.

Lemma active_directory_mirrors_running_tasks_witness :
  let s := runEvents unit silent (fun n _ _ => n) stamp webOnly true twoTasks
             quiet in
  Tasks.enabled webOnly = true
  /\ Tasks.TaskFiles (Tasks.store unit (world s))
  /\ map fst (map_to_list (Tasks.active (Tasks.store unit (world s))))
     = [lit "t2.json"].
Proof.
  cbv zeta. split; [reflexivity |]. split.
  - exact (proj2 (proj2 (active_directory_mirrors_running_tasks unit silent
                           (fun n _ _ => n) stamp webOnly twoTasks quiet
                           eq_refl eq_refl eq_refl (twoTasks_valid true)))).
  - vm_compute. reflexivity.
Defined.

Lemma typing_timer_has_a_task_witness :
  let s := runEvents unit silent (fun n _ _ => n) stamp webOnly false
             (twoTasks ++ [Resolved (lit "t2") 3; Finally (lit "t2")])
             quiet in
  activeTasks s = ∅ /\ typingIntervals s = ∅.
Proof.
  cbv zeta.
  assert (Hv : Valid unit silent (fun n _ _ => n) stamp webOnly false
                 (twoTasks ++ [Resolved (lit "t2") 3; Finally (lit "t2")])
                 quiet).
  { vm_compute.
    split; [reflexivity |]. split; [reflexivity |]. split; [exact I |].
    split; [eexists; split; reflexivity |].
    split; [eexists; split; [reflexivity | discriminate] |].
    split; [eexists; split; reflexivity |].
    split; [eexists; split; [reflexivity | discriminate] | exact I]. }
  assert (Hnone : activeTasks
                    (runEvents unit silent (fun n _ _ => n) stamp webOnly false
                       (twoTasks ++ [Resolved (lit "t2") 3; Finally (lit "t2")])
                       quiet) = ∅).
  { vm_compute. reflexivity. }
  split; [exact Hnone |].
  exact (proj2 (typing_timer_has_a_task unit silent (fun n _ _ => n) stamp
                  webOnly false _ quiet eq_refl eq_refl Hv) Hnone).
Defined.

End TaskManager.

(** ** Verification: the builtin rules, the rule verifier and the
    verification loop (agent/verification, agent/agent-service.ts) *)

Module Verification.

Import Rules.

(** *** The other builtin rules *)

(** A word character of the class [\w]. *)
Definition isWordChar (c : N) : bool :=
  (((48 <=? c) && (c <=? 57)) || ((65 <=? c) && (c <=? 90))
   || ((97 <=? c) && (c <=? 122)) || (c =? 95))%N.

Definition codeKeywords : list jsstring :=
  [ lit "write"; lit "create"; lit "implement"; lit "code"; lit "function";
    lit "class"; lit "script"; lit "program" ].

(** The keyword matches here, whatever the case of the letters, and a word
    boundary follows it: the end of the text or a character that is not a
    word character. *)
Definition keywordHere (s keyword : jsstring) : bool :=
  existsb (fun rest => match rest with
                       | [] => true
                       | c :: _ => negb (isWordChar c)
                       end)
    (rmatch true (fold_right (fun c r => RSeq (RChar c) r) REps keyword) s).

(** The test of the keyword pattern, scanning from the left: a keyword
    between two word boundaries; [afterWord] tells whether the character
    before the position is a word character. *)
Fixpoint keywordFrom (afterWord : bool) (s : jsstring) : bool :=
  match s with
  | [] => false
  | c :: r =>
      (negb afterWord && existsb (keywordHere s) codeKeywords)
      || keywordFrom (isWordChar c) r
  end.

(** [s.includes(p)]. *)
Fixpoint includes (p s : jsstring) : bool :=
  startsWith p s
  || match s with
     | [] => false
     | _ :: r => includes p r
     end.

Definition codeFence : jsstring := [96; 96; 96]%N.

Definition codeQualityRule_check (request response : jsstring)
  : option VerificationResult :=
  if keywordFrom false request && negb (includes codeFence response) then
    Some (fail (lit "code-quality")
            (lit "User asked for code but response contains no code block")
            None)
  else None.

Definition directAnswerRule_check (request response : jsstring)
  : option VerificationResult :=
  let isQuestion := endsWith (lit "?") (trim request) in
  if isQuestion && (Z.of_nat (length (trim response)) <? 10) then
    Some (fail (lit "direct-answer")
            (lit "Response is too short for a question that deserves a substantive answer")
            None)
  else None.

Record VerificationRule := {
  rule_id : jsstring;
  check : jsstring -> jsstring -> option VerificationResult;
}.

Definition getBuiltinRules : list VerificationRule :=
  [ {| rule_id := lit "completeness"; check := completenessRule_check |};
    {| rule_id := lit "code-quality"; check := codeQualityRule_check |};
    {| rule_id := lit "direct-answer"; check := directAnswerRule_check |} ].

Definition good : VerificationResult :=
  {| passed := true; rating := GOOD; feedback := []; confidence := 1%Q |}.

(** [RuleVerifier.verify]: the result of the first rule that gives one
    that did not pass. *)
Fixpoint verifyRules (rules : list VerificationRule)
    (request response : jsstring) : VerificationResult :=
  match rules with
  | [] => good
  | rule :: rest =>
      match check rule request response with
      | Some result =>
          if negb (passed result) then result
          else verifyRules rest request response
      | None => verifyRules rest request response
      end
  end.

(** *** The verification loop *)

Inductive Event :=
| EVerify (request response : jsstring) (conversationHistory : list jsstring)
    (attempt : Z) (answer : jsstring + VerificationResult)
| EChat (messages : list ChatMessage)
    (answer : jsstring + ChatCompletionResult).

Section WithOracle.

(** The verifier and the LLM service, as oracles over one state ([inl] is
    the text of the error thrown); [String(n)] for an integer; and the
    system prompt of the persona. *)
Variable W : Type.
Variable verifier_verify :
  W -> jsstring -> jsstring -> list jsstring -> Z ->
  W * (jsstring + VerificationResult).
Variable llm_chat :
  W -> list ChatMessage -> W * (jsstring + ChatCompletionResult).
Variable numberToString : Z -> jsstring.
Variable systemPrompt : jsstring.

Record St := {
  world : W;
  trace : list Event;
}.

Definition M (A : Type) : Type := St -> St * (jsstring + A).

Definition ret {A} (a : A) : M A := fun st => (st, inr a).

Definition bind {A B} (m : M A) (k : A -> M B) : M B :=
  fun st =>
    match m st with
    | (st', inl err) => (st', inl err)
    | (st', inr a) => k a st'
    end.

Notation "'let*' x ':=' m 'in' k" := (bind m (fun x => k))
  (at level 10, x name, m at level 100, k at level 200).

Definition verify (request response : jsstring)
    (conversationHistory : list jsstring) (attempt : Z)
  : M VerificationResult :=
  fun st =>
    let '(w, answer) :=
      verifier_verify (world st) request response conversationHistory attempt in
    ({| world := w;
        trace := trace st
                 ++ [EVerify request response conversationHistory attempt answer] |},
     answer).

Definition chat (messages : list ChatMessage) : M ChatCompletionResult :=
  fun st =>
    let '(w, answer) := llm_chat (world st) messages in
    ({| world := w; trace := trace st ++ [EChat messages answer] |}, answer).

Definition redoMessages (history : list ChatMessage)
    (cumulativeFeedback : jsstring) : list ChatMessage :=
  {| role := system;
     content :=
       systemPrompt ++ [10%N; 10%N]
       ++ lit "Previous attempt failed verification. Feedback:"
       ++ cumulativeFeedback ++ [10%N; 10%N]
       ++ lit "Please provide a complete, improved response.";
     toolCallId := None |} :: history.

Definition fixMessages (history : list ChatMessage)
    (currentResponse resultFeedback : jsstring) : list ChatMessage :=
  {| role := system; content := systemPrompt; toolCallId := None |}
  :: history
  ++ [ {| role := assistant; content := currentResponse; toolCallId := None |};
       {| role := user;
          content :=
            lit "Your response has issues that need fixing:" ++ [10%N]
            ++ resultFeedback ++ [10%N; 10%N]
            ++ lit "Please revise your response to address these specific issues.";
          toolCallId := None |} ].

(** The [for] loop with [remaining = maxRetries - attempt]. *)
Fixpoint verificationLoop (remaining : nat) (attempt : Z)
    (request : jsstring) (history : list ChatMessage)
    (currentResponse cumulativeFeedback : jsstring) : M jsstring :=
  match remaining with
  | O => ret currentResponse
  | S remaining' =>
      let* result :=
        verify request currentResponse (map content history) attempt in
      if passed result then ret currentResponse
      else
        let cumulativeFeedback' :=
          cumulativeFeedback ++ [10%N] ++ lit "Attempt "
          ++ numberToString (attempt + 1) ++ lit " feedback: "
          ++ feedback result in
        let messages :=
          match rating result with
          | REDO => redoMessages history cumulativeFeedback'
          | _ => fixMessages history currentResponse (feedback result)
          end in
        let* newResult := chat messages in
        verificationLoop remaining' (attempt + 1) request history
          (cr_content newResult) cumulativeFeedback'
  end.

Definition runVerificationLoop (request response : jsstring)
    (history : list ChatMessage) (maxRetries : nat) : M jsstring :=
  verificationLoop maxRetries 0 request history response [].

End WithOracle.

Arguments trace {W} _.
Arguments world {W} _.

Definition isVerify (e : Event) : bool :=
  match e with EVerify _ _ _ _ _ => true | EChat _ _ => false end.

Definition isChat (e : Event) : bool :=
  match e with EChat _ _ => true | EVerify _ _ _ _ _ => false end.

(** A verification that said the response passed. *)
Definition accepts (response : jsstring) (e : Event) : Prop :=
  match e with
  | EVerify _ verified _ _ (inr result) =>
      verified = response /\ passed result = true
  | _ => False
  end.

(** A verification that did not pass, or a regeneration. *)
Definition rejects (e : Event) : Prop :=
  match e with
  | EVerify _ _ _ _ (inr result) => passed result = false
  | EVerify _ _ _ _ (inl _) => False
  | EChat _ (inr _) => True
  | EChat _ (inl _) => False
  end.

(** The content of the last answer of the LLM, or the response the loop
    was given when there is none. *)
Definition lastAnswer (response : jsstring) (events : list Event) : jsstring :=
  foldl (fun current e =>
           match e with
           | EChat _ (inr answer) => cr_content answer
           | _ => current
           end) response events.

Definition verifications (events : list Event) : nat :=
  length (List.filter isVerify events).

Definition regenerations (events : list Event) : nat :=
  length (List.filter isChat events).

(** The loop was exhausted: after [remaining] rounds the last thing it did
    was to ask the LLM for the answer it returns. *)
Definition Exhausted (remaining : nat) (response : jsstring)
    (events : list Event) : Prop :=
  Forall rejects events
  /\ verifications events = remaining
  /\ regenerations events = remaining
  /\ match remaining with
     | O => events = []
     | S _ => exists before messages answer,
                events = before ++ [EChat messages (inr answer)]
                /\ response = cr_content answer
     end.

Section LoopFacts.

Variable W : Type.
Variable verifier_verify :
  W -> jsstring -> jsstring -> list jsstring -> Z ->
  W * (jsstring + VerificationResult).
Variable llm_chat :
  W -> list ChatMessage -> W * (jsstring + ChatCompletionResult).
Variable numberToString : Z -> jsstring.
Variable systemPrompt : jsstring.

Lemma verificationLoop_spec (remaining : nat) (attempt : Z)
    (request : jsstring) (history : list ChatMessage)
    (currentResponse cumulativeFeedback : jsstring) (st st' : St W)
    (outcome : jsstring + jsstring) :
  verificationLoop W verifier_verify llm_chat numberToString systemPrompt
    remaining attempt request history currentResponse cumulativeFeedback st
  = (st', outcome) ->
  exists new,
    trace st' = trace st ++ new
    /\ (verifications new <= remaining)%nat
    /\ (regenerations new <= verifications new)%nat
    /\ forall response, outcome = inr response ->
         response = lastAnswer currentResponse new
         /\ ((exists before e,
                new = before ++ [e] /\ accepts response e
                /\ Forall rejects before)
             \/ Exhausted remaining response new).
Proof.
  revert attempt currentResponse cumulativeFeedback st.
  induction remaining as [|remaining IH];
    intros attempt currentResponse cumulativeFeedback st Hrun.
  - injection Hrun as <- <-. exists []. rewrite app_nil_r.
    split; [reflexivity |]. split; [apply le_n |]. split; [apply le_n |].
    intros response [= <-]. split; [reflexivity |]. right.
    repeat split; constructor.
  - cbn [verificationLoop] in Hrun. unfold bind, verify, chat in Hrun.
    destruct (verifier_verify (world st) request currentResponse
                (map content history) attempt) as [w1 [err | result]].
    { injection Hrun as <- <-. eexists [_]. cbn.
      split; [reflexivity |]. split; [cbn; lia |]. split; [cbn; lia |].
      intros response H. discriminate H. }
    destruct (passed result) eqn:Hpassed.
    { injection Hrun as <- <-. eexists [_]. cbn.
      split; [reflexivity |]. split; [cbn; lia |]. split; [cbn; lia |].
      intros response [= <-]. split; [reflexivity |]. left.
      exists [], (EVerify request currentResponse (map content history) attempt
                    (inr result)).
      split; [reflexivity |]. split; [split; [reflexivity | exact Hpassed] |].
      constructor. }
    cbn [world trace] in Hrun.
    match type of Hrun with
    | context [llm_chat w1 ?m] =>
        set (messages := m) in *;
        destruct (llm_chat w1 messages) as [w2 [err | answer]]
    end.
    { injection Hrun as <- <-. eexists [_; _]. cbn. rewrite <- app_assoc.
      split; [reflexivity |]. split; [cbn; lia |]. split; [cbn; lia |].
      intros response H. discriminate H. }
    destruct (IH _ _ _ _ Hrun) as (new & Htr & Hv & Hc & Hret).
    cbn [trace] in Htr.
    set (ev := EVerify request currentResponse (map content history) attempt
                 (inr result)) in *.
    set (ec := EChat messages (inr answer)) in *.
    exists ([ev; ec] ++ new).
    split; [rewrite Htr, <- !app_assoc; reflexivity |].
    assert (Hcounts : verifications ([ev; ec] ++ new) = S (verifications new)
                      /\ regenerations ([ev; ec] ++ new)
                         = S (regenerations new)).
    { unfold verifications, regenerations.
      rewrite !List.filter_app, !length_app. split; reflexivity. }
    destruct Hcounts as [Hnv Hnc]. rewrite Hnv, Hnc.
    split; [lia |]. split; [lia |].
    intros response Hout. destruct (Hret response Hout) as [Hlast Hcase].
    split.
    { unfold lastAnswer in *. rewrite foldl_app. exact Hlast. }
    assert (Hhead : Forall rejects [ev; ec]).
    { constructor; [exact Hpassed | constructor; [exact I | constructor]]. }
    destruct Hcase as [(before & e & -> & Hacc & Hrej) | (Hrej & Hev & Hec & Hend)].
    + left. exists ([ev; ec] ++ before), e.
      split; [rewrite app_assoc; reflexivity |].
      split; [exact Hacc |]. apply Forall_app. split; assumption.
    + right. split; [apply Forall_app; split; assumption |].
      rewrite Hnv, Hnc, Hev, Hec.
      split; [reflexivity |]. split; [reflexivity |].
      destruct remaining as [|remaining'].
      * subst new. exists [ev], messages, answer.
        split; [reflexivity |]. rewrite Hlast. reflexivity.
      * destruct Hend as (before & messages' & answer' & -> & Hresp).
        exists ([ev; ec] ++ before), messages', answer'.
        split; [rewrite app_assoc; reflexivity | exact Hresp].
Qed.

End LoopFacts.

(** X14: the verification loop makes at most [maxRetries] verifications, and
    no more regenerations than verifications. *)
Theorem runVerificationLoop_bounded (W : Type)
    (verifier_verify :
       W -> jsstring -> jsstring -> list jsstring -> Z ->
       W * (jsstring + VerificationResult))
    (llm_chat : W -> list ChatMessage -> W * (jsstring + ChatCompletionResult))
    (numberToString : Z -> jsstring) (systemPrompt request response : jsstring)
    (history : list ChatMessage) (maxRetries : nat) (st : St W) :
  exists new,
    trace (runVerificationLoop W verifier_verify llm_chat numberToString
             systemPrompt request response history maxRetries st).1
    = trace st ++ new
    /\ (verifications new <= maxRetries)%nat
    /\ (regenerations new <= verifications new)%nat.
Proof.
  unfold runVerificationLoop.
  destruct (verificationLoop W verifier_verify llm_chat numberToString
              systemPrompt maxRetries 0 request history response [] st)
    as [st' outcome] eqn:Hrun.
  destruct (verificationLoop_spec W verifier_verify llm_chat numberToString
              systemPrompt maxRetries 0 request history response [] st st'
              outcome Hrun)
    as (new & H1 & H2 & H3 & _).
  exists new. repeat split; assumption.
Qed.

(** X15: when the verification loop returns, it returns the last answer of
    the LLM, or the response it was given when it did not ask; and either
    the last thing it did was a verification that accepted this very
    response, every verdict before having failed, or it made [maxRetries]
    verifications, which all failed, and as many regenerations, and what it
    returns is the answer of the last regeneration, which no verification has
    seen (the response given, unverified, when [maxRetries] is zero). *)
Theorem runVerificationLoop_returns (W : Type)
    (verifier_verify :
       W -> jsstring -> jsstring -> list jsstring -> Z ->
       W * (jsstring + VerificationResult))
    (llm_chat : W -> list ChatMessage -> W * (jsstring + ChatCompletionResult))
    (numberToString : Z -> jsstring) (systemPrompt request response : jsstring)
    (history : list ChatMessage) (maxRetries : nat) (st st' : St W)
    (returned : jsstring) :
  runVerificationLoop W verifier_verify llm_chat numberToString systemPrompt
    request response history maxRetries st = (st', inr returned) ->
  exists new,
    trace st' = trace st ++ new
    /\ returned = lastAnswer response new
    /\ ((exists before e,
           new = before ++ [e] /\ accepts returned e /\ Forall rejects before)
        \/ Exhausted maxRetries returned new).
Proof.
  intros Hrun.
  destruct (verificationLoop_spec W verifier_verify llm_chat numberToString
              systemPrompt maxRetries 0 request history response [] st st'
              (inr returned) Hrun)
    as (new & H1 & _ & _ & H4).
  destruct (H4 returned eq_refl) as [Hlast Hcase].
  exists new. repeat split; assumption.
Qed.

(** A verifier that never accepts and an LLM that always answers the
    same: with two retries the loop ends exhausted. *)
Definition neverAccepts (w : unit) (request response : jsstring)
    (conversationHistory : list jsstring) (attempt : Z)
  : unit * (jsstring + VerificationResult) :=
  (w, inr (fail (lit "direct-answer") (lit "too short") None)).

Definition sameAnswer (w : unit) (messages : list ChatMessage)
  : unit * (jsstring + ChatCompletionResult) :=
  (w, inr {| cr_content := lit "again"; cr_toolCalls := None |}).

Lemma runVerificationLoop_returns_witness :
  let st := {| world := tt; trace := [] |} in
  let out :=
    runVerificationLoop unit neverAccepts sameAnswer (fun _ => lit "1")
      (lit "You are a bot.") (lit "why?") (lit "no") [] 2 st in
  out.2 = inr (lit "again")
  /\ exists new,
       trace out.1 = trace st ++ new
       /\ lit "again" = lastAnswer (lit "no") new
       /\ ((exists before e,
              new = before ++ [e] /\ accepts (lit "again") e
              /\ Forall rejects before)
           \/ Exhausted 2 (lit "again") new).
Proof.
  cbv zeta. split; [reflexivity |].
  apply (runVerificationLoop_returns unit neverAccepts sameAnswer
           (fun _ => lit "1") (lit "You are a bot.") (lit "why?") (lit "no")
           [] 2 {| world := tt; trace := [] |}).
  reflexivity.
Defined.

(** *** The verdict of the builtin rules *)

Lemma blank_spec (response : jsstring) :
  negb (truthy response) || (Z.of_nat (length (trim response)) =? 0) = true
  <-> trim response = [].
Proof.
  destruct response as [|c r]; [split; reflexivity |].
  cbn [truthy negb orb]. rewrite Z.eqb_eq.
  destruct (trim (c :: r)); cbn [length]; split; (reflexivity || lia || discriminate).
Qed.

(** X16: the rule verifier with the builtin rules asks for a full redo
    exactly when the response is blank; it passes a response exactly when
    none of the three rules objects, and then rates it GOOD; and a verdict
    that does not pass is rated REDO or NEEDS_FIX with confidence 1 and a
    feedback text. *)
Theorem builtin_rules_verdict (request response : jsstring) :
  let result := verifyRules getBuiltinRules request response in
  (rating result = REDO <-> trim response = [])
  /\ (passed result = true
      <-> completenessRule_check request response = None
          /\ codeQualityRule_check request response = None
          /\ directAnswerRule_check request response = None)
  /\ (passed result = true -> result = good)
  /\ (passed result = false ->
      rating result <> GOOD /\ confidence result = 1%Q
      /\ feedback result <> []).
Proof.
  intros result. subst result. cbn [verifyRules getBuiltinRules check].
  pose proof (blank_spec response) as Hblank.
  unfold completenessRule_check, codeQualityRule_check, directAnswerRule_check.
  destruct (negb (truthy response) || _) eqn:Hb.
  { cbn. repeat split; try discriminate; try tauto.
    - intros [H _]. discriminate H. }
  assert (Hnb : trim response <> [])
    by (intros H; apply Hblank in H; discriminate).
  destruct (existsb _ refusalPatterns).
  { cbn. repeat split; try discriminate; try tauto.
    - intros [H _]. discriminate H. }
  destruct ((100 <? Z.of_nat (length response)) && _).
  { cbn. repeat split; try discriminate; try tauto.
    - intros [H _]. discriminate H. }
  destruct (keywordFrom false request && _).
  { cbn. repeat split; try discriminate; try tauto.
    - intros (_ & H & _). discriminate H. }
  destruct (endsWith (lit "?") (trim request) && _).
  { cbn. repeat split; try discriminate; try tauto.
    - intros (_ & _ & H). discriminate H. }
  cbn. repeat split; try discriminate; try tauto.
Qed.

End Verification.

(** ** More on the skill handler and the tool loop *)

Module AgentFacts.

Import Agent.

(** *** Slash commands *)

Lemma takeNonSpace_app (cmd tail : jsstring) :
  Forall (fun c => is_space c = false) cmd ->
  match tail with [] => True | c :: _ => is_space c = true end ->
  takeNonSpace (cmd ++ tail) = cmd.
Proof.
  intros Hcmd Htail. induction Hcmd as [|c cmd Hc _ IH].
  - destruct tail as [|c r]; [reflexivity |]. cbn. rewrite Htail. reflexivity.
  - cbn [app takeNonSpace]. rewrite Hc, IH. reflexivity.
Qed.

Lemma takeNonSpace_split (s : jsstring) :
  exists tail,
    s = takeNonSpace s ++ tail
    /\ Forall (fun c => is_space c = false) (takeNonSpace s)
    /\ match tail with [] => True | c :: _ => is_space c = true end.
Proof.
  induction s as [|c r (tail & Hs & Hcmd & Htail)].
  - exists []. repeat split. constructor.
  - cbn [takeNonSpace]. destruct (is_space c) eqn:Hc.
    + exists (c :: r). repeat split; [constructor | exact Hc].
    + exists tail. cbn [app]. rewrite <- Hs.
      repeat split; [constructor; assumption | exact Htail].
Qed.

Lemma trimStart_idempotent (s : jsstring) : trimStart (trimStart s) = trimStart s.
Proof.
  induction s as [|c r IH]; [reflexivity |].
  cbn [trimStart]. destruct (is_space c) eqn:Hc; [exact IH |].
  cbn [trimStart]. rewrite Hc. reflexivity.
Qed.

(** X17: [parseSlashCommand] accepts exactly the texts made of a slash, a
    name of one or more characters none of which is white space, and a rest
    that is empty or starts with white space; it returns that name and the
    rest trimmed at both ends. *)
Theorem parseSlashCommand_characterised (text cmd parsedArgs : jsstring) :
  parseSlashCommand text = Some (cmd, parsedArgs)
  <-> exists tail,
        text = 47%N :: cmd ++ tail
        /\ cmd <> []
        /\ Forall (fun c => is_space c = false) cmd
        /\ match tail with [] => True | c :: _ => is_space c = true end
        /\ parsedArgs = trim tail.
Proof.
  unfold parseSlashCommand. split.
  - destruct text as [|c rest]; [discriminate |].
    destruct (c =? 47)%N eqn:Hc; [| discriminate].
    apply N.eqb_eq in Hc. subst c.
    destruct (takeNonSpace_split rest) as (tail & Hrest & Hcmd & Htail).
    set (taken := takeNonSpace rest) in *. clearbody taken. subst rest.
    destruct taken as [|d cmd']; [discriminate |].
    intros [= <- <-]. exists tail.
    split; [reflexivity |].
    split; [discriminate |]. split; [exact Hcmd |]. split; [exact Htail |].
    rewrite drop_app_length.
    unfold trim. rewrite trimStart_idempotent. reflexivity.
  - intros (tail & -> & Hne & Hcmd & Htail & ->).
    rewrite N.eqb_refl, (takeNonSpace_app cmd tail Hcmd Htail).
    destruct cmd as [|d cmd']; [congruence |].
    rewrite drop_app_length. unfold trim. rewrite trimStart_idempotent.
    reflexivity.
Qed.

(** *** The tool loop and failures *)

(** The event is a call of the LLM service that threw this error. *)
Definition llmThrew (err : jsstring) (e : Event) : Prop :=
  (exists messages options, e = EChat messages options (inl err))
  \/ (exists systemPrompt userPrompt,
        e = EComplete systemPrompt userPrompt (inl err)).

(** The event is not a chat call. *)
Definition notChat (e : Event) : Prop :=
  match e with EChat _ _ _ => False | _ => True end.

(** One of the tool calls has a name that is not a string, and reading it
    as one throws this error. *)
Definition nameless (err : jsstring) (toolCalls : list ToolCall) : Prop :=
  exists toolCall, toolCall ∈ toolCalls /\ tc_name toolCall = NotAString err.

(** One tool message for each tool call, in their order, each with the id
    of its call. *)
Definition answersCalls (toolCalls : list ToolCall)
    (added : list ChatMessage) : Prop :=
  map role added = map (fun _ => tool) toolCalls
  /\ map toolCallId added = map (fun toolCall => Some (tc_id toolCall)) toolCalls.

Section WithOracle.

Variable W : Type.
Variable llm_chat :
  W -> list ChatMessage -> option ChatOptions ->
  W * (jsstring + ChatCompletionResult).
Variable llm_complete : W -> jsstring -> jsstring -> W * (jsstring + jsstring).
Variable mcp_invokeTool : W -> jsstring -> jsstring -> W * (jsstring + jsstring).
Variable registry : gmap jsstring (SkillDefinition W).

(** The loop over these tool calls makes no chat call; when it throws, it
    does so after a completion threw, with the error of that call, or on a
    tool call without a string for a name. *)
Definition CallsSound {A} (toolCalls : list ToolCall) (st : St W)
    (out : St W * (jsstring + A)) : Prop :=
  exists new,
    trace W out.1 = trace W st ++ new
    /\ Forall notChat new
    /\ forall err, out.2 = inl err ->
         (exists before e, new = before ++ [e] /\ llmThrew err e)
         \/ nameless err toolCalls.


Lemma toolResultOf_sound (toolCall : ToolCall) (st : St W) :
  CallsSound [toolCall] st
    (toolResultOf W llm_complete mcp_invokeTool registry toolCall st).
Proof.
  unfold CallsSound, toolResultOf.
  destruct (tc_name toolCall) as [toolName | typeError] eqn:Hname.
  - destruct (startsWith (lit "skill__") toolName).
    + destruct (truthy_opt _).
      * unfold complete.
        destruct (llm_complete _ _ _) as [w [err | answer]]; eexists [_];
          (split; [reflexivity |]);
          (split; [repeat constructor |]); intros err' [=]. subst err'.
        left. eexists [], _. split; [reflexivity |]. right. eauto.
      * exists []. split; [cbn; rewrite app_nil_r; reflexivity |].
        split; [constructor |]. intros err [=].
    + unfold tryCatch, invokeTool.
      destruct (mcp_invokeTool _ _ _) as [w [err | answer]]; eexists [_];
        (split; [reflexivity |]);
        (split; [repeat constructor |]); intros err' [=].
  - exists []. split; [cbn; rewrite app_nil_r; reflexivity |].
    split; [constructor |]. intros err [= <-].
    right. exists toolCall. split; [apply list_elem_of_here | exact Hname].
Qed.

Lemma runToolCalls_sound (toolCalls : list ToolCall)
    (currentMessages : list ChatMessage) (st : St W) :
  let out :=
    runToolCalls W llm_complete mcp_invokeTool registry toolCalls
      currentMessages st in
  CallsSound toolCalls st out
  /\ forall messages, out.2 = inr messages ->
       exists added,
         messages = currentMessages ++ added /\ answersCalls toolCalls added.
Proof.
  revert currentMessages st.
  induction toolCalls as [|toolCall rest IH]; intros currentMessages st out;
    subst out.
  - split.
    + exists []. split; [cbn; rewrite app_nil_r; reflexivity |].
      split; [constructor |]. intros err [=].
    + intros messages [= <-]. exists []. rewrite app_nil_r.
      split; [reflexivity | split; reflexivity].
  - cbn [runToolCalls]. unfold bind.
    destruct (toolResultOf_sound toolCall st) as (new1 & Htr1 & Hquiet1 & Herr1).
    destruct (toolResultOf W llm_complete mcp_invokeTool registry toolCall st)
      as [st1 [err | toolResult]].
    + cbn [fst snd] in *. split.
      * exists new1. split; [exact Htr1 |]. split; [exact Hquiet1 |].
        intros err0 [= <-]. destruct (Herr1 err eq_refl) as [Hllm | Hname].
        -- left. exact Hllm.
        -- right. destruct Hname as (tc & Hin & Htc).
           apply list_elem_of_singleton in Hin as ->.
           exists toolCall. split; [apply list_elem_of_here | exact Htc].
      * intros messages [=].
    + cbn [fst snd] in Htr1.
      match goal with
      | |- context [runToolCalls _ _ _ _ rest ?m st1] =>
          destruct (IH m st1) as [(new2 & Htr2 & Hquiet2 & Herr2) Hmsgs]
      end.
      cbv zeta in Hmsgs. split.
      * exists (new1 ++ new2).
        split; [rewrite Htr2, Htr1, app_assoc; reflexivity |].
        split; [apply Forall_app; split; assumption |].
        intros err Herr. destruct (Herr2 err Herr) as [Hllm | Hname].
        -- left. destruct Hllm as (before & e & -> & He).
           exists (new1 ++ before), e.
           split; [rewrite app_assoc; reflexivity | exact He].
        -- right. destruct Hname as (tc & Hin & Htc).
           exists tc. split; [apply list_elem_of_further; exact Hin | exact Htc].
      * intros messages Hm.
        destruct (Hmsgs messages Hm) as (added & -> & Hroles & Hids).
        eexists (_ :: added). rewrite <- app_assoc.
        split; [reflexivity |].
        split; cbn [map role toolCallId]; f_equal; assumption.
Qed.


End WithOracle.


(** X19: when the tool calls of an answer have been run, the transcript has
    grown by exactly one tool message for each call, in the order of the
    calls and each with the id of its call, whether the tool succeeded,
    failed or was not found. *)
Theorem runToolCalls_answers_every_call (W : Type)
    (llm_complete : W -> jsstring -> jsstring -> W * (jsstring + jsstring))
    (mcp_invokeTool : W -> jsstring -> jsstring -> W * (jsstring + jsstring))
    (registry : gmap jsstring (SkillDefinition W))
    (toolCalls : list ToolCall) (currentMessages messages : list ChatMessage)
    (st st' : St W) :
  runToolCalls W llm_complete mcp_invokeTool registry toolCalls
    currentMessages st = (st', inr messages) ->
  exists added,
    messages = currentMessages ++ added
    /\ map role added = map (fun _ => tool) toolCalls
    /\ map toolCallId added
       = map (fun toolCall => Some (tc_id toolCall)) toolCalls.
Proof.
  intros Hrun.
  destruct (runToolCalls_sound W llm_complete mcp_invokeTool registry
              toolCalls currentMessages st) as [_ H].
  cbv zeta in H. rewrite Hrun in H. exact (H messages eq_refl).
Qed.

(** An LLM whose service is down and an MCP server that fails. *)
Definition llmDown (w : unit) (messages : list ChatMessage)
    (options : option ChatOptions)
  : unit * (jsstring + ChatCompletionResult) :=
  (w, inl (lit "Error: 429")).

Definition completeDown (w : unit) (systemPrompt userPrompt : jsstring)
  : unit * (jsstring + jsstring) := (w, inl (lit "Error: 429")).

Definition toolDown (w : unit) (toolName payload : jsstring)
  : unit * (jsstring + jsstring) := (w, inl (lit "Error: ECONNREFUSED")).

Definition fresh : St unit := {| world := tt; trace := [] |}.


(** An answer that asks for a tool call without a name: the loop throws
    the error of reading the name, though no call of the LLM service
    threw. *)
Definition namelessCall : ToolCall :=
  {| tc_id := lit "call_1";
     tc_name :=
       NotAString
         (lit "TypeError: Cannot read properties of undefined (reading 'startsWith')");
     tc_arguments := None; tc_payload := lit "{}" |}.

Definition asksNameless (w : unit) (messages : list ChatMessage)
    (options : option ChatOptions)
  : unit * (jsstring + ChatCompletionResult) :=
  (w, inr {| cr_content := lit "{}"; cr_toolCalls := Some [namelessCall] |}).

Example nameless_tool_call_throws :
  (runToolLoop unit asksNameless completeDown toolDown ∅
     [ {| role := user; content := lit "hi"; toolCallId := None |} ] [] 3
     fresh).2
  = inl (lit "TypeError: Cannot read properties of undefined (reading 'startsWith')").
Proof. reflexivity. Qed.

(** A call of a tool that fails and a call of a skill that is not
    registered: each gets its tool message. *)
Definition twoCalls : list ToolCall :=
  [ {| tc_id := lit "call_1"; tc_name := Name (lit "search");
       tc_arguments := None; tc_payload := lit "{}" |};
    {| tc_id := lit "call_2"; tc_name := Name (lit "skill__missing");
       tc_arguments := None; tc_payload := lit "{}" |} ].

Lemma runToolCalls_answers_every_call_witness :
  (runToolCalls unit completeDown toolDown ∅ twoCalls [] fresh).2
  = inr [ {| role := tool; content := lit "Tool error: Error: ECONNREFUSED";
             toolCallId := Some (lit "call_1") |};
          {| role := tool; content := lit "Skill missing not found";
             toolCallId := Some (lit "call_2") |} ]
  /\ exists added,
       [ {| role := tool; content := lit "Tool error: Error: ECONNREFUSED";
            toolCallId := Some (lit "call_1") |};
         {| role := tool; content := lit "Skill missing not found";
            toolCallId := Some (lit "call_2") |} ] = [] ++ added
       /\ map role added = map (fun _ => tool) twoCalls
       /\ map toolCallId added
          = map (fun toolCall => Some (tc_id toolCall)) twoCalls.
Proof.
  assert (H : runToolCalls unit completeDown toolDown ∅ twoCalls [] fresh
              = ({| world := tt;
                    trace := [EInvokeTool (lit "search") (lit "{}")
                                (inl (lit "Error: ECONNREFUSED"))] |},
                 inr [ {| role := tool;
                          content := lit "Tool error: Error: ECONNREFUSED";
                          toolCallId := Some (lit "call_1") |};
                       {| role := tool;
                          content := lit "Skill missing not found";
                          toolCallId := Some (lit "call_2") |} ])).
  { cbn [runToolCalls twoCalls]. unfold bind, toolResultOf.
    cbn [tc_name tc_payload tc_id]. cbv iota beta.
    change (startsWith (lit "skill__") (lit "search")) with false.
    change (startsWith (lit "skill__") (lit "skill__missing")) with true.
    cbv iota. rewrite lookup_empty. reflexivity. }
  split; [rewrite H; reflexivity |].
  exact (runToolCalls_answers_every_call unit completeDown toolDown ∅ twoCalls
           [] _ fresh _ H).
Defined.

End AgentFacts.

(** ** The pipeline of a conversation task (agent/agent-service.ts,
    concurrency/task-manager.ts) *)

Module Pipeline.

Import Rules.

(** [VerificationConfig], as far as the pipeline reads it, and the
    [Partial] of it a channel may carry. *)
Record VerificationConfig := {
  enabled : bool;
  maxRetries : Z;
  skipForShortResponses : bool;
  shortResponseThreshold : Z;
}.

Record VerificationOverride := {
  o_enabled : option bool;
  o_maxRetries : option Z;
  o_skipForShortResponses : option bool;
  o_shortResponseThreshold : option Z;
}.

Record ChannelConfig := {
  ch_type : jsstring;
  ch_verification : option VerificationOverride;
}.

(** [HostConfig]: the system prompt of the persona, the values of
    [channels] in the order of the object, the verification settings. *)
Record HostConfig := {
  systemPrompt : jsstring;
  channelConfigs : list ChannelConfig;
  verification : VerificationConfig;
}.

(** [{ ...base, ...(override ?? {}) }]. *)
Definition spread (base : VerificationConfig)
    (override : option VerificationOverride) : VerificationConfig :=
  match override with
  | None => base
  | Some o =>
      {| enabled := default (enabled base) (o_enabled o);
         maxRetries := default (maxRetries base) (o_maxRetries o);
         skipForShortResponses :=
           default (skipForShortResponses base) (o_skipForShortResponses o);
         shortResponseThreshold :=
           default (shortResponseThreshold base) (o_shortResponseThreshold o) |}
  end.

(** The words of the greeting pattern
    [/^(hi|hello|hey|thanks|thank you|ok|bye)\s*[!.]?$/i]. *)
Definition greetingWords : regex :=
  RAlt (rstr "hi")
    (RAlt (rstr "hello")
       (RAlt (rstr "hey")
          (RAlt (rstr "thanks")
             (RAlt (rstr "thank you") (RAlt (rstr "ok") (rstr "bye")))))).

(** What may follow the word: white space, then at most one exclamation
    mark or full stop, then the end of the text. *)
Definition greetingTail (rest : jsstring) : bool :=
  match trimStart rest with
  | [] => true
  | [c] => ((c =? 33) || (c =? 46))%N
  | _ => false
  end.

Definition isGreeting (request : jsstring) : bool :=
  existsb greetingTail (rmatch true greetingWords (trim request)).

Definition shouldVerify (request response : jsstring)
    (config : VerificationConfig) : bool :=
  if negb (enabled config) then false
  else if skipForShortResponses config
          && (Z.of_nat (length response) <? shortResponseThreshold config)
  then false
  else negb (isGreeting request).

(** The schema of the tool that stands for a skill, as JSON text. *)
Definition quoted (s : string) : jsstring := [34%N] ++ lit s ++ [34%N].

Definition skillInputSchema : jsstring :=
  lit "{" ++ quoted "type" ++ lit ":" ++ quoted "object" ++ lit ","
  ++ quoted "properties" ++ lit ":{" ++ quoted "arguments" ++ lit ":{"
  ++ quoted "type" ++ lit ":" ++ quoted "string" ++ lit ","
  ++ quoted "description" ++ lit ":" ++ quoted "Arguments for the skill"
  ++ lit "}}}".

(** What the pipeline does: a call of the journal (its data left out), a
    call of [updatePhase] (it writes the phase when the file of the task
    exists), a call of [historyStore.addMessage] with the error it threw,
    a call of [historyStore.getMessages] with its outcome, the events of
    the tool loop and of the reply ([EAgent]) and of the verification loop
    ([EVerification]), the last response remembered for [/retry]. *)
Inductive Event :=
| EJournal (event taskId channelId conversationId : jsstring)
| EUpdatePhase (taskId : jsstring) (phase : Tasks.TaskPhase)
    (pendingResponse : option jsstring)
| EAddMessage (channelId conversationId : jsstring) (message : ChatMessage)
    (metadata : option History.MessageMetadata) (failure : option jsstring)
| EGetMessages (channelId conversationId : jsstring)
    (answer : jsstring + list ChatMessage)
| EAgent (e : Agent.Event)
| EVerification (e : Verification.Event)
| ELastResponse (key response : jsstring).

Section WithCollaborators.

(** The collaborators, as oracles over one state, as in the agent service;
    the tools of the MCP manager; the history store; the verifier;
    [String(n)] for an integer. *)
Variable W : Type.
Variable llm_chat :
  W -> list ChatMessage -> option Agent.ChatOptions ->
  W * (jsstring + ChatCompletionResult).
Variable llm_complete : W -> jsstring -> jsstring -> W * (jsstring + jsstring).
Variable mcp_invokeTool : W -> jsstring -> jsstring -> W * (jsstring + jsstring).
Variable mcp_getAllTools : W -> list ToolDefinition.
Variable channel_send :
  W -> jsstring -> jsstring -> OutgoingMessage -> W * option jsstring.
Variable history_addMessage :
  W -> jsstring -> jsstring -> ChatMessage ->
  option History.MessageMetadata -> W * option jsstring.
Variable history_getMessages :
  W -> jsstring -> jsstring -> W * (jsstring + list ChatMessage).
Variable verifier_verify :
  W -> jsstring -> jsstring -> list jsstring -> Z ->
  W * (jsstring + VerificationResult).
Variable numberToString : Z -> jsstring.

(** The skill registry, with the names of its skills in the order of
    their registration; the channels of the channel manager, each with its
    type; the configuration; whether the service was given a journal and a
    task persistence. *)
Variable registry : gmap jsstring (Agent.SkillDefinition W).
Variable skillOrder : list jsstring.
Variable channelTypes : gmap jsstring jsstring.
Variable config : HostConfig.
Variable withJournal : bool.
Variable withPersistence : bool.

(** Computations of the pipeline: they go from a state of the world to
    another, make events, and return or throw. *)
Definition M (A : Type) : Type := W -> W * list Event * (jsstring + A).

Definition ret {A} (a : A) : M A := fun w => (w, [], inr a).

Definition bind {A B} (m : M A) (k : A -> M B) : M B :=
  fun w =>
    match m w with
    | (w1, events1, inl err) => (w1, events1, inl err)
    | (w1, events1, inr a) =>
        let '(w2, events2, out) := k a w1 in (w2, events1 ++ events2, out)
    end.

Notation "'let*' x ':=' m 'in' k" := (bind m (fun x => k))
  (at level 10, x name, m at level 100, k at level 200).

Definition emit (e : Event) : M unit := fun w => (w, [e], inr tt).

(** A computation of the agent service, run here. *)
Definition liftAgent {A} (m : Agent.M W A) : M A :=
  fun w =>
    let '(st, out) := m {| Agent.world := w; Agent.trace := [] |} in
    (Agent.world W st, map EAgent (Agent.trace W st), out).

(** A computation of the verification loop, run here. *)
Definition liftVerification {A} (m : Verification.M W A) : M A :=
  fun w =>
    let '(st, out) :=
      m {| Verification.world := w; Verification.trace := [] |} in
    (Verification.world st, map EVerification (Verification.trace st), out).

(** [this.journal?.log(event, taskId, channelId, conversationId, ...)]: it
    never throws. *)
Definition journal (event : string) (message : Agent.NormalizedMessage)
  : M unit :=
  if withJournal then
    emit (EJournal (lit event) (Agent.msg_id message)
            (Agent.msg_channelId message) (Agent.msg_conversationId message))
  else ret tt.

(** [await this.taskPersistence?.updatePhase(...)]: it never throws. *)
Definition updatePhase (taskId : jsstring) (phase : Tasks.TaskPhase)
    (pendingResponse : option jsstring) : M unit :=
  if withPersistence then emit (EUpdatePhase taskId phase pendingResponse)
  else ret tt.

Definition addMessage (channelId conversationId : jsstring)
    (message : ChatMessage) (metadata : option History.MessageMetadata)
  : M unit :=
  fun w =>
    let '(w', failure) :=
      history_addMessage w channelId conversationId message metadata in
    (w', [EAddMessage channelId conversationId message metadata failure],
     match failure with Some err => inl err | None => inr tt end).

Definition getMessages (channelId conversationId : jsstring)
  : M (list ChatMessage) :=
  fun w =>
    let '(w', answer) := history_getMessages w channelId conversationId in
    (w', [EGetMessages channelId conversationId answer], answer).

(** [skillRegistry.getForLLM()], filtered and mapped to tools. *)
Definition getForLLM : list (Agent.SkillDefinition W) :=
  List.filter
    (fun skill =>
       negb (default false (Agent.disableModelInvocation W skill)))
    (omap (fun skillName => registry !! skillName) skillOrder).

Definition skillTools : list ToolDefinition :=
  map (fun skill =>
         {| td_name := lit "skill__" ++ Agent.name W skill;
            td_description := Agent.description W skill;
            td_inputSchema := skillInputSchema |})
    (List.filter
       (fun skill =>
          match Agent.source W skill with
          | Agent.skillmd => true
          | Agent.builtin => false
          end)
       getForLLM).

(** The first channel configuration of the type of the channel. *)
Definition channelConfigOf (channelType : jsstring) : option ChannelConfig :=
  List.find (fun c => str_eqb (ch_type c) channelType) (channelConfigs config).

Definition lastResponseKey (message : Agent.NormalizedMessage) : jsstring :=
  Agent.msg_channelId message ++ lit ":" ++ Agent.msg_conversationId message.

(** [runPipeline].  The mutex of the history orders the history calls of
    the tasks of a conversation; a task on its own passes it. *)
Definition runPipeline (message : Agent.NormalizedMessage) : M unit :=
  match channelTypes !! Agent.msg_channelId message with
  | None => ret tt
  | Some channelType =>
      let taskId := Agent.msg_id message in
      let channelId := Agent.msg_channelId message in
      let conversationId := Agent.msg_conversationId message in
      let* _ := journal "pipeline_started" message in
      let* _ := updatePhase taskId Tasks.history_written None in
      let* _ :=
        addMessage channelId conversationId
          {| role := user; content := Agent.msg_text message;
             toolCallId := None |}
          (Some {| History.md_senderId := Some (Agent.msg_senderId message);
                   History.md_platformMessageId :=
                     Agent.msg_platformMessageId message;
                   History.md_taskId := None |}) in
      let* _ := journal "history_appended" message in
      let* history := getMessages channelId conversationId in
      let messages :=
        {| role := system; content := systemPrompt config;
           toolCallId := None |} :: history in
      let* allTools := (fun w => (w, [], inr (mcp_getAllTools w ++ skillTools))) in
      let* _ := updatePhase taskId Tasks.llm_calling None in
      let* _ := journal "llm_call_started" message in
      let* answered :=
        liftAgent
          (Agent.runToolLoop W llm_chat llm_complete mcp_invokeTool registry
             messages allTools 10) in
      let* _ := journal "llm_call_completed" message in
      let verificationConfig :=
        spread (verification config)
          (channelConfigOf channelType ≫= ch_verification) in
      let* response :=
        if shouldVerify (Agent.msg_text message) answered verificationConfig
        then
          let* _ := updatePhase taskId Tasks.verifying (Some answered) in
          let* _ := journal "verification_started" message in
          liftVerification
            (Verification.runVerificationLoop W verifier_verify
               (fun w messages => llm_chat w messages None) numberToString
               (systemPrompt config) (Agent.msg_text message) answered
               history (Z.to_nat (maxRetries verificationConfig)))
        else ret answered in
      let* _ := updatePhase taskId Tasks.responding (Some response) in
      let* _ :=
        addMessage channelId conversationId
          {| role := assistant; content := response; toolCallId := None |}
          None in
      let* _ := journal "history_appended" message in
      let* _ := emit (ELastResponse (lastResponseKey message) response) in
      let* _ :=
        liftAgent
          (Agent.sendMessage W channel_send channelId conversationId
             {| text := response;
                replyToMessageId := Agent.msg_platformMessageId message |}) in
      let* _ := journal "response_sent" message in
      journal "task_completed" message
  end.

(** [TaskManager.sendErrorReply]: a failure of the send is logged. *)
Definition sendErrorReply (message : Agent.NormalizedMessage) (err : jsstring)
  : M unit :=
  match channelTypes !! Agent.msg_channelId message with
  | None => ret tt
  | Some _ =>
      fun w =>
        let '(w', events, _) :=
          liftAgent
            (Agent.sendMessage W channel_send (Agent.msg_channelId message)
               (Agent.msg_conversationId message)
               {| text := TaskManager.errorReplyText err;
                  replyToMessageId := Agent.msg_platformMessageId message |})
            w in
        (w', events, inr tt)
  end.

(** A task of the task manager, as the conversation sees it: the pipeline
    the task was submitted with runs; when it throws, the error reply is
    sent.  (The typing indicator and the file of the task are those of
    [TaskManager].) *)
Definition runTask (pipeline : Agent.NormalizedMessage -> M unit)
    (message : Agent.NormalizedMessage) : W -> W * list Event :=
  fun w =>
    match pipeline message w with
    | (w1, events1, inr _) => (w1, events1)
    | (w1, events1, inl err) =>
        let '(w2, events2, _) := sendErrorReply message err w1 in
        (w2, events1 ++ events2)
    end.


(** *** How the pipeline runs *)





























End WithCollaborators.


(** *** A sample deployment

    One web channel, no skill, no MCP tool; the history store keeps the
    messages of the one conversation in the state; verification is off. *)

Definition webChannels : gmap jsstring jsstring := {[ lit "web" := lit "web" ]}.

Definition plainConfig : HostConfig :=
  {| systemPrompt := lit "You are a helpful assistant.";
     channelConfigs := [];
     verification :=
       {| enabled := false; maxRetries := 3; skipForShortResponses := true;
          shortResponseThreshold := 50 |} |}.

Definition keepMessage (w : list ChatMessage) (channelId conversationId : jsstring)
    (message : ChatMessage) (metadata : option History.MessageMetadata)
  : list ChatMessage * option jsstring := (w ++ [message], None).

Definition readMessages (w : list ChatMessage)
    (channelId conversationId : jsstring)
  : list ChatMessage * (jsstring + list ChatMessage) := (w, inr w).


Definition llmDown (w : list ChatMessage) (messages : list ChatMessage)
    (options : option Agent.ChatOptions)
  : list ChatMessage * (jsstring + ChatCompletionResult) :=
  (w, inl (lit "Error: 429")).

Definition noCompletion (w : list ChatMessage) (systemPrompt userPrompt : jsstring)
  : list ChatMessage * (jsstring + jsstring) := (w, inl (lit "Error: 429")).

Definition noTool (w : list ChatMessage) (toolName payload : jsstring)
  : list ChatMessage * (jsstring + jsstring) :=
  (w, inl (lit "Error: unknown tool")).

Definition delivered (w : list ChatMessage) (channelId conversationId : jsstring)
    (message : OutgoingMessage) : list ChatMessage * option jsstring :=
  (w, None).

Definition neverAsked (w : list ChatMessage) (request response : jsstring)
    (conversationHistory : list jsstring) (attempt : Z)
  : list ChatMessage * (jsstring + VerificationResult) :=
  (w, inl (lit "Error: no verifier")).

(** The task of a message, with this LLM. *)
Definition sampleTask
    (llm :
       list ChatMessage -> list ChatMessage -> option Agent.ChatOptions ->
       list ChatMessage * (jsstring + ChatCompletionResult))
    (message : Agent.NormalizedMessage)
  : list ChatMessage * list Event :=
  runTask (list ChatMessage) delivered webChannels
    (runPipeline (list ChatMessage) llm noCompletion noTool (fun _ => [])
       delivered keepMessage readMessages neverAsked (fun _ => lit "1") ∅ []
       webChannels plainConfig true true)
    message [].





End Pipeline.

(** ** Migration of the legacy history (storage/migrator.ts) *)

Module Migration.

Import History.




Abbreviation Store := (gmap (jsstring * jsstring) ConvDir).

Section WithByteLength.

Variable byteLength : HistoryEntry -> Z.







(** *** What a migrated conversation holds *)








End WithByteLength.








End Migration.

(** ** More on the recovery notifier and the health endpoint *)

Module RecoveryFacts.

Import Recovery.

Lemma indexOf_colon (channelId conversationId : jsstring) :
  58%N ∉ channelId ->
  indexOf 58%N (channelId ++ lit ":" ++ conversationId)
  = Some (length channelId).
Proof.
  induction channelId as [|c r IH]; intros Hc; [reflexivity |].
  apply not_elem_of_cons in Hc as [Hne Hr].
  cbn [app indexOf length].
  replace (c =? 58)%N with false
    by (symmetry; apply N.eqb_neq; congruence).
  rewrite (IH Hr). reflexivity.
Qed.

Section WithWorld.

Variable Net : Type.
Variable sendMessage :
  Net -> jsstring -> jsstring -> OutgoingMessage -> Net * option jsstring.
Variable numberToString : Z -> jsstring.
Variable registered : gset jsstring.
Variable nowMs : Z.
Variable nowIso : jsstring.

(** The sends to these conversations, one after the other. *)
Definition sendAll (message : jsstring) (n : Net)
    (conversations : list (jsstring * jsstring)) : Net :=
  foldl (fun n conversation =>
           (sendMessage n conversation.1 conversation.2
              {| text := message; replyToMessageId := None |}).1)
    n conversations.

Definition targetOf (conversation : jsstring * jsstring) : jsstring :=
  conversation.1 ++ lit ":" ++ conversation.2.

Lemma notifyTarget_sends (message : jsstring) (w : World Net)
    (conversation : jsstring * jsstring) :
  58%N ∉ conversation.1 -> conversation.1 ∈ registered ->
  let w' :=
    notifyTarget Net sendMessage registered message w (targetOf conversation) in
  net Net w' = sendAll message (net Net w) [conversation]
  /\ eventFile Net w' = eventFile Net w.
Proof.
  intros Hcolon Hreg w'. subst w'. unfold notifyTarget, targetOf.
  rewrite (indexOf_colon _ _ Hcolon).
  rewrite take_app_length.
  replace (drop (S (length conversation.1))
             (conversation.1 ++ lit ":" ++ conversation.2))
    with conversation.2
    by (replace (S (length conversation.1))
          with (length conversation.1 + 1)%nat by lia;
        rewrite drop_app_add; reflexivity).
  rewrite bool_decide_eq_true_2 by exact Hreg.
  cbn [sendAll foldl].
  destruct (sendMessage _ _ _ _) as [n failure]. split; reflexivity.
Qed.

Lemma notifyAll_sends (message : jsstring) (w : World Net)
    (conversations : list (jsstring * jsstring)) :
  Forall (fun c => (58%N ∉ c.1) /\ c.1 ∈ registered) conversations ->
  net Net (foldl (notifyTarget Net sendMessage registered message) w
             (map targetOf conversations))
  = sendAll message (net Net w) conversations.
Proof.
  intros Hall. revert w.
  induction Hall as [|c rest [Hcolon Hreg] _ IH]; intros w; [reflexivity |].
  cbn [map foldl]. rewrite IH.
  destruct (notifyTarget_sends message w c Hcolon Hreg) as [Hnet _].
  rewrite Hnet. reflexivity.
Qed.

End WithWorld.

(** X21: when the event file holds an event and every notify target names a
    registered channel, by an id without colon, before its first colon, the
    notifier sends the notice once to each target, in the order of the
    list, to the conversation named after the first colon; a send that
    fails does not keep the later ones from being made. *)
Theorem notice_goes_to_every_target (Net : Type)
    (sendMessage :
       Net -> jsstring -> jsstring -> OutgoingMessage -> Net * option jsstring)
    (numberToString : Z -> jsstring) (registered : gset jsstring)
    (nowMs : Z) (nowIso : jsstring) (w : World Net) (event : RecoveryEvent)
    (conversations : list (jsstring * jsstring)) :
  conversations <> [] ->
  Forall (fun c => (58%N ∉ c.1) /\ c.1 ∈ registered) conversations ->
  eventFile Net w = Some (JsonValue event) ->
  net Net
    (checkAndNotify Net sendMessage numberToString registered
       (map targetOf conversations) nowMs nowIso w).1
  = sendAll Net sendMessage
      (noticeText numberToString nowMs nowIso event) (net Net w) conversations.
Proof.
  intros Hne Hall Hfile. unfold checkAndNotify.
  destruct conversations as [|c rest]; [congruence |].
  cbn [map length Nat.eqb]. rewrite Hfile. cbn [fst cleanup net].
  apply (notifyAll_sends Net sendMessage registered _ w (c :: rest) Hall).
Qed.

(** The theorem with two targets on a channel whose sends fail; the state
    of the channels counts the sends. *)
Lemma notice_goes_to_every_target_witness :
  let failing := fun (n : nat) (_ _ : jsstring) (_ : OutgoingMessage) =>
                   (S n, Some (lit "Error: offline")) in
  let w := {| eventFile :=
                Some (JsonValue {| timestamp := Some 1000;
                                   reason := lit "Heartbeat stale";
                                   restartCount := lit "1" |});
              net := O |} in
  [(lit "web", lit "c1"); (lit "web", lit "room:2")] <> []
  /\ net nat
       (checkAndNotify nat failing (fun _ => lit "1") {[ lit "web" ]}
          [lit "web:c1"; lit "web:room:2"] 2000
          (lit "2026-01-01T00:00:02.000Z") w).1
     = 2%nat.
Proof.
  cbv zeta.
  assert (H1 : [(lit "web", lit "c1"); (lit "web", lit "room:2")] <> [])
    by discriminate.
  split; [exact H1 |].
  assert (H2 : Forall (fun c : jsstring * jsstring =>
                         (58%N ∉ c.1) /\ c.1 ∈ ({[ lit "web" ]} : gset jsstring))
                 [(lit "web", lit "c1"); (lit "web", lit "room:2")]).
  { repeat constructor; cbn [fst];
      try (apply elem_of_singleton; reflexivity);
      intros Hin; repeat (apply elem_of_cons in Hin as [Hin | Hin];
                          [discriminate Hin |]); inversion Hin. }
  exact (notice_goes_to_every_target nat
           (fun (n : nat) (_ _ : jsstring) (_ : OutgoingMessage) =>
              (S n, Some (lit "Error: offline")))
           (fun _ => lit "1") {[ lit "web" ]} 2000
           (lit "2026-01-01T00:00:02.000Z")
           {| eventFile :=
                Some (JsonValue {| timestamp := Some 1000;
                                   reason := lit "Heartbeat stale";
                                   restartCount := lit "1" |});
              net := O |}
           {| timestamp := Some 1000; reason := lit "Heartbeat stale";
              restartCount := lit "1" |}
           [(lit "web", lit "c1"); (lit "web", lit "room:2")]
           H1 H2 eq_refl).
Defined.

End RecoveryFacts.

(** ** The health endpoint, and the heartbeat file as the watchdog reads it
    (health/heartbeat.ts, watchdog.ts) *)

Module HealthFacts.

Import Heartbeat.

(** The status code the request handler of the health server answers
    with. *)
Definition statusCode (p : ProcessInfo) (chans : list ChannelStatusEntry)
    (url : jsstring) : Z :=
  if str_eqb url (lit "/health") || str_eqb url (lit "/") then
    httpStatus (buildPayload p chans)
  else 404.

(** X22: the health server answers 200 exactly to a request for [/health]
    or [/] made while every channel is connected (or there is no channel);
    to such a request it answers 503 otherwise, and 404 to any other
    request. *)
Theorem health_endpoint_status (p : ProcessInfo)
    (chans : list ChannelStatusEntry) (url : jsstring) :
  let healthUrl := url = lit "/health" \/ url = lit "/" in
  let allConnected := Forall (fun c => cs_status c = connected) chans in
  (statusCode p chans url = 200 <-> healthUrl /\ allConnected)
  /\ (statusCode p chans url = 503 <-> healthUrl /\ ~ allConnected)
  /\ (statusCode p chans url = 404 <-> ~ healthUrl).
Proof.
  intros healthUrl allConnected. subst healthUrl allConnected.
  unfold statusCode.
  assert (Hurl : str_eqb url (lit "/health") || str_eqb url (lit "/") = true
                 <-> url = lit "/health" \/ url = lit "/")
    by (rewrite orb_true_iff, !str_eqb_true; reflexivity).
  assert (Hstatus : httpStatus (buildPayload p chans)
                    = if forallb (fun c => str_eqb (cs_status c) connected) chans
                      then 200 else 503).
  { unfold httpStatus, buildPayload. cbn [status].
    destruct (existsb _ chans) eqn:Herr.
    - destruct (forallb _ chans) eqn:Hall; [| reflexivity].
      apply anyError_spec in Herr. apply allConnected_spec in Hall.
      apply Exists_exists in Herr as (c & Hin & Hc).
      rewrite Forall_forall in Hall. specialize (Hall c Hin).
      rewrite Hc in Hall. vm_compute in Hall. discriminate.
    - destruct (forallb _ chans) eqn:Hall.
      + rewrite andb_true_r. destruct (0 <? _); reflexivity.
      + rewrite andb_false_r. cbn [negb andb].
        destruct chans; [discriminate Hall | reflexivity]. }
  rewrite Hstatus.
  pose proof (allConnected_spec chans) as Hall.
  destruct (str_eqb url (lit "/health") || str_eqb url (lit "/"));
    destruct (forallb _ chans);
    repeat split; try discriminate; try tauto;
    intros; try (exfalso; intuition congruence); intuition congruence.
Qed.

(** The heartbeat file after [writeHeartbeat] wrote this payload. *)
Definition written (payload : HeartbeatPayload) : Watchdog.HeartbeatFile :=
  Watchdog.Payload (Some (pid payload)) (Some (timestamp payload)).

(** X23: a cycle of the watchdog that is not paused and reads a heartbeat
    the host wrote leaves the host alone, and its own state as it was, as
    long as the heartbeat is no older than the timeout and its process is
    alive, whatever status the heartbeat reports and whatever the health
    endpoint answers; it goes for a restart, made or refused, when the
    heartbeat is older or the process is gone. *)
Theorem fresh_heartbeat_keeps_host (numberToString : Z -> jsstring)
    (watchdogPid : Z) (config : Watchdog.WatchdogConfig) (p : ProcessInfo)
    (chans : list ChannelStatusEntry) (c : Watchdog.Cycle)
    (s : Watchdog.State) :
  Watchdog.heartbeatFile c = written (buildPayload p chans) ->
  Watchdog.paused s = false ->
  let age := Watchdog.nowAge c - proc_now p in
  let result := Watchdog.checkHealth numberToString watchdogPid config c s in
  (age <= Watchdog.heartbeatTimeoutMs config -> Watchdog.pidAlive c = true ->
   result.1 = s /\ exists warned, result.2 = Watchdog.Healthy warned)
  /\ (Watchdog.heartbeatTimeoutMs config < age \/ Watchdog.pidAlive c = false ->
      Watchdog.isRefused result.2 = true
      \/ Watchdog.isRestarted result.2 = true).
Proof.
  intros Hfile Hpaused age result. subst age result.
  unfold Watchdog.checkHealth, Watchdog.diagnose. rewrite Hpaused, Hfile.
  cbn [written Watchdog.readHeartbeat buildPayload pid timestamp].
  split.
  - intros Hage Halive.
    replace (Watchdog.heartbeatTimeoutMs config <? Watchdog.nowAge c - proc_now p)
      with false by (symmetry; apply Z.ltb_ge; exact Hage).
    rewrite Halive. cbn [negb fst snd]. split; [reflexivity | eauto].
  - intros Hgone.
    assert (Hreason : exists reason,
              (if Watchdog.heartbeatTimeoutMs config
                  <? Watchdog.nowAge c - proc_now p
               then Some (Watchdog.staleReason numberToString config
                            (Watchdog.nowAge c - proc_now p))
               else if negb (Watchdog.pidAlive c)
                    then Some (Watchdog.notAliveReason numberToString
                                 (proc_pid p))
                    else None) = Some reason).
    { destruct (_ <? _) eqn:Hlt; [eauto |].
      apply Z.ltb_ge in Hlt. destruct Hgone as [H | H]; [lia |].
      rewrite H. cbn [negb]. eauto. }
    destruct Hreason as [reason ->].
    destruct (Watchdog.recordAndCheck _ _ _) as [kept withinLimits].
    destruct withinLimits; cbn; [right | left]; reflexivity.
Qed.

(** A host whose only channel is in error, with a heartbeat five seconds
    old: the health endpoint answers 503 and the watchdog does nothing. *)
Definition hostInError : ProcessInfo :=
  {| proc_pid := 4242; proc_now := 1000; proc_uptime := 60; proc_heapMB := 80 |}.

Definition telegramInError : list ChannelStatusEntry :=
  [ {| cs_id := lit "telegram"; cs_type := lit "telegram";
       cs_status := error_status; cs_error := None |} ].

Definition fiveSecondsLater : Watchdog.Cycle :=
  {| Watchdog.heartbeatFile := written (buildPayload hostInError telegramInError);
     Watchdog.nowAge := 6000; Watchdog.pidAlive := true;
     Watchdog.httpOk := false; Watchdog.nowRecord := 6000;
     Watchdog.pidAliveStill := true; Watchdog.childAlive := true;
     Watchdog.spawned := None; Watchdog.nowCount := 6000;
     Watchdog.nowWritten := 6000; Watchdog.writeOk := true |}.

Lemma fresh_heartbeat_keeps_host_witness :
  statusCode hostInError telegramInError (lit "/health") = 503
  /\ Watchdog.paused (Watchdog.initial (Some 4242)) = false
  /\ (Watchdog.checkHealth Watchdog.decimal 1 Watchdog.defaults
        fiveSecondsLater (Watchdog.initial (Some 4242))).1
     = Watchdog.initial (Some 4242).
Proof.
  split; [vm_compute; reflexivity |]. split; [reflexivity |].
  refine (proj1 (proj1 (fresh_heartbeat_keeps_host Watchdog.decimal 1
                          Watchdog.defaults hostInError telegramInError
                          fiveSecondsLater (Watchdog.initial (Some 4242))
                          eq_refl eq_refl)
                   _ eq_refl)).
  vm_compute. discriminate.
Defined.

End HealthFacts.

(** ** Server-sent events (web/sse-manager.ts) *)

Module Sse.

(** A response object, by its identity. *)
Abbreviation Client := nat.

Record SSEMessage := {
  event : jsstring;
  data : jsstring;
}.

(** What a response is asked to do: [writeHead], [write], [end]. *)
Inductive Output :=
| Head
| Chunk (payload : jsstring)
| Ended.

(** The text of an event; [data] is the serialised [message.data]. *)
Definition payloadOf (message : SSEMessage) : jsstring :=
  lit "event: " ++ event message ++ [10%N] ++ lit "data: " ++ data message
  ++ [10%N; 10%N].

(** [Set.add] and [Set.delete] on a set kept in insertion order. *)
Definition setAdd (members : list Client) (res : Client) : list Client :=
  if bool_decide (res ∈ members) then members else members ++ [res].

Definition setDelete (members : list Client) (res : Client) : list Client :=
  List.filter (fun member => negb (Nat.eqb member res)) members.

(** What each response has been asked, in order. *)
Definition write (res : Client) (out : Output)
    (log : gmap Client (list Output)) : gmap Client (list Output) :=
  <[res := default [] (log !! res) ++ [out]]> log.

Definition writeAll (out : Output) (log : gmap Client (list Output))
    (members : list Client) : gmap Client (list Output) :=
  foldl (fun log res => write res out log) log members.

(** The manager and what its closures hold.  The [Set] objects live in a
    heap, so that the map of connections and the [close] listeners can
    share them: [connections] maps a conversation to the address of its
    set, and a listener remembers the conversation and the address of the
    set it was created with. *)
Record State := {
  connections : gmap jsstring nat;
  heap : gmap nat (list Client);
  nextSet : nat;
  listeners : gmap Client (list (jsstring * nat));
  written : gmap Client (list Output);
}.

Definition initial : State :=
  {| connections := ∅; heap := ∅; nextSet := O; listeners := ∅;
     written := ∅ |}.

Definition register (conversationId : jsstring) (res : Client) (s : State)
  : State :=
  let opened :=
    write res (Chunk [58; 111; 107; 10; 10]%N) (write res Head (written s)) in
  let '(address, connections', heap', next) :=
    match connections s !! conversationId with
    | Some address => (address, connections s, heap s, nextSet s)
    | None =>
        (nextSet s, <[conversationId := nextSet s]> (connections s),
         <[nextSet s := []]> (heap s), S (nextSet s))
    end in
  {| connections := connections';
     heap := <[address := setAdd (default [] (heap' !! address)) res]> heap';
     nextSet := next;
     listeners :=
       <[res := default [] (listeners s !! res)
                ++ [(conversationId, address)]]> (listeners s);
     written := opened |}.

(** A [close] listener. *)
Definition onClose (res : Client) (s : State) (closure : jsstring * nat)
  : State :=
  let members := setDelete (default [] (heap s !! closure.2)) res in
  {| connections :=
       if (length members =? 0)%nat
       then delete closure.1 (connections s) else connections s;
     heap := <[closure.2 := members]> (heap s);
     nextSet := nextSet s;
     listeners := listeners s;
     written := written s |}.

(** The [close] event of a response: its listeners run, once. *)
Definition close (res : Client) (s : State) : State :=
  let s' := foldl (onClose res) s (default [] (listeners s !! res)) in
  {| connections := connections s'; heap := heap s'; nextSet := nextSet s';
     listeners := delete res (listeners s'); written := written s' |}.

(** [send]; the writes to the responses in [failing] throw. *)
Definition send (conversationId : jsstring) (message : SSEMessage)
    (failing : gset Client) (s : State) : State :=
  match connections s !! conversationId with
  | None => s
  | Some address =>
      let members := default [] (heap s !! address) in
      if (length members =? 0)%nat then s
      else
        let reached :=
          List.filter (fun res => negb (bool_decide (res ∈ failing))) members in
        {| connections := connections s;
           heap := <[address := reached]> (heap s);
           nextSet := nextSet s;
           listeners := listeners s;
           written := writeAll (Chunk (payloadOf message)) (written s) reached |}
  end.

Definition closeAll (s : State) : State :=
  {| connections := ∅;
     heap := heap s;
     nextSet := nextSet s;
     listeners := listeners s;
     written :=
       foldl (fun log (entry : jsstring * nat) =>
                writeAll Ended log (default [] (heap s !! entry.2)))
         (written s) (map_to_list (connections s)) |}.

Inductive Event :=
| Register (conversationId : jsstring) (res : Client)
| Close (res : Client)
| Send (conversationId : jsstring) (message : SSEMessage)
    (failing : gset Client)
| CloseAll.

Definition step (s : State) (e : Event) : State :=
  match e with
  | Register conversationId res => register conversationId res s
  | Close res => close res s
  | Send conversationId message failing =>
      send conversationId message failing s
  | CloseAll => closeAll s
  end.

Definition run (events : list Event) : State := foldl step initial events.

(** What a response has been asked so far. *)
Definition received (s : State) (res : Client) : list Output :=
  default [] (written s !! res).

(** *** The subscribers, without the sharing

    The clients that registered for a conversation and have not closed, in
    the order they registered. *)
Definition subscribersStep (subscribers : gmap jsstring (list Client))
    (e : Event) : gmap jsstring (list Client) :=
  match e with
  | Register conversationId res =>
      <[conversationId :=
          setAdd (default [] (subscribers !! conversationId)) res]> subscribers
  | Close res => (fun members => setDelete members res) <$> subscribers
  | Send _ _ _ => subscribers
  | CloseAll => ∅
  end.

Definition subscribersAfter (events : list Event)
  : gmap jsstring (list Client) :=
  foldl subscribersStep ∅ events.

Definition subscribers (events : list Event) (conversationId : jsstring)
  : list Client :=
  default [] (subscribersAfter events !! conversationId).

(** The events of a quiet life: every response registers once; no write
    throws; the manager is not shut down. *)
Fixpoint Quiet (registered : gset Client) (events : list Event) : Prop :=
  match events with
  | [] => True
  | Register _ res :: rest =>
      (res ∉ registered) /\ Quiet ({[ res ]} ∪ registered) rest
  | Close _ :: rest => Quiet registered rest
  | Send _ _ failing :: rest => failing = ∅ /\ Quiet registered rest
  | CloseAll :: _ => False
  end.

Fixpoint registeredBy (registered : gset Client) (events : list Event)
  : gset Client :=
  match events with
  | [] => registered
  | Register _ res :: rest => registeredBy ({[ res ]} ∪ registered) rest
  | _ :: rest => registeredBy registered rest
  end.

Lemma writeAll_received out members : forall log res,
  NoDup members ->
  default [] (writeAll out log members !! res)
  = default [] (log !! res)
    ++ (if bool_decide (res ∈ members) then [out] else []).
Proof.
  induction members as [|member members IH]; intros log res Hnodup.
  - cbn. rewrite bool_decide_eq_false_2 by apply not_elem_of_nil.
    now rewrite app_nil_r.
  - apply NoDup_cons in Hnodup as [Hfresh Hnodup].
    cbn [writeAll foldl]. fold (writeAll out (write member out log) members).
    rewrite IH by exact Hnodup. unfold write.
    destruct (decide (res = member)) as [->|Hne].
    + rewrite lookup_insert_eq. cbn [default].
      rewrite (bool_decide_eq_false_2 _ Hfresh).
      rewrite bool_decide_eq_true_2 by apply list_elem_of_here.
      now rewrite app_nil_r.
    + rewrite lookup_insert_ne by congruence.
      f_equal. rewrite (bool_decide_ext (res ∈ member :: members) (res ∈ members));
        [reflexivity|]. rewrite elem_of_cons. tauto.
Qed.

Lemma setDelete_elem members res member :
  member ∈ setDelete members res <-> member ∈ members /\ member <> res.
Proof.
  unfold setDelete. rewrite !list_elem_of_In, filter_In, negb_true_iff,
    Nat.eqb_neq. tauto.
Qed.

Lemma setDelete_absent members res :
  res ∉ members -> setDelete members res = members.
Proof.
  intros Habsent. unfold setDelete.
  induction members as [|member members IH]; [reflexivity|].
  apply not_elem_of_cons in Habsent as [Hne Habsent]. cbn.
  destruct (Nat.eqb_spec member res) as [->|_]; [congruence|].
  cbn. now rewrite IH.
Qed.

Lemma setDelete_NoDup members res :
  NoDup members -> NoDup (setDelete members res).
Proof.
  intros Hnodup. apply NoDup_ListNoDup, List.NoDup_filter.
  now apply NoDup_ListNoDup.
Qed.

(** The sets of the manager against the subscribers. *)
Record Agrees (s : State) (subs : gmap jsstring (list Client))
    (registered : gset Client) : Prop := {
  agrees_mapped : forall c a, connections s !! c = Some a ->
    (a < nextSet s)%nat /\ heap s !! a = Some (default [] (subs !! c))
    /\ default [] (subs !! c) <> [];
  agrees_unmapped : forall c, connections s !! c = None ->
    default [] (subs !! c) = [];
  agrees_apart : forall c1 c2 a, connections s !! c1 = Some a ->
    connections s !! c2 = Some a -> c1 = c2;
  agrees_nodup : forall c, NoDup (default [] (subs !! c));
  agrees_listener : forall res closures, listeners s !! res = Some closures ->
    res ∈ registered /\ exists c a, closures = [(c, a)]
    /\ connections s !! c = Some a /\ res ∈ default [] (subs !! c);
  agrees_member : forall c res, res ∈ default [] (subs !! c) ->
    exists a, listeners s !! res = Some [(c, a)];
}.

Lemma initial_agrees : Agrees initial ∅ ∅.
Proof.
  split; cbn; intros *; rewrite ?lookup_empty; cbn;
    try discriminate; try reflexivity.
  - apply NoDup_nil_2.
  - intros Hin. now apply not_elem_of_nil in Hin.
Qed.

Lemma register_agrees s subs registered c res :
  Agrees s subs registered -> res ∉ registered ->
  Agrees (register c res s)
    (<[c := setAdd (default [] (subs !! c)) res]> subs)
    ({[ res ]} ∪ registered).
Proof.
  intros Hs Hfresh.
  assert (Hquiet : listeners s !! res = None).
  { destruct (listeners s !! res) as [closures|] eqn:Hl; [|reflexivity].
    now destruct (agrees_listener _ _ _ Hs _ _ Hl). }
  assert (Hnowhere : forall c', res ∉ default [] (subs !! c')).
  { intros c' Hin. destruct (agrees_member _ _ _ Hs _ _ Hin) as [a Ha].
    congruence. }
  assert (Hadd : setAdd (default [] (subs !! c)) res
                 = default [] (subs !! c) ++ [res]).
  { unfold setAdd. now rewrite (bool_decide_eq_false_2 _ (Hnowhere c)). }
  rewrite Hadd.
  assert (Hsubs : forall c', default [] (<[c := default [] (subs !! c) ++ [res]]> subs !! c')
                  = if decide (c' = c) then default [] (subs !! c) ++ [res]
                    else default [] (subs !! c')).
  { intros c'. destruct (decide (c' = c)) as [->|Hne].
    - now rewrite lookup_insert_eq.
    - now rewrite lookup_insert_ne by congruence. }
  unfold register. rewrite Hquiet. cbn [default app].
  destruct (connections s !! c) as [a|] eqn:Hc.
  - destruct (agrees_mapped _ _ _ Hs _ _ Hc) as (Hlt & Hheap & Hne).
    rewrite Hheap.
    change (default [] (Some (default [] (subs !! c))))
      with (default [] (subs !! c)).
    rewrite Hadd.
    split; cbn [connections heap nextSet listeners]; intros *.
    + intros Hc'. rewrite Hsubs.
      destruct (agrees_mapped _ _ _ Hs _ _ Hc') as (Hlt' & Hheap' & Hne').
      split; [exact Hlt'|]. destruct (decide (c0 = c)) as [->|Hdiff].
      * assert (a0 = a) as -> by congruence. rewrite lookup_insert_eq.
        split; [reflexivity|]. intros Hnil. now apply app_eq_nil in Hnil as [_ ?].
      * rewrite lookup_insert_ne; [now split|].
        intros ->. apply Hdiff. exact (agrees_apart _ _ _ Hs _ _ _ Hc' Hc).
    + intros Hc'. rewrite Hsubs. destruct (decide (c0 = c)) as [->|Hdiff];
        [congruence|]. exact (agrees_unmapped _ _ _ Hs _ Hc').
    + apply (agrees_apart _ _ _ Hs).
    + rewrite Hsubs. destruct (decide (c0 = c)) as [->|Hdiff].
      * apply NoDup_app. split; [apply (agrees_nodup _ _ _ Hs)|].
        split; [|apply NoDup_singleton].
        intros x Hx Hx'. apply list_elem_of_singleton in Hx' as ->.
        exact (Hnowhere _ Hx).
      * apply (agrees_nodup _ _ _ Hs).
    + destruct (decide (res0 = res)) as [->|Hdiff].
      * rewrite lookup_insert_eq. intros [= <-].
        split; [set_solver|]. exists c, a. split; [reflexivity|].
        split; [exact Hc|]. rewrite Hsubs, decide_True by reflexivity.
        apply elem_of_app. right. apply list_elem_of_here.
      * rewrite lookup_insert_ne by congruence. intros Hl.
        destruct (agrees_listener _ _ _ Hs _ _ Hl)
          as (Hreg & c' & a' & -> & Hc' & Hin).
        split; [set_solver|]. exists c', a'. split; [reflexivity|].
        split; [exact Hc'|]. rewrite Hsubs.
        destruct (decide (c' = c)) as [->|_]; [|exact Hin].
        apply elem_of_app. now left.
    + rewrite Hsubs. destruct (decide (c0 = c)) as [->|Hdiff].
      * intros Hin. apply elem_of_app in Hin as [Hin|Hin].
        -- destruct (agrees_member _ _ _ Hs _ _ Hin) as [a' Ha'].
           exists a'. rewrite lookup_insert_ne; [exact Ha'|].
           intros <-. congruence.
        -- apply list_elem_of_singleton in Hin as ->. exists a.
           now rewrite lookup_insert_eq.
      * intros Hin. destruct (agrees_member _ _ _ Hs _ _ Hin) as [a' Ha'].
        exists a'. rewrite lookup_insert_ne; [exact Ha'|].
        intros <-. congruence.
  - pose proof (agrees_unmapped _ _ _ Hs _ Hc) as Hempty.
    rewrite lookup_insert_eq.
    change (setAdd (default [] (Some [])) res) with [res].
    rewrite Hempty in Hsubs |- *. cbn [app] in Hsubs |- *.
    split; cbn [connections heap nextSet listeners]; intros *.
    + rewrite Hsubs. destruct (decide (c0 = c)) as [->|Hdiff].
      * rewrite lookup_insert_eq. intros [= <-]. rewrite lookup_insert_eq.
        split; [lia|]. split; [reflexivity|discriminate].
      * rewrite lookup_insert_ne by congruence. intros Hc'.
        destruct (agrees_mapped _ _ _ Hs _ _ Hc') as (Hlt' & Hheap' & Hne').
        split; [lia|]. rewrite !lookup_insert_ne by lia. now split.
    + rewrite Hsubs. destruct (decide (c0 = c)) as [->|Hdiff].
      * now rewrite lookup_insert_eq.
      * rewrite lookup_insert_ne by congruence.
        apply (agrees_unmapped _ _ _ Hs).
    + destruct (decide (c1 = c)) as [->|Hd1], (decide (c2 = c)) as [->|Hd2];
        rewrite ?lookup_insert_eq, ?lookup_insert_ne by congruence;
        try reflexivity.
      * intros [= <-] Hc2.
        destruct (agrees_mapped _ _ _ Hs _ _ Hc2) as (Hlt' & _). lia.
      * intros Hc1 [= <-].
        destruct (agrees_mapped _ _ _ Hs _ _ Hc1) as (Hlt' & _). lia.
      * apply (agrees_apart _ _ _ Hs).
    + rewrite Hsubs. destruct (decide (c0 = c)) as [->|Hdiff].
      * apply NoDup_singleton.
      * apply (agrees_nodup _ _ _ Hs).
    + destruct (decide (res0 = res)) as [->|Hdiff].
      * rewrite lookup_insert_eq. intros [= <-].
        split; [set_solver|]. exists c, (nextSet s). split; [reflexivity|].
        rewrite lookup_insert_eq. split; [reflexivity|].
        rewrite Hsubs, decide_True by reflexivity. apply list_elem_of_here.
      * rewrite lookup_insert_ne by congruence. intros Hl.
        destruct (agrees_listener _ _ _ Hs _ _ Hl)
          as (Hreg & c' & a' & -> & Hc' & Hin).
        split; [set_solver|]. exists c', a'. split; [reflexivity|].
        assert (c' <> c) by congruence.
        rewrite lookup_insert_ne by congruence.
        split; [exact Hc'|]. rewrite Hsubs. now rewrite decide_False.
    + rewrite Hsubs. destruct (decide (c0 = c)) as [->|Hdiff].
      * intros Hin. apply list_elem_of_singleton in Hin as ->.
        exists (nextSet s). now rewrite lookup_insert_eq.
      * intros Hin. destruct (agrees_member _ _ _ Hs _ _ Hin) as [a' Ha'].
        exists a'. rewrite lookup_insert_ne; [exact Ha'|].
        intros <-. congruence.
Qed.

Lemma subscribers_closed (subs : gmap jsstring (list Client)) res c :
  default [] (((fun members => setDelete members res) <$> subs) !! c)
  = setDelete (default [] (subs !! c)) res.
Proof. rewrite lookup_fmap. now destruct (subs !! c). Qed.

Lemma setDelete_nil members res :
  setDelete members res = [] -> forall member, member ∈ members -> member = res.
Proof.
  intros Hnil member Hin. destruct (decide (member = res)) as [|Hne]; [easy|].
  assert (Hstays : member ∈ setDelete members res)
    by now apply setDelete_elem.
  rewrite Hnil in Hstays. now apply not_elem_of_nil in Hstays.
Qed.

Lemma close_agrees s subs registered res :
  Agrees s subs registered ->
  Agrees (close res s) ((fun members => setDelete members res) <$> subs)
    registered.
Proof.
  intros Hs. unfold close.
  destruct (listeners s !! res) as [closures|] eqn:Hl.
  - destruct (agrees_listener _ _ _ Hs _ _ Hl)
      as (Hreg & c & a & -> & Hc & Hin).
    destruct (agrees_mapped _ _ _ Hs _ _ Hc) as (Hlt & Hheap & Hne).
    assert (Helse : forall c', c' <> c -> res ∉ default [] (subs !! c')).
    { intros c' Hdiff Hin'.
      destruct (agrees_member _ _ _ Hs _ _ Hin') as [a' Ha']. congruence. }
    change (default [] (Some [(c, a)])) with [(c, a)].
    cbn [foldl]. unfold onClose.
    cbn [fst snd connections heap nextSet listeners written]. rewrite Hheap.
    change (default [] (Some (default [] (subs !! c))))
      with (default [] (subs !! c)).
    set (members := setDelete (default [] (subs !! c)) res).
    assert (Hkept : forall c' a', c' <> c ->
              connections s !! c' = Some a' ->
              (if (length members =? 0)%nat then delete c (connections s)
               else connections s) !! c' = Some a').
    { intros c' a' Hdiff Hc'. destruct (length members =? 0)%nat;
        [rewrite lookup_delete_ne by congruence|]; exact Hc'. }
    assert (Hwas : forall c' a',
              (if (length members =? 0)%nat then delete c (connections s)
               else connections s) !! c' = Some a' ->
              connections s !! c' = Some a' /\ (c' = c -> members <> [])).
    { intros c' a'. destruct (length members =? 0)%nat eqn:Hlen.
      - intros Hc'. apply lookup_delete_Some in Hc' as [Hdiff Hc'].
        split; [exact Hc'|]. intros ->. congruence.
      - intros Hc'. split; [exact Hc'|]. intros _ Hnil.
        rewrite Hnil in Hlen. discriminate. }
    split; cbn [connections heap nextSet listeners]; intros *.
    + intros Hc'. apply Hwas in Hc' as [Hc' Hfull].
      destruct (agrees_mapped _ _ _ Hs _ _ Hc') as (Hlt' & Hheap' & Hne').
      split; [exact Hlt'|]. rewrite subscribers_closed.
      destruct (decide (c0 = c)) as [->|Hdiff].
      * assert (a0 = a) as -> by congruence. rewrite lookup_insert_eq.
        split; [reflexivity|]. now apply Hfull.
      * rewrite lookup_insert_ne.
        -- rewrite (setDelete_absent _ _ (Helse _ Hdiff)). now split.
        -- intros ->. apply Hdiff.
           exact (agrees_apart _ _ _ Hs _ _ _ Hc' Hc).
    + rewrite subscribers_closed. destruct (decide (c0 = c)) as [->|Hdiff].
      * fold members. destruct members as [|member members'] eqn:Hm;
          [reflexivity|]. cbn [length Nat.eqb]. congruence.
      * intros Hc'. assert (Hgone : connections s !! c0 = None).
        { destruct (length members =? 0)%nat; [|exact Hc'].
          now rewrite lookup_delete_ne in Hc' by congruence. }
        now rewrite (agrees_unmapped _ _ _ Hs _ Hgone).
    + intros Hc1 Hc2. apply Hwas in Hc1 as [Hc1 _], Hc2 as [Hc2 _].
      exact (agrees_apart _ _ _ Hs _ _ _ Hc1 Hc2).
    + rewrite subscribers_closed. apply setDelete_NoDup, (agrees_nodup _ _ _ Hs).
    + intros Hl'. apply lookup_delete_Some in Hl' as [Hdiff Hl'].
      destruct (agrees_listener _ _ _ Hs _ _ Hl')
        as (Hreg' & c' & a' & -> & Hc' & Hin').
      split; [exact Hreg'|]. exists c', a'. split; [reflexivity|].
      assert (Hstays : res0 ∈ setDelete (default [] (subs !! c')) res)
        by (apply setDelete_elem; split; congruence).
      split; [|now rewrite subscribers_closed].
      destruct (decide (c' = c)) as [->|Hdiffc]; [|now apply Hkept].
      fold members in Hstays.
      destruct members as [|member members'] eqn:Hm;
        [now apply not_elem_of_nil in Hstays|exact Hc'].
    + rewrite subscribers_closed. intros Hin'.
      apply setDelete_elem in Hin' as [Hin' Hdiff].
      destruct (agrees_member _ _ _ Hs _ _ Hin') as [a' Ha'].
      exists a'. now rewrite lookup_delete_ne by congruence.
  - assert (Hnowhere : forall c', res ∉ default [] (subs !! c')).
    { intros c' Hin. destruct (agrees_member _ _ _ Hs _ _ Hin) as [a Ha].
      congruence. }
    cbn [default foldl].
    split; cbn [connections heap nextSet listeners]; intros *;
      rewrite ?subscribers_closed, ?(setDelete_absent _ _ (Hnowhere _)).
    + apply (agrees_mapped _ _ _ Hs).
    + apply (agrees_unmapped _ _ _ Hs).
    + apply (agrees_apart _ _ _ Hs).
    + apply (agrees_nodup _ _ _ Hs).
    + intros Hl'. apply lookup_delete_Some in Hl' as [Hdiff Hl'].
      destruct (agrees_listener _ _ _ Hs _ _ Hl')
        as (Hreg' & c' & a' & -> & Hc' & Hin').
      split; [exact Hreg'|]. exists c', a'.
      now rewrite subscribers_closed, (setDelete_absent _ _ (Hnowhere _)).
    + intros Hin'. destruct (agrees_member _ _ _ Hs _ _ Hin') as [a' Ha'].
      exists a'. rewrite lookup_delete_ne; [exact Ha'|]. congruence.
Qed.

Lemma filter_none_failing (members : list Client) :
  List.filter (fun res => negb (bool_decide (res ∈ (∅ : gset Client)))) members
  = members.
Proof.
  induction members as [|member members IH]; [reflexivity|].
  cbn [List.filter]. rewrite bool_decide_eq_false_2 by set_solver.
  cbn [negb]. f_equal. exact IH.
Qed.

Lemma send_agrees s subs registered c message :
  Agrees s subs registered -> Agrees (send c message ∅ s) subs registered.
Proof.
  intros Hs. unfold send. destruct (connections s !! c) as [a|] eqn:Hc;
    [|exact Hs].
  destruct (length _ =? 0)%nat; [exact Hs|].
  destruct (agrees_mapped _ _ _ Hs _ _ Hc) as (Hlt & Hheap & Hne).
  rewrite filter_none_failing, Hheap.
  change (default [] (Some (default [] (subs !! c))))
    with (default [] (subs !! c)).
  rewrite (insert_id _ _ _ Hheap).
  destruct Hs; split; assumption.
Qed.

Lemma run_agrees events : forall s subs registered,
  Agrees s subs registered -> Quiet registered events ->
  Agrees (foldl step s events) (foldl subscribersStep subs events)
    (registeredBy registered events).
Proof.
  induction events as [|e events IH]; intros s subs registered Hs Hquiet;
    [exact Hs|].
  destruct e as [c res|res|c message failing|]; cbn in Hquiet |- *.
  - destruct Hquiet as [Hfresh Hquiet].
    apply IH; [|exact Hquiet]. now apply register_agrees.
  - apply IH; [|exact Hquiet]. now apply close_agrees.
  - destruct Hquiet as [-> Hquiet].
    apply IH; [|exact Hquiet]. now apply send_agrees.
  - contradiction.
Qed.

(** X24: While every response registers once, no write throws and the
    manager is not shut down, [send] writes the event once to each
    response that registered for the conversation and has not closed, and
    to no other response. *)
Theorem send_reaches_the_subscribers events conversationId message res :
  Quiet ∅ events ->
  received (send conversationId message ∅ (run events)) res
  = received (run events) res
    ++ (if bool_decide (res ∈ subscribers events conversationId)
        then [Chunk (payloadOf message)] else []).
Proof.
  intros Hquiet.
  pose proof (run_agrees events _ _ _ initial_agrees Hquiet) as Hs.
  fold (run events) in Hs. fold (subscribersAfter events) in Hs.
  unfold received, subscribers, send.
  destruct (connections (run events) !! conversationId) as [a|] eqn:Hc.
  - destruct (agrees_mapped _ _ _ Hs _ _ Hc) as (Hlt & Hheap & Hne).
    rewrite Hheap.
    change (default [] (Some ?members)) with members.
    destruct (default [] (subscribersAfter events !! conversationId))
      as [|member members] eqn:Hm; [congruence|].
    cbn [length Nat.eqb written]. rewrite filter_none_failing.
    apply writeAll_received. rewrite <- Hm. apply (agrees_nodup _ _ _ Hs).
  - rewrite (agrees_unmapped _ _ _ Hs _ Hc).
    rewrite bool_decide_eq_false_2 by apply not_elem_of_nil.
    now rewrite app_nil_r.
Qed.

Definition greeting : SSEMessage :=
  {| event := lit "message"; data := lit "{}" |}.

Definition twoTabs : list Event :=
  [Register (lit "c1") 1%nat; Register (lit "c1") 2%nat;
   Register (lit "c2") 3%nat; Close 1%nat; Send (lit "c1") greeting ∅].

Lemma send_reaches_the_subscribers_witness :
  Quiet ∅ twoTabs
  /\ subscribers twoTabs (lit "c1") = [2%nat]
  /\ received (send (lit "c1") greeting ∅ (run twoTabs)) 2%nat
     = received (run twoTabs) 2%nat
       ++ (if bool_decide (2%nat ∈ subscribers twoTabs (lit "c1"))
           then [Chunk (payloadOf greeting)] else []).
Proof.
  assert (Hquiet : Quiet ∅ twoTabs).
  { cbn. rewrite !not_elem_of_union, !not_elem_of_singleton.
    repeat split; try lia; apply not_elem_of_empty. }
  split; [exact Hquiet|]. split; [vm_compute; reflexivity|].
  exact (send_reaches_the_subscribers twoTabs (lit "c1") greeting 2%nat Hquiet).
Defined.

(** A response registers, the manager is shut down, another response
    registers for the same conversation, and then the [close] event of the
    first arrives. *)
Definition reopened (conversationId : jsstring) (old new : Client)
  : list Event :=
  [Register conversationId old; CloseAll; Register conversationId new;
   Close old].

(** X25: A [close] listener outlives [closeAll]: when a response that was
    alone in its conversation closes after the shutdown, it removes the
    set of a response that registered for the conversation in between,
    and that response gets no event. *)
Theorem stale_listener_drops_new_client conversationId old new message :
  old <> new ->
  subscribers (reopened conversationId old new) conversationId = [new]
  /\ received
       (send conversationId message ∅ (run (reopened conversationId old new)))
       new
     = received (run (reopened conversationId old new)) new.
Proof.
  intros Hdiff. unfold reopened. split.
  - unfold subscribers, subscribersAfter. cbn [foldl subscribersStep].
    rewrite subscribers_closed, lookup_insert_eq, lookup_empty. cbn [default].
    change (setAdd [] new) with [new].
    apply setDelete_absent. intros Hin.
    apply list_elem_of_singleton in Hin. congruence.
  - unfold run. cbn [foldl step].
    set (s1 := register conversationId old initial).
    assert (Hl1 : listeners s1 !! old = Some [(conversationId, O)]).
    { unfold s1, register, initial. cbn. rewrite !lookup_empty. cbn.
      now rewrite lookup_insert_eq. }
    assert (Hh1 : heap s1 !! O = Some [old]).
    { unfold s1, register, initial. cbn. rewrite !lookup_empty. cbn.
      now rewrite lookup_insert_eq. }
    set (s2 := closeAll s1).
    set (s3 := register conversationId new s2).
    assert (Hc3 : connections s3 = {[ conversationId := nextSet s1 ]}).
    { unfold s3, register, s2. cbn. now rewrite lookup_empty. }
    assert (Hn1 : nextSet s1 = 1%nat).
    { unfold s1, register, initial. cbn. now rewrite lookup_empty. }
    assert (Hl3 : listeners s3 !! old = Some [(conversationId, O)]).
    { unfold s3, register, s2. cbn. rewrite lookup_empty. cbn.
      now rewrite lookup_insert_ne by congruence. }
    assert (Hh3 : heap s3 !! O = Some [old]).
    { unfold s3, register, s2. cbn. rewrite lookup_empty. cbn.
      rewrite Hn1. now rewrite !lookup_insert_ne by lia. }
    assert (Hgone : connections (close old s3) !! conversationId = None).
    { unfold close. rewrite Hl3.
      change (default [] (Some [(conversationId, O)]))
        with [(conversationId, O)].
      cbn [foldl connections]. unfold onClose. cbn [fst snd connections].
      rewrite Hh3. change (default [] (Some [old])) with [old].
      unfold setDelete. cbn [List.filter]. rewrite Nat.eqb_refl.
      cbn [negb length Nat.eqb]. rewrite Hc3, delete_singleton_eq.
      apply lookup_empty. }
    unfold send. now rewrite Hgone.
Qed.

Lemma stale_listener_drops_new_client_witness :
  1%nat <> 2%nat
  /\ subscribers (reopened (lit "c1") 1%nat 2%nat) (lit "c1") = [2%nat]
  /\ received
       (send (lit "c1") greeting ∅ (run (reopened (lit "c1") 1%nat 2%nat)))
       2%nat
     = received (run (reopened (lit "c1") 1%nat 2%nat)) 2%nat.
Proof.
  assert (Hdiff : 1%nat <> 2%nat) by lia.
  split; [exact Hdiff|].
  exact (stale_listener_drops_new_client (lit "c1") 1%nat 2%nat greeting Hdiff).
Defined.

End Sse.

(** ** The page of the web channel (web/web-app.ts) *)

Module WebApp.

(** [escapeHtml]: four passes, the ampersand first. *)
Definition escapeHtml (s : jsstring) : jsstring :=
  replaceAll [34%N] (lit "&quot;")
    (replaceAll (lit ">") (lit "&gt;")
       (replaceAll (lit "<") (lit "&lt;")
          (replaceAll (lit "&") (lit "&amp;") s))).

(** What one pass over the text would write for a code unit. *)
Definition entityOf (unit : N) : jsstring :=
  if (unit =? 38)%N then lit "&amp;"
  else if (unit =? 60)%N then lit "&lt;"
  else if (unit =? 62)%N then lit "&gt;"
  else if (unit =? 34)%N then lit "&quot;"
  else [unit].

(** The code units that open or close a tag or an attribute value in
    double quotes. *)
Definition isMarkup (unit : N) : bool :=
  ((unit =? 60) || (unit =? 62) || (unit =? 34))%N.

Lemma getSubstitution_plain matched before after template :
  Forall (fun unit => unit <> dollar) template ->
  getSubstitution matched before after template = template.
Proof.
  induction 1 as [|unit template Hunit _ IH]; [reflexivity|].
  cbn [getSubstitution]. apply N.eqb_neq in Hunit. now rewrite Hunit, IH.
Qed.

Lemma replaceAll_from_unit c template
    (Hplain : Forall (fun unit => unit <> dollar) template) :
  forall fuel before s, (length s < fuel)%nat ->
  replaceAll_from fuel [c] template before s
  = flat_map (fun unit => if (unit =? c)%N then template else [unit]) s.
Proof.
  induction fuel as [|fuel IH]; intros before s Hfuel; [lia|].
  destruct s as [|unit s]; [reflexivity|].
  cbn [replaceAll_from startsWith flat_map length drop take rev app].
  cbn [length] in Hfuel. rewrite andb_true_r, (N.eqb_sym c unit).
  destruct (unit =? c)%N.
  - rewrite getSubstitution_plain by exact Hplain.
    rewrite drop_0. now rewrite IH by lia.
  - now rewrite IH by lia.
Qed.

Lemma replaceAll_unit c template s :
  Forall (fun unit => unit <> dollar) template ->
  replaceAll [c] template s
  = flat_map (fun unit => if (unit =? c)%N then template else [unit]) s.
Proof.
  intros Hplain. unfold replaceAll.
  apply replaceAll_from_unit; [exact Hplain|lia].
Qed.

Lemma escapeHtml_passes s :
  escapeHtml s
  = flat_map (fun unit => if (unit =? 34)%N then lit "&quot;" else [unit])
      (flat_map (fun unit => if (unit =? 62)%N then lit "&gt;" else [unit])
         (flat_map (fun unit => if (unit =? 60)%N then lit "&lt;" else [unit])
            (flat_map
               (fun unit => if (unit =? 38)%N then lit "&amp;" else [unit])
               s))).
Proof.
  unfold escapeHtml.
  change (lit ">") with [62%N]. change (lit "<") with [60%N].
  change (lit "&") with [38%N].
  rewrite !replaceAll_unit; [reflexivity| | | |];
    repeat constructor; discriminate.
Qed.

(** X26: The four passes of [escapeHtml] do not escape one another's
    output: the result is the text with each ampersand, angle bracket and
    double quote replaced by its entity, once, and it holds no angle
    bracket and no double quote. *)
Theorem escapeHtml_one_pass s :
  escapeHtml s = flat_map entityOf s
  /\ forallb (fun unit => negb (isMarkup unit)) (escapeHtml s) = true.
Proof.
  assert (Hpass : escapeHtml s = flat_map entityOf s).
  { rewrite escapeHtml_passes.
    induction s as [|unit s IH]; [reflexivity|].
    cbn [flat_map]. rewrite !flat_map_app, IH. f_equal.
    unfold entityOf.
    destruct (unit =? 38)%N eqn:H38; [reflexivity|].
    cbn [flat_map app]. destruct (unit =? 60)%N eqn:H60; [reflexivity|].
    cbn [flat_map app]. destruct (unit =? 62)%N eqn:H62; [reflexivity|].
    cbn [flat_map app]. now destruct (unit =? 34)%N. }
  split; [exact Hpass|]. rewrite Hpass. clear Hpass.
  induction s as [|unit s IH]; [reflexivity|].
  cbn [flat_map]. rewrite forallb_app, IH, andb_true_r.
  unfold entityOf, isMarkup.
  destruct (unit =? 38)%N eqn:H38; [reflexivity|].
  destruct (unit =? 60)%N eqn:H60; [reflexivity|].
  destruct (unit =? 62)%N eqn:H62; [reflexivity|].
  destruct (unit =? 34)%N eqn:H34; [reflexivity|].
  cbn. now rewrite H60, H62, H34.
Qed.

End WebApp.

(** ** The configuration file (config.ts) *)

Module Config.

Import Verification.

(** The word characters at the head of the text, and what follows them. *)
Fixpoint takeWord (s : jsstring) : jsstring * jsstring :=
  match s with
  | [] => ([], [])
  | c :: r =>
      if isWordChar c then let '(word, rest) := takeWord r in (c :: word, rest)
      else ([], s)
  end.

(** A match of [\$\{(\w+)\}] at the head of the text: the name, and the
    text after the closing brace. *)
Definition matchAt (s : jsstring) : option (jsstring * jsstring) :=
  match s with
  | c :: d :: r =>
      if ((c =? 36) && (d =? 123))%N then
        match takeWord r with
        | (first :: word, closing :: rest) =>
            if (closing =? 125)%N then Some (first :: word, rest) else None
        | _ => None
        end
      else None
  | _ => None
  end.

Section WithEnvironment.

(** [process.env[name]], when it is defined. *)
Variable env : jsstring -> option jsstring.

(** The scan of [value.replace(/\$\{(\w+)\}/g, ...)]; [fuel] bounds the
    length of the text. *)
Fixpoint replaceFrom (fuel : nat) (s : jsstring) : jsstring :=
  match fuel with
  | O => s
  | S fuel' =>
      match s with
      | [] => []
      | c :: r =>
          match matchAt s with
          | Some (name, rest) => default [] (env name) ++ replaceFrom fuel' rest
          | None => c :: replaceFrom fuel' r
          end
      end
  end.

Definition resolveEnvVars (value : jsstring) : jsstring :=
  replaceFrom (length value) value.

Lemma replaceFrom_cons fuel c r :
  replaceFrom (S fuel) (c :: r)
  = match matchAt (c :: r) with
    | Some (name, rest) => default [] (env name) ++ replaceFrom fuel rest
    | None => c :: replaceFrom fuel r
    end.
Proof. reflexivity. Qed.

Lemma takeWord_spec s :
  s = (takeWord s).1 ++ (takeWord s).2.
Proof.
  induction s as [|c r IH]; [reflexivity|].
  cbn [takeWord]. destruct (isWordChar c); [|reflexivity].
  destruct (takeWord r) as [word rest]. cbn [fst snd] in *.
  now rewrite IH at 1.
Qed.

Lemma matchAt_shorter s name rest :
  matchAt s = Some (name, rest) -> (length rest < length s)%nat.
Proof.
  unfold matchAt. destruct s as [|c [|d r]]; try discriminate.
  destruct ((c =? 36) && (d =? 123))%N; [|discriminate].
  pose proof (takeWord_spec r) as Hr.
  destruct (takeWord r) as [[|first word] [|closing rest']]; try discriminate.
  destruct (closing =? 125)%N; [|discriminate].
  intros [= <- <-]. cbn [fst snd] in Hr. rewrite Hr.
  cbn [length]. rewrite length_app. cbn [length]. lia.
Qed.

Lemma replaceFrom_fuel : forall fuel fuel' s,
  (length s <= fuel)%nat -> (length s <= fuel')%nat ->
  replaceFrom fuel s = replaceFrom fuel' s.
Proof.
  induction fuel as [|fuel IH]; intros fuel' s Hfuel Hfuel'.
  - destruct s; [|cbn in Hfuel; lia]. now destruct fuel'.
  - destruct s as [|c r]; [now destruct fuel'|].
    destruct fuel' as [|fuel']; [cbn in Hfuel'; lia|].
    cbn [replaceFrom]. cbn [length] in Hfuel, Hfuel'.
    destruct (matchAt (c :: r)) as [[name rest]|] eqn:Hmatch.
    + apply matchAt_shorter in Hmatch. cbn [length] in Hmatch.
      f_equal. apply IH; lia.
    + f_equal. apply IH; lia.
Qed.

Lemma resolveEnvVars_plain_prefix : forall before s,
  Forall (fun unit => unit <> 36%N) before ->
  resolveEnvVars (before ++ s) = before ++ resolveEnvVars s.
Proof.
  induction before as [|c before IH]; intros s Hplain; [reflexivity|].
  apply Forall_cons in Hplain as [Hc Hplain].
  unfold resolveEnvVars at 1. cbn [app length].
  assert (Hnone : matchAt (c :: before ++ s) = None).
  { unfold matchAt. apply N.eqb_neq in Hc. rewrite Hc.
    now destruct (before ++ s). }
  rewrite replaceFrom_cons, Hnone. f_equal. apply IH, Hplain.
Qed.

Lemma takeWord_name name rest :
  forallb isWordChar name = true ->
  takeWord (name ++ 125%N :: rest) = (name, 125%N :: rest).
Proof.
  induction name as [|c name IH]; intros Hword; [reflexivity|].
  cbn [forallb] in Hword. apply andb_true_iff in Hword as [Hc Hword].
  cbn [app takeWord]. now rewrite Hc, IH.
Qed.

End WithEnvironment.

(** X27: A text without a dollar sign is left as it is. *)
Theorem resolveEnvVars_without_dollar env value :
  Forall (fun unit => unit <> 36%N) value ->
  resolveEnvVars env value = value.
Proof.
  intros Hplain.
  rewrite <- (app_nil_r value) at 1.
  rewrite resolveEnvVars_plain_prefix by exact Hplain.
  now rewrite app_nil_r.
Qed.

Lemma resolveEnvVars_without_dollar_witness :
  Forall (fun unit => unit <> 36%N) (lit "gpt-4o")
  /\ resolveEnvVars (fun _ => Some (lit "x")) (lit "gpt-4o") = lit "gpt-4o".
Proof.
  assert (Hplain : Forall (fun unit => unit <> 36%N) (lit "gpt-4o"))
    by (repeat constructor; discriminate).
  split; [exact Hplain|].
  exact (resolveEnvVars_without_dollar _ _ Hplain).
Defined.

(** X28: The first reference of a text, [${NAME}] after a part without a
    dollar sign, is replaced by the value of the variable as it is, or by
    nothing when the variable is not defined; the scan goes on after the
    closing brace, so the value is not scanned again. *)
Theorem resolveEnvVars_reference env before name after :
  Forall (fun unit => unit <> 36%N) before ->
  name <> [] -> forallb isWordChar name = true ->
  resolveEnvVars env (before ++ lit "${" ++ name ++ lit "}" ++ after)
  = before ++ default [] (env name) ++ resolveEnvVars env after.
Proof.
  intros Hplain Hname Hword.
  rewrite resolveEnvVars_plain_prefix by exact Hplain. f_equal.
  change (lit "${") with [36%N; 123%N]. change (lit "}") with [125%N].
  unfold resolveEnvVars at 1. cbn [app length].
  assert (Hmatch : matchAt (36%N :: 123%N :: name ++ 125%N :: after)
                   = Some (name, after)).
  { unfold matchAt. cbn [N.eqb Pos.eqb andb].
    rewrite takeWord_name by exact Hword.
    destruct name; [congruence|reflexivity]. }
  rewrite replaceFrom_cons, Hmatch. f_equal.
  apply replaceFrom_fuel; [|lia]. rewrite length_app. cbn [length]. lia.
Qed.

Definition environment (name : jsstring) : option jsstring :=
  if bool_decide (name = lit "TOKEN") then Some (lit "${HOME}") else None.

Lemma resolveEnvVars_reference_witness :
  Forall (fun unit => unit <> 36%N) (lit "Bearer ")
  /\ lit "TOKEN" <> []
  /\ forallb isWordChar (lit "TOKEN") = true
  /\ resolveEnvVars environment
       (lit "Bearer " ++ lit "${" ++ lit "TOKEN" ++ lit "}" ++ lit "")
     = lit "Bearer " ++ default [] (environment (lit "TOKEN"))
       ++ resolveEnvVars environment (lit "").
Proof.
  assert (Hplain : Forall (fun unit => unit <> 36%N) (lit "Bearer "))
    by (repeat constructor; discriminate).
  assert (Hname : lit "TOKEN" <> []) by discriminate.
  assert (Hword : forallb isWordChar (lit "TOKEN") = true) by reflexivity.
  split; [exact Hplain|]. split; [exact Hname|]. split; [exact Hword|].
  exact (resolveEnvVars_reference environment _ _ _ Hplain Hname Hword).
Defined.

End Config.
